(** * check-cx: the provider check engine and its poller

    A shallow embedding of the TypeScript sources

      - [src/lib/providers/ai-sdk-check.ts]   (module [AiSdk])
      - [src/lib/providers/gemini-native.ts]  (modules [GeminiCommon], [GeminiNative])
      - [src/unnamed/part_002], the action-aware revision of the Gemini
        adapter with the non-streaming retry (module [GeminiAction]; what
        it shares word for word with the file above is in [GeminiCommon])
      - [src/lib/poller.ts]                   (module [Poller])

    followed by the properties of the specification, C1 to C10.

    JavaScript strings are sequences of UTF-16 code units; they are
    modelled as [list N] so that [trim], the regular expressions and the
    prefix tests of the sources range over exactly the characters the
    language defines.  Wall-clock readings, the transport, the ping
    measurement and the challenge generator are inputs of the model:
    an asynchronous function becomes a function of what it observes
    ([Run]), the poller a step function over the events that reach it. *)

From Stdlib Require Import ZArith NArith List String Ascii Bool Lia DecimalString.
From stdpp Require Import base option list gmap.

Local Open Scope N_scope.

(* ===================================================================== *)
(** ** JavaScript strings *)
(* ===================================================================== *)

Module JS.

(** A string value: its UTF-16 code units. *)
Abbreviation jstr := (list N).

(** Decoding of a UTF-8 byte sequence (Basic Multilingual Plane only)
    into code units; used to write literals. *)
Fixpoint utf8 (bs : list N) : jstr :=
  match bs with
  | [] => []
  | b0 :: t0 =>
      if b0 <? 128 then b0 :: utf8 t0
      else
        match t0 with
        | [] => []
        | b1 :: t1 =>
            if b0 <? 224 then ((b0 - 192) * 64 + (b1 - 128)) :: utf8 t1
            else
              match t1 with
              | [] => []
              | b2 :: t2 =>
                  ((b0 - 224) * 4096 + (b1 - 128) * 64 + (b2 - 128)) :: utf8 t2
              end
        end
  end.

(** [lit "..."] is the JavaScript string written by that literal. *)
Definition lit (s : string) : jstr :=
  utf8 (List.map N_of_ascii (list_ascii_of_string s)).

Definition eqb (a b : jstr) : bool := bool_decide (a = b).

(** ECMAScript [WhiteSpace] and [LineTerminator] code units, the set
    stripped by [String.prototype.trim]. *)
Definition is_line_terminator (c : N) : bool :=
  (c =? 10) || (c =? 13) || (c =? 8232) || (c =? 8233).

Definition is_ws (c : N) : bool :=
  (c =? 9) || (c =? 11) || (c =? 12) || (c =? 32) || (c =? 160)
  || (c =? 5760) || ((8192 <=? c) && (c <=? 8202))
  || (c =? 8239) || (c =? 8287) || (c =? 12288) || (c =? 65279)
  || is_line_terminator c.

Fixpoint dropWhile (p : N -> bool) (s : jstr) : jstr :=
  match s with
  | [] => []
  | c :: t => if p c then dropWhile p t else s
  end.

Definition dropWhileEnd (p : N -> bool) (s : jstr) : jstr :=
  rev (dropWhile p (rev s)).

Definition trimStart (s : jstr) : jstr := dropWhile is_ws s.
Definition trimEnd (s : jstr) : jstr := dropWhileEnd is_ws s.

(** [s.trim()] *)
Definition trim (s : jstr) : jstr := trimEnd (trimStart s).

(** Truthiness of a string: non-empty. *)
Definition truthy (s : jstr) : bool :=
  match s with [] => false | _ => true end.

(** [s.startsWith(p)] *)
Fixpoint startsWith (s p : jstr) {struct p} : bool :=
  match p, s with
  | [], _ => true
  | _ :: _, [] => false
  | a :: p', b :: s' => (a =? b) && startsWith s' p'
  end.

(** [s.endsWith(p)] *)
Definition endsWith (s p : jstr) : bool := startsWith (rev s) (rev p).

(** [s.includes(p)] *)
Fixpoint includes (s p : jstr) : bool :=
  startsWith s p ||
  match s with
  | [] => false
  | _ :: t => includes t p
  end.

(** [s.slice(n)] for [0 <= n]. *)
Definition slice_from (n : nat) (s : jstr) : jstr := drop n s.

(** [s.split(c)] for a one-character separator [c]: always at least one
    piece. *)
Fixpoint split_char (c : N) (s : jstr) : list jstr :=
  match s with
  | [] => [[]]
  | a :: t =>
      if a =? c then [] :: split_char c t
      else
        match split_char c t with
        | [] => [[a]]
        | h :: r => (a :: h) :: r
        end
  end.

(** [parts.join(sep)] *)
Fixpoint join (sep : jstr) (parts : list jstr) : jstr :=
  match parts with
  | [] => []
  | [p] => p
  | p :: r => p ++ sep ++ join sep r
  end.

(** [s.replace(pat, by)] for a string pattern: the first occurrence
    only. *)
Fixpoint replace_first (pat by_ s : jstr) : jstr :=
  if startsWith s pat then by_ ++ drop (length pat) s
  else
    match s with
    | [] => []
    | c :: t => c :: replace_first pat by_ t
    end.

(** ASCII case folding, the canonicalisation of an [/i] regular
    expression without the [u] flag on ASCII patterns. *)
Definition lower (c : N) : N :=
  if (65 <=? c) && (c <=? 90) then c + 32 else c.

Definition toLower (s : jstr) : jstr := List.map lower s.

(** [\w] *)
Definition is_word (c : N) : bool :=
  ((48 <=? c) && (c <=? 57)) || ((65 <=? c) && (c <=? 90))
  || ((97 <=? c) && (c <=? 122)) || (c =? 95).

(** [String(z)] and [`${z}`] for an integer-valued number. *)
Definition of_Z (z : Z) : jstr :=
  lit (NilEmpty.string_of_int (Z.to_int z)).

End JS.

Import JS.

(* ===================================================================== *)
(** ** Values shared by the adapters *)
(* ===================================================================== *)

Set Warnings "-register-all".

(** A parsed JSON value.  A number is carried by its [String(...)]
    rendering; an object lists its fields, each name at most once. *)
Inductive json :=
| JNull
| JBool (b : bool)
| JNum (shown : jstr)
| JStr (s : jstr)
| JArr (items : list json)
| JObj (fields : list (jstr * json)).

Inductive ProviderType := openai | anthropic | gemini.

(** [HealthStatus | "validation_failed" | "failed" | "error"] *)
Inductive Status := operational | degraded | validation_failed | failed | error.

#[global] Instance Status_eq_dec : EqDecision Status.
Proof. solve_decision. Defined.

(** [requestHeaders] and [metadata] list the entries of the object in the
    order of [Object.entries]. *)
Module ProviderConfig.
Record t := mk {
  id : jstr;
  name : jstr;
  groupName : option jstr;
  type : ProviderType;
  apiKey : jstr;
  endpoint : option jstr;
  model : jstr;
  requestHeaders : option (list (jstr * jstr));
  metadata : option (list (jstr * json))
}.
End ProviderConfig.

Module CheckResult.
Record t := mk {
  id : jstr;
  name : jstr;
  type : ProviderType;
  endpoint : jstr;
  model : jstr;
  status : Status;
  latencyMs : option Z;
  pingLatencyMs : option Z;
  checkedAt : jstr;
  message : jstr
}.
End CheckResult.

(** A result graded by latency against [threshold]: the latency is the
    elapsed time, the status is operational up to the threshold and
    degraded beyond it, and the message states the elapsed time. *)
Definition graded (threshold elapsed : Z) (r : CheckResult.t) : Prop :=
  CheckResult.latencyMs r = Some elapsed
  /\ ((elapsed <= threshold)%Z ->
      CheckResult.status r = operational
      /\ CheckResult.message r = lit "验证通过 (" ++ of_Z elapsed ++ lit "ms)")
  /\ ((threshold < elapsed)%Z ->
      CheckResult.status r = degraded
      /\ CheckResult.message r = lit "响应成功但耗时 " ++ of_Z elapsed ++ lit "ms").

(** Two results that agree on every field but the ping latency. *)
Definition agree_but_ping (a b : CheckResult.t) : Prop :=
  CheckResult.id a = CheckResult.id b
  /\ CheckResult.name a = CheckResult.name b
  /\ CheckResult.type a = CheckResult.type b
  /\ CheckResult.endpoint a = CheckResult.endpoint b
  /\ CheckResult.model a = CheckResult.model b
  /\ CheckResult.status a = CheckResult.status b
  /\ CheckResult.latencyMs a = CheckResult.latencyMs b
  /\ CheckResult.checkedAt a = CheckResult.checkedAt b
  /\ CheckResult.message a = CheckResult.message b.

(** The challenge of [generateChallenge()]. *)
Module Challenge.
Record t := mk { prompt : jstr; expectedAnswer : jstr }.
End Challenge.

(** The result of [validateResponse(text, expectedAnswer)]. *)
Record Validation := { valid : bool; extractedNumbers : option (list jstr) }.

(** An error object as the catch blocks read it.  A field is [None] when
    the property is [undefined]. *)
Record JsError := {
  err_name : option jstr;
  err_message : option jstr;
  statusCode : option Z;
  responseBody : option jstr
}.

(** A caught value: [None] is a falsy one ([null], [undefined]). *)
Abbreviation thrown := (option JsError).

Definition plainError (msg : jstr) : JsError :=
  {| err_name := Some (lit "Error"); err_message := Some msg;
     statusCode := None; responseBody := None |}.

(** [extracted?.join(", ") || "(无数字)"] *)
Definition showExtracted (xs : option (list jstr)) : jstr :=
  let joined := match xs with Some l => join (lit ", ") l | None => [] end in
  if truthy joined then joined else lit "(无数字)".

(* ===================================================================== *)
(** ** src/lib/providers/ai-sdk-check.ts *)
(* ===================================================================== *)

Module AiSdk.

Definition DEFAULT_TIMEOUT_MS : Z := 45000.
Definition DEGRADED_THRESHOLD_MS : Z := 6000.

Inductive ReasoningEffort := low | medium | high.

Definition EFFORT_ALIAS_MAP : gmap jstr ReasoningEffort :=
  <[lit "mini" := low]> (<[lit "minimal" := low]> (<[lit "low" := low]>
  (<[lit "medium" := medium]> (<[lit "high" := high]> ∅)))).

(** *** The regular expressions of the module *)

(** [\b] between two neighbouring characters, [None] beyond either end. *)
Definition word_boundary (prev cur : option N) : bool :=
  xorb (from_option is_word false prev) (from_option is_word false cur).

(** Leftmost search for [\b] followed by a match of [here] at the same
    position. *)
Fixpoint search_at_boundary (here : jstr -> bool) (prev : option N) (s : jstr)
  : bool :=
  (word_boundary prev (head s) && here s) ||
  match s with
  | [] => false
  | c :: t => search_at_boundary here (Some c) t
  end.

(** [/\bo[1-9]/i] at the current position. *)
Definition o_digit_here (s : jstr) : bool :=
  match s with
  | c :: d :: _ => (lower c =? 111) && (49 <=? d) && (d <=? 57)
  | _ => false
  end.

Definition REASONING_MODEL_HINTS : list (jstr -> bool) :=
  [ (fun s => includes (toLower s) (lit "codex"));
    (fun s => search_at_boundary
                (fun r => startsWith (toLower r) (lit "gpt-5")) None s);
    (fun s => search_at_boundary o_digit_here None s);
    (fun s => includes (toLower s) (lit "deepseek-r1"));
    (fun s => includes (toLower s) (lit "qwq")) ].

(** What the patterns look for, in the name in lower case: the text in
    front of a match of [\bgpt-5] or [\bo[1-9]] is empty or ends with a
    character that is not a word character. *)
Definition at_word_start (pre : jstr) : Prop :=
  pre = [] \/ exists front c, pre = front ++ [c] /\ is_word c = false.

Definition names_reasoning_model (s : jstr) : Prop :=
  (exists pre post, toLower s = pre ++ lit "codex" ++ post)
  \/ (exists pre post, toLower s = pre ++ lit "gpt-5" ++ post /\ at_word_start pre)
  \/ (exists pre d post,
        toLower s = pre ++ 111 :: d :: post /\ 49 <= d <= 57 /\ at_word_start pre)
  \/ (exists pre post, toLower s = pre ++ lit "deepseek-r1" ++ post)
  \/ (exists pre post, toLower s = pre ++ lit "qwq" ++ post).

Definition is_directive_mark (c : N) : bool := (c =? 64) || (c =? 35).

(** [(mini|minimal|low|medium|high)$] with the [i] flag: the rest of the
    input must be one of the alternatives. *)
Definition match_level (rest : jstr) : option jstr :=
  if existsb (fun l => eqb (toLower rest) l)
       [lit "mini"; lit "minimal"; lit "low"; lit "medium"; lit "high"]
  then Some rest else None.

(** [/^(.*?)[@#](mini|minimal|low|medium|high)$/i]: the lazy group grows
    one character at a time, never over a line terminator, and the rest of
    the pattern is tried first at every position.  [seen] is the group so
    far, reversed.  The result is [(base, effortRaw)]. *)
Fixpoint match_directive (seen s : jstr) : option (jstr * jstr) :=
  match s with
  | [] => None
  | c :: t =>
      match (if is_directive_mark c then match_level t else None) with
      | Some lvl => Some (rev seen, lvl)
      | None =>
          if is_line_terminator c then None
          else match_directive (c :: seen) t
      end
  end.

Record ModelDirective := {
  modelId : jstr;
  reasoningEffort : option ReasoningEffort
}.

Definition parseModelDirective (model : jstr) : ModelDirective :=
  let trimmed := trim model in
  if negb (truthy trimmed) then {| modelId := model; reasoningEffort := None |}
  else
    match match_directive [] trimmed with
    | Some (base, effortRaw) =>
        {| modelId := if truthy (trim base) then trim base else trimmed;
           reasoningEffort := EFFORT_ALIAS_MAP !! toLower effortRaw |}
    | None =>
        if existsb (fun regex => regex trimmed) REASONING_MODEL_HINTS
        then {| modelId := trimmed; reasoningEffort := Some medium |}
        else {| modelId := trimmed; reasoningEffort := None |}
    end.

(** *** Error messages *)

Definition isTimeoutError (error : thrown) : bool :=
  match error with
  | None => false
  | Some e =>
      let message := default [] (err_message e) in
      if bool_decide (err_name e = Some (lit "AbortError")) then true
      else if includes (toLower message) (lit "request was aborted") then true
      else if includes (toLower message) (lit "timeout") then true
      else false
  end.

Definition getErrorMessage (error : thrown) : jstr :=
  if isTimeoutError error then lit "请求超时"
  else
    match error with
    | Some e =>
        let m := default [] (err_message e) in
        if truthy m then m else lit "未知错误"
    | None => lit "未知错误"
    end.

(** *** The check *)

Record ResultBuilderBase := {
  config : ProviderConfig.t;
  endpoint : jstr;
  pingLatencyMs : option Z
}.

Definition buildCheckResult (now : jstr) (base : ResultBuilderBase)
    (status : Status) (latencyMs : option Z) (message : jstr) : CheckResult.t :=
  {| CheckResult.id := ProviderConfig.id (config base);
     CheckResult.name := ProviderConfig.name (config base);
     CheckResult.type := ProviderConfig.type (config base);
     CheckResult.endpoint := endpoint base;
     CheckResult.model := ProviderConfig.model (config base);
     CheckResult.status := status;
     CheckResult.latencyMs := latencyMs;
     CheckResult.pingLatencyMs := pingLatencyMs base;
     CheckResult.checkedAt := now;
     CheckResult.message := message |}.

(** What one execution of the check observes from outside:
    - [startedAt]: [Date.now()] at entry;
    - [ping]: what [measureEndpointPing] resolves to;
    - [challenge]: what [generateChallenge()] returns;
    - [stream]: the try block up to the end of the [for await] loop, that
      is [createModel], [streamText] and the text stream: the chunks
      received when it completes, or the value thrown;
    - [finishedAt]: [Date.now()] after the stream has ended;
    - [checkedAt]: [new Date().toISOString()] when the result is built. *)
Record Run := {
  startedAt : Z;
  ping : option Z;
  challenge : Challenge.t;
  stream : list jstr + thrown;
  finishedAt : Z;
  checkedAt : jstr
}.

(** Two executions that differ at most in the outcome of the ping. *)
Definition same_but_ping (a b : Run) : Prop :=
  startedAt a = startedAt b /\ challenge a = challenge b
  /\ stream a = stream b /\ finishedAt a = finishedAt b
  /\ checkedAt a = checkedAt b.

Section Check.

(** [DEFAULT_ENDPOINTS] of [../types] and [validateResponse] of
    [./challenge] are not part of the module. *)
Variable DEFAULT_ENDPOINTS : ProviderType -> jstr.
Variable validateResponse : jstr -> jstr -> Validation.

Definition displayEndpoint (cfg : ProviderConfig.t) : jstr :=
  match ProviderConfig.endpoint cfg with
  | Some e => if truthy e then e else DEFAULT_ENDPOINTS (ProviderConfig.type cfg)
  | None => DEFAULT_ENDPOINTS (ProviderConfig.type cfg)
  end.

Definition checkWithAiSdk (cfg : ProviderConfig.t) (run : Run) : CheckResult.t :=
  let base :=
    {| config := cfg; endpoint := displayEndpoint cfg;
       pingLatencyMs := ping run |} in
  match stream run with
  | inl chunks =>
      let collectedResponse := concat chunks in
      let latencyMs := (finishedAt run - startedAt run)%Z in
      if negb (truthy (trim collectedResponse)) then
        buildCheckResult (checkedAt run) base failed (Some latencyMs)
          (lit "回复为空")
      else
        let validationResult :=
          validateResponse collectedResponse (Challenge.expectedAnswer (challenge run)) in
        if negb (valid validationResult) then
          buildCheckResult (checkedAt run) base validation_failed (Some latencyMs)
            (lit "回复验证失败: 期望 " ++ Challenge.expectedAnswer (challenge run)
             ++ lit ", 实际: "
             ++ showExtracted (extractedNumbers validationResult))
        else
          let status :=
            if (latencyMs <=? DEGRADED_THRESHOLD_MS)%Z
            then operational else degraded in
          let message :=
            match status with
            | degraded => lit "响应成功但耗时 " ++ of_Z latencyMs ++ lit "ms"
            | _ => lit "验证通过 (" ++ of_Z latencyMs ++ lit "ms)"
            end in
          buildCheckResult (checkedAt run) base status (Some latencyMs) message
  | inr err =>
      buildCheckResult (checkedAt run) base failed None (getErrorMessage err)
  end.

End Check.

End AiSdk.

(* ===================================================================== *)
(** ** The Gemini adapter: what both revisions share *)
(* ===================================================================== *)

Module GeminiCommon.

Definition DEFAULT_TIMEOUT_MS : Z := 45000.

Definition createGeminiApiError (status : Z) (body : jstr) (message : option jstr)
  : JsError :=
  {| err_name := Some (lit "Error");
     err_message :=
       Some (default (lit "Gemini API 请求失败 (" ++ of_Z status ++ lit ")") message);
     statusCode := Some status;
     responseBody := Some body |}.

(** Property access [v?.key] on a parsed value; [None] is [undefined].
    None of the names read by the adapter is a built-in property of a
    string, number, boolean or array. *)
Definition prop (key : jstr) (v : option json) : option json :=
  match v with
  | Some (JObj fields) => snd <$> List.find (fun kv => eqb (fst kv) key) fields
  | _ => None
  end.

(** The callback of [parts.map(...)]. *)
Definition partText (part : json) : jstr :=
  match prop (lit "text") (Some part) with
  | Some (JStr s) => s
  | Some (JNum shown) => shown
  | Some (JBool true) => lit "true"
  | Some (JBool false) => lit "false"
  | _ => []
  end.

(** The body of the [for (const candidate of candidates)] loop: the text
    to return, or [None] to go on with the next candidate. *)
Definition candidateText (candidate : json) : option jstr :=
  match prop (lit "parts") (prop (lit "content") (Some candidate)) with
  | Some (JArr parts) =>
      let texts := List.filter truthy (List.map partText parts) in
      let combined := concat texts in
      if (0 <? length texts)%nat && truthy (trim combined)
      then Some combined else None
  | _ => None
  end.

Fixpoint firstCandidateText (candidates : list json) : option jstr :=
  match candidates with
  | [] => None
  | c :: rest =>
      match candidateText c with
      | Some t => Some t
      | None => firstCandidateText rest
      end
  end.

(** The candidates scan of [extractGeminiText] on an object payload. *)
Definition extractFromCandidates (payload : json) : option jstr :=
  match prop (lit "candidates") (Some payload) with
  | Some (JArr candidates) => firstCandidateText candidates
  | _ => None
  end.

Definition mergeStreamText (previous : option jstr) (next : jstr) : jstr :=
  match previous with
  | None => next
  | Some p =>
      if negb (truthy p) then next
      else if startsWith next p then next
      else if startsWith p next then p
      else p ++ next
  end.

(** [s.split(/\r?\n/)] *)
Fixpoint split_lines (s : jstr) : list jstr :=
  match s with
  | [] => [[]]
  | c :: t =>
      let continue_ rest :=
        match rest with
        | [] => [[c]]
        | h :: r => (c :: h) :: r
        end in
      if c =? 10 then [] :: split_lines t
      else
        match t with
        | d :: t' =>
            if (c =? 13) && (d =? 10) then [] :: split_lines t'
            else continue_ (split_lines t)
        | [] => continue_ (split_lines t)
        end
  end.

(** [rawLine.replace(/\r$/, "")] *)
Definition strip_cr (s : jstr) : jstr :=
  match rev s with
  | 13 :: r => rev r
  | _ => s
  end.

(** The three variables the closures of the stream parser share. *)
Record ParserState := {
  text : option jstr;
  lastPayload : option json;
  eventDataLines : list jstr
}.

Definition parser_init : ParserState :=
  {| text := None; lastPayload := None; eventDataLines := [] |}.

Section StreamParser.

(** [JSON.parse]; [None] when it throws. *)
Variable JSON_parse : jstr -> option json.
Variable extractGeminiText : json -> option jstr.

Definition handlePayload (st : ParserState) (payload : jstr) : ParserState :=
  let trimmed := trim payload in
  if negb (truthy trimmed) || eqb trimmed (lit "[DONE]") then st
  else
    match JSON_parse trimmed with
    | None => st
    | Some JNull => st
    | Some parsed =>
        let st' := {| text := text st; lastPayload := Some parsed;
                      eventDataLines := eventDataLines st |} in
        match extractGeminiText parsed with
        | Some extracted =>
            if truthy extracted && truthy (trim extracted) then
              {| text := Some (mergeStreamText (text st') extracted);
                 lastPayload := lastPayload st';
                 eventDataLines := eventDataLines st' |}
            else st'
        | None => st'
        end
    end.

Definition flushEvent (st : ParserState) : ParserState :=
  match eventDataLines st with
  | [] => st
  | lines =>
      let st' := handlePayload st (join [10] lines) in
      {| text := text st'; lastPayload := lastPayload st'; eventDataLines := [] |}
  end.

Definition handleLine (st : ParserState) (rawLine : jstr) : ParserState :=
  let line := strip_cr rawLine in
  let trimmed := trim line in
  if eqb trimmed [] then flushEvent st
  else if startsWith trimmed (lit "data:") then
    {| text := text st; lastPayload := lastPayload st;
       eventDataLines :=
         eventDataLines st ++ [trim (slice_from 5 trimmed)] |}
  else if startsWith trimmed (lit "event:") || startsWith trimmed (lit "id:")
          || startsWith trimmed (lit "retry:") || startsWith trimmed (lit ":")
  then st
  else if startsWith trimmed (lit "{") || startsWith trimmed (lit "[")
          || eqb trimmed (lit "null")
  then handlePayload (flushEvent st) trimmed
  else st.

(** [parseEventStreamLikeText(rawText)]: [(text, lastPayload)]. *)
Definition parseEventStreamLikeText (rawText : jstr)
  : option jstr * option json :=
  let st := flushEvent (fold_left handleLine (split_lines rawText) parser_init) in
  (text st, lastPayload st).

(** One turn of the [while (true)] loop of [readEventStreamText] on a
    decoded chunk: the state is [(buffer, parser)]. *)
Definition readChunk (acc : jstr * ParserState) (chunk : jstr)
  : jstr * ParserState :=
  let lines := split_lines (fst acc ++ chunk) in
  (List.last lines [], fold_left handleLine (removelast lines) (snd acc)).

(** [readEventStreamText] on a body whose reader yields [chunks] and then
    reports the end of the stream. *)
Definition readEventStreamText (chunks : list jstr)
  : option jstr * option json :=
  let '(buffer, st) := fold_left readChunk chunks ([], parser_init) in
  let st' := flushEvent (fold_left handleLine (split_lines buffer) st) in
  (text st', lastPayload st').

(** The payload [x] of a [data:] line is an event whose text is [t]: it
    parses to a value other than [null] from which [t] is extracted. *)
Definition event_text (x t : jstr) : Prop :=
  trim x <> [] /\ trim x <> lit "[DONE]" /\
  exists j, JSON_parse (trim x) = Some j /\ j <> JNull /\
            extractGeminiText j = Some t.

End StreamParser.

(** A text without a line break. *)
Definition single_line (x : jstr) : Prop :=
  Forall (fun c => c <> 10 /\ c <> 13) x.

(** *** The transport *)

(** The [Headers] class of the Fetch standard.  Its methods take byte
    strings: an argument with a code unit above 255 is a [TypeError]. *)
Definition is_byte_string (s : jstr) : bool :=
  forallb (fun c => c <=? 255) s.

(** A header name is a token of HTTP: one or more of the letters, the
    digits and [!#$%&'*+-.^_`|~]. *)
Definition is_tchar (c : N) : bool :=
  ((48 <=? c) && (c <=? 57)) || ((65 <=? c) && (c <=? 90))
  || ((97 <=? c) && (c <=? 122))
  || existsb (N.eqb c)
       [33; 35; 36; 37; 38; 39; 42; 43; 45; 46; 94; 95; 96; 124; 126].

Definition is_header_name (name : jstr) : bool :=
  truthy name && forallb is_tchar name.

(** HTTP whitespace: tab, line feed, carriage return and space. *)
Definition is_http_whitespace (c : N) : bool :=
  (c =? 9) || (c =? 10) || (c =? 13) || (c =? 32).

Definition is_http_tab_or_space (c : N) : bool := (c =? 9) || (c =? 32).

(** A value is normalized before it is looked at: the HTTP whitespace at
    its two ends is taken off. *)
Definition normalize_value (value : jstr) : jstr :=
  dropWhileEnd is_http_whitespace (dropWhile is_http_whitespace value).

(** A header value holds no NUL, no line feed and no carriage return, and
    neither starts nor ends with a tab or a space. *)
Definition is_header_value (value : jstr) : bool :=
  forallb (fun c => negb ((c =? 0) || (c =? 10) || (c =? 13))) value
  && negb (from_option is_http_tab_or_space false (head value))
  && negb (from_option is_http_tab_or_space false (head (rev value))).

(** Whether [headers.set(key, value)] takes the pair; it throws a
    [TypeError] when it does not. *)
Definition Headers_accepts (key value : jstr) : bool :=
  is_byte_string key && is_byte_string value
  && is_header_name key && is_header_value (normalize_value value).

(** [headers.set(key, value)] on a header list in which every name has one
    value: the list is a map from the names in lower case, as [get] and
    the iteration show them.  [None] when the call throws. *)
Definition Headers_set (key value : jstr) (h : gmap jstr jstr)
  : option (gmap jstr jstr) :=
  if Headers_accepts key value
  then Some (<[toLower key := normalize_value value]> h)
  else None.

(** [headers.get(key)] for a name that is a token. *)
Definition Headers_get (key : jstr) (h : gmap jstr jstr) : option jstr :=
  h !! toLower key.

(** [for (const [key, value] of entries) headers.set(key, value)]: the
    header list at the end, or the first pair that is refused. *)
Fixpoint Headers_set_all (entries : list (jstr * jstr)) (h : gmap jstr jstr)
  : gmap jstr jstr + jstr * jstr :=
  match entries with
  | [] => inl h
  | (key, value) :: rest =>
      match Headers_set key value h with
      | Some h' => Headers_set_all rest h'
      | None => inr (key, value)
      end
  end.

(** The [TypeError] of a refused pair; its message is the platform's. *)
Definition typeError (message : jstr) : JsError :=
  {| err_name := Some (lit "TypeError"); err_message := Some message;
     statusCode := None; responseBody := None |}.

(** What the entries of a plain object say about the header [key]: the
    value of the last entry with that name, compared without case. *)
Definition supplied (key : jstr) (entries : list (jstr * jstr)) : option jstr :=
  fold_left
    (fun found kv =>
       if eqb (toLower (fst kv)) (toLower key) then Some (snd kv) else found)
    entries None.

(** The argument of [fetch]: [body] is the value handed to
    [JSON.stringify]. *)
Record Request := {
  url : jstr;
  method : jstr;
  headers : gmap jstr jstr;
  body : json;
  cache : option jstr
}.

(** A response body: the decoded chunks its reader yields, and the error
    that ends the reading early, if any. *)
Record Body := { chunks : list jstr; failure : option thrown }.

Record Response := {
  ok : bool;
  status : Z;
  contentType : option jstr;
  stream : option Body
}.

(** [await response.text().catch(() => "")] *)
Definition responseText (r : Response) : jstr :=
  match stream r with
  | Some b => match failure b with None => concat (chunks b) | Some _ => [] end
  | None => []
  end.

Definition requestBody (prompt : jstr) : json :=
  JObj [ (lit "contents",
          JArr [ JObj [ (lit "role", JStr (lit "user"));
                        (lit "parts", JArr [ JObj [ (lit "text", JStr prompt) ] ]) ] ]);
         (lit "generationConfig",
          JObj [ (lit "temperature", JNum (lit "0"));
                 (lit "maxOutputTokens", JNum (lit "32")) ]) ].

Definition is_slash (c : N) : bool := c =? 47.

Definition buildCheckResult (now : jstr) (config : ProviderConfig.t)
    (endpoint : jstr) (pingLatencyMs : option Z)
    (status : Status) (latencyMs : option Z) (message : jstr) : CheckResult.t :=
  {| CheckResult.id := ProviderConfig.id config;
     CheckResult.name := ProviderConfig.name config;
     CheckResult.type := ProviderConfig.type config;
     CheckResult.endpoint := endpoint;
     CheckResult.model := ProviderConfig.model config;
     CheckResult.status := status;
     CheckResult.latencyMs := latencyMs;
     CheckResult.pingLatencyMs := pingLatencyMs;
     CheckResult.checkedAt := now;
     CheckResult.message := message |}.

(** [config.endpoint?.trim() || DEFAULT_ENDPOINTS.gemini] *)
Definition displayEndpoint (default_gemini : jstr) (cfg : ProviderConfig.t) : jstr :=
  match ProviderConfig.endpoint cfg with
  | Some e => if truthy (trim e) then trim e else default_gemini
  | None => default_gemini
  end.

(** What one execution of [checkWithGeminiNative] observes from outside:
    - [startedAt]: [Date.now()] at entry;
    - [ping]: what [measureEndpointPing] resolves to;
    - [challenge]: what [generateChallenge()] returns;
    - [fetch n req]: what the transport answers to [req] when [n] requests
      went out before it in this check: a response, or the value thrown
      (a network fault, the abort of the 45 s timer);
    - [finishedAt]: [Date.now()] once the reply is in, or in the catch
      block;
    - [checkedAt]: [new Date().toISOString()] when the result is built. *)
Record Run := {
  startedAt : Z;
  ping : option Z;
  challenge : Challenge.t;
  fetch : nat -> Request -> Response + thrown;
  finishedAt : Z;
  checkedAt : jstr
}.

(** Two executions that differ at most in the outcome of the ping. *)
Definition same_but_ping (a b : Run) : Prop :=
  startedAt a = startedAt b /\ challenge a = challenge b
  /\ fetch a = fetch b /\ finishedAt a = finishedAt b
  /\ checkedAt a = checkedAt b.

End GeminiCommon.

(* ===================================================================== *)
(** ** src/lib/providers/gemini-native.ts *)
(* ===================================================================== *)

Module GeminiNative.
Import GeminiCommon.

Definition DEGRADED_THRESHOLD_MS : Z := 6000.

Definition resolveGeminiUrl (endpoint model : jstr) : jstr :=
  let trimmed := trim endpoint in
  if includes trimmed (lit ":streamGenerateContent") then trimmed
  else
    let pieces := split_char 63 trimmed in
    let base := default [] (pieces !! 0%nat) in
    let query := default [] (pieces !! 1%nat) in
    let normalizedBase := dropWhileEnd is_slash base in
    if endsWith normalizedBase (lit "/v1beta/models") then
      let nextBase :=
        normalizedBase ++ lit "/" ++ model ++ lit ":streamGenerateContent" in
      if truthy query then nextBase ++ lit "?" ++ query else nextBase
    else trimmed.

Definition extractGeminiText (payload : json) : option jstr :=
  extractFromCandidates payload.

Record Params := {
  endpoint : jstr;
  apiKey : jstr;
  model : jstr;
  prompt : jstr;
  timeoutMs : option Z;
  requestHeaders : option (list (jstr * jstr))
}.

(** The calls that fill the [Headers] object, in the order of the source:
    the three entries of [new Headers({...})], which are appended under
    three different names, the loop over [Object.entries] of
    [params.requestHeaders], and the two calls of [headers.set] after it. *)
Definition headerCalls (params : Params) : list (jstr * jstr) :=
  let bearer := lit "Bearer " ++ apiKey params in
  [ (lit "Authorization", bearer);
    (lit "Content-Type", lit "application/json");
    (lit "User-Agent", lit "check-cx/0.1.0") ]
  ++ default [] (requestHeaders params)
  ++ [ (lit "Authorization", bearer);
       (lit "Content-Type", lit "application/json") ].

(** The [Headers] object handed to [fetch], or the pair on which the
    [Headers] class throws. *)
Definition requestHeadersOf (params : Params) : gmap jstr jstr + jstr * jstr :=
  Headers_set_all (headerCalls params) ∅.

(** The argument of [fetch]; there is none when the headers throw, which
    is before the [try] block that calls [fetch]. *)
Definition requestOf (params : Params) : Request + jstr * jstr :=
  match requestHeadersOf params with
  | inl headers =>
      inl {| url := resolveGeminiUrl (endpoint params) (model params);
             method := lit "POST";
             headers := headers;
             body := requestBody (prompt params);
             cache := None |}
  | inr refused => inr refused
  end.

Section Request.

(** [JSON.parse], [None] when it throws, and the message of the
    [TypeError] with which the [Headers] class refuses a pair. *)
Variable JSON_parse : jstr -> option json.
Variable refusalMessage : jstr -> jstr -> jstr.

(** The [catch] branch of [JSON.parse(rawText)]: the last line that
    parses. *)
Definition lastParsedLine (rawText : jstr) : option json :=
  fold_left
    (fun last line =>
       let current := trim line in
       if negb (truthy current) || eqb current (lit "[DONE]") then last
       else
         let maybePayload :=
           if startsWith current (lit "data:")
           then trim (slice_from 5 current) else current in
         if negb (truthy maybePayload) || eqb maybePayload (lit "[DONE]")
            || eqb maybePayload (lit "null")
         then last
         else
           match JSON_parse maybePayload with
           | Some v => Some v
           | None => last
           end)
    (split_lines rawText) None.

(** What [requestGeminiNative] does with the response of [fetch]. *)
Definition readResponse (response : Response) : jstr + thrown :=
  if negb (ok response) then
    inr (Some (createGeminiApiError (status response) (responseText response) None))
  else
    let contentType := default [] (contentType response) in
    if includes contentType (lit "text/event-stream") then
      match stream response with
      | None => inr (Some (plainError (lit "Gemini 返回为空（无响应体）")))
      | Some b =>
          match failure b with
          | Some e => inr e
          | None =>
              match fst (readEventStreamText JSON_parse extractGeminiText (chunks b)) with
              | Some text => if truthy text && truthy (trim text) then inl text else inl []
              | None => inl []
              end
          end
      end
    else
      let rawText := responseText response in
      let trimmed := trim rawText in
      if negb (truthy trimmed) || eqb trimmed (lit "null") then inl []
      else
        let payload :=
          match JSON_parse rawText with
          | Some v => Some v
          | None => lastParsedLine rawText
          end in
        match payload ≫= extractGeminiText with
        | Some text => if truthy (trim text) then inl text else inl []
        | None => inl []
        end.

(** [requestGeminiNative(params)] against a transport: the text returned
    or the value thrown, with the requests that went out: one, or none
    when the [Headers] class throws. *)
Definition requestGeminiNative (transport : Request -> Response + thrown)
    (params : Params) : (jstr + thrown) * list Request :=
  match requestOf params with
  | inl request =>
      (match transport request with
       | inl response => readResponse response
       | inr e => inr e
       end, [request])
  | inr (key, value) => (inr (Some (typeError (refusalMessage key value))), [])
  end.

(** [DEFAULT_ENDPOINTS.gemini] of [../types], [validateResponse] of
    [./challenge] and [getErrorMessage] of [../utils/error-handler] are
    not part of the module. *)
Variable DEFAULT_ENDPOINTS_gemini : jstr.
Variable validateResponse : jstr -> jstr -> Validation.
Variable getErrorMessage : thrown -> jstr.

(** The call inside the [try] block of [checkWithGeminiNative]: what it
    returns or throws, and the requests that went out, in order. *)
Definition requestPhase (config : ProviderConfig.t) (run : Run)
  : (jstr + thrown) * list Request :=
  requestGeminiNative (fetch run 0%nat)
    {| endpoint := displayEndpoint DEFAULT_ENDPOINTS_gemini config;
       apiKey := ProviderConfig.apiKey config;
       model := ProviderConfig.model config;
       prompt := Challenge.prompt (challenge run);
       timeoutMs := Some DEFAULT_TIMEOUT_MS;
       requestHeaders := ProviderConfig.requestHeaders config |}.

(** The result, and the requests that went out. *)
Definition checkWithGeminiNative (config : ProviderConfig.t) (run : Run)
  : CheckResult.t * list Request :=
  let displayEndpoint := displayEndpoint DEFAULT_ENDPOINTS_gemini config in
  let '(outcome, requests) := requestPhase config run in
  let latencyMs := (finishedAt run - startedAt run)%Z in
  let toResult :=
    buildCheckResult (checkedAt run) config displayEndpoint (ping run) in
  (match outcome with
   | inl responseText =>
       if negb (truthy (trim responseText)) then
         toResult failed (Some latencyMs) (lit "回复为空")
       else
         let v := validateResponse responseText (Challenge.expectedAnswer (challenge run)) in
         if negb (valid v) then
           toResult validation_failed (Some latencyMs)
             (lit "回复验证失败: 期望 " ++ Challenge.expectedAnswer (challenge run)
              ++ lit ", 实际: " ++ showExtracted (extractedNumbers v))
         else
           let status :=
             if (latencyMs <=? DEGRADED_THRESHOLD_MS)%Z
             then operational else degraded in
           let message :=
             match status with
             | degraded => lit "响应成功但耗时 " ++ of_Z latencyMs ++ lit "ms"
             | _ => lit "验证通过 (" ++ of_Z latencyMs ++ lit "ms)"
             end in
           toResult status (Some latencyMs) message
   | inr err => toResult error (Some latencyMs) (getErrorMessage err)
   end, requests).

End Request.

End GeminiNative.

(* ===================================================================== *)
(** ** src/unnamed/part_002: the action-aware Gemini adapter *)
(* ===================================================================== *)

Module GeminiAction.
Import GeminiCommon.

(** [Number(process.env.DEGRADED_THRESHOLD_MS) || 6_000], where
    [configured] is the number read from the environment and [None] is
    [NaN], the value when the variable is not set. *)
Definition DEGRADED_THRESHOLD_MS (configured : option Z) : Z :=
  match configured with
  | Some z => if (z =? 0)%Z then 6000%Z else z
  | None => 6000%Z
  end.

Inductive GeminiAction := streamGenerateContent | generateContent.

Definition action_name (action : GeminiAction) : jstr :=
  match action with
  | streamGenerateContent => lit "streamGenerateContent"
  | generateContent => lit "generateContent"
  end.

Definition resolveGeminiUrlForAction (endpoint model : jstr) (action : GeminiAction)
  : jstr :=
  let trimmed := trim endpoint in
  let pieces := split_char 63 trimmed in
  let base := default [] (pieces !! 0%nat) in
  let query := default [] (pieces !! 1%nat) in
  let normalizedBase := dropWhileEnd is_slash base in
  let withQuery nextBase :=
    if truthy query then nextBase ++ lit "?" ++ query else nextBase in
  let otherwise :=
    if endsWith normalizedBase (lit "/v1beta/models") then
      withQuery (normalizedBase ++ lit "/" ++ model ++ lit ":" ++ action_name action)
    else trimmed in
  match action with
  | streamGenerateContent =>
      if includes trimmed (lit ":streamGenerateContent") then trimmed
      else otherwise
  | generateContent =>
      if includes trimmed (lit ":generateContent") then trimmed
      else if includes trimmed (lit ":streamGenerateContent") then
        withQuery (replace_first (lit ":streamGenerateContent")
                     (lit ":generateContent") base)
      else otherwise
  end.

(** [extractGeminiText]: an array payload is scanned from its last item
    to its first, the first usable text wins. *)
Fixpoint extractGeminiText (payload : json) : option jstr :=
  match payload with
  | JNull => None
  | JArr items =>
      (fix scan (l : list json) : option jstr :=
         match l with
         | [] => None
         | item :: later =>
             match scan later with
             | Some t => Some t
             | None =>
                 match extractGeminiText item with
                 | Some extracted =>
                     if truthy extracted && truthy (trim extracted)
                     then Some extracted else None
                 | None => None
                 end
             end
         end) items
  | _ => extractFromCandidates payload
  end.

Record Params := {
  endpoint : jstr;
  apiKey : jstr;
  model : jstr;
  prompt : jstr;
  timeoutMs : option Z;
  action : option GeminiAction;
  requestHeaders : option (list (jstr * jstr))
}.

Definition actionOf (params : Params) : GeminiAction :=
  default streamGenerateContent (action params).

(** The value of the [Accept] header. *)
Definition acceptOf (a : GeminiAction) : jstr :=
  match a with
  | streamGenerateContent => lit "application/json, text/event-stream"
  | generateContent => lit "application/json"
  end.

(** The calls that fill the [Headers] object, in the order of the source:
    the three entries of [new Headers({...})], which are appended under
    three different names, the loop over [Object.entries] of
    [params.requestHeaders], and the three calls of [headers.set] after
    it. *)
Definition headerCalls (params : Params) : list (jstr * jstr) :=
  let bearer := lit "Bearer " ++ apiKey params in
  [ (lit "Authorization", bearer);
    (lit "Content-Type", lit "application/json");
    (lit "User-Agent", lit "check-cx/0.1.0") ]
  ++ default [] (requestHeaders params)
  ++ [ (lit "Authorization", bearer);
       (lit "Content-Type", lit "application/json");
       (lit "Accept", acceptOf (actionOf params)) ].

(** The [Headers] object handed to [fetch], or the pair on which the
    [Headers] class throws. *)
Definition requestHeadersOf (params : Params) : gmap jstr jstr + jstr * jstr :=
  Headers_set_all (headerCalls params) ∅.

(** The argument of [fetch]; there is none when the headers throw, which
    is before the [try] block that calls [fetch]. *)
Definition requestOf (params : Params) : Request + jstr * jstr :=
  match requestHeadersOf params with
  | inl headers =>
      inl {| url := resolveGeminiUrlForAction (endpoint params) (model params)
                      (actionOf params);
             method := lit "POST";
             headers := headers;
             body := requestBody (prompt params);
             cache := Some (lit "no-store") |}
  | inr refused => inr refused
  end.

Section Request.

(** [JSON.parse], [None] when it throws, and the message of the
    [TypeError] with which the [Headers] class refuses a pair. *)
Variable JSON_parse : jstr -> option json.
Variable refusalMessage : jstr -> jstr -> jstr.

(** What [requestGeminiNative] does with the response of [fetch]. *)
Definition readResponse (response : Response) : jstr + thrown :=
  if negb (ok response) then
    inr (Some (createGeminiApiError (status response) (responseText response) None))
  else
    let contentType := default [] (contentType response) in
    if includes contentType (lit "text/event-stream") then
      match stream response with
      | None => inr (Some (plainError (lit "Gemini 返回为空（无响应体）")))
      | Some b =>
          match failure b with
          | Some e => inr e
          | None =>
              match fst (readEventStreamText JSON_parse extractGeminiText (chunks b)) with
              | Some text => if truthy text && truthy (trim text) then inl text else inl []
              | None => inl []
              end
          end
      end
    else
      let rawText := responseText response in
      let trimmed := trim rawText in
      if negb (truthy trimmed) || eqb trimmed (lit "null") then inl []
      else
        let fromPayload (payload : option json) : jstr + thrown :=
          match payload ≫= extractGeminiText with
          | Some text => if truthy (trim text) then inl text else inl []
          | None => inl []
          end in
        match JSON_parse rawText with
        | Some payload => fromPayload (Some payload)
        | None =>
            let parsed := parseEventStreamLikeText JSON_parse extractGeminiText rawText in
            match fst parsed with
            | Some text =>
                if truthy text && truthy (trim text) then inl text
                else fromPayload (snd parsed)
            | None => fromPayload (snd parsed)
            end
        end.

(** [requestGeminiNative(params)] against a transport: the text returned
    or the value thrown, with the requests that went out: one, or none
    when the [Headers] class throws. *)
Definition requestGeminiNative (transport : Request -> Response + thrown)
    (params : Params) : (jstr + thrown) * list Request :=
  match requestOf params with
  | inl request =>
      (match transport request with
       | inl response => readResponse response
       | inr e => inr e
       end, [request])
  | inr (key, value) => (inr (Some (typeError (refusalMessage key value))), [])
  end.

(** [DEFAULT_ENDPOINTS.gemini] of [../types], [validateResponse] of
    [./challenge] and [getErrorMessage] of [../utils/error-handler] are
    not part of the module; [configured] is the threshold read from the
    environment. *)
Variable DEFAULT_ENDPOINTS_gemini : jstr.
Variable validateResponse : jstr -> jstr -> Validation.
Variable getErrorMessage : thrown -> jstr.
Variable configured : option Z.

(** The argument of the two calls of [requestGeminiNative]. *)
Definition paramsFor (config : ProviderConfig.t) (run : Run) (a : GeminiAction)
  : Params :=
  {| endpoint := displayEndpoint DEFAULT_ENDPOINTS_gemini config;
     apiKey := ProviderConfig.apiKey config;
     model := ProviderConfig.model config;
     prompt := Challenge.prompt (challenge run);
     timeoutMs := Some DEFAULT_TIMEOUT_MS;
     action := Some a;
     requestHeaders := ProviderConfig.requestHeaders config |}.

(** The calls inside the [try] block of [checkWithGeminiNative]: the final
    [responseText] or the value thrown, and the requests that went out,
    in order. *)
Definition requestPhase (config : ProviderConfig.t) (run : Run)
  : (jstr + thrown) * list Request :=
  match requestGeminiNative (fetch run 0%nat)
          (paramsFor config run streamGenerateContent) with
  | (inl responseText, first) =>
      if negb (truthy (trim responseText)) then
        let '(retried, second) :=
          requestGeminiNative (fetch run 1%nat)
            (paramsFor config run generateContent) in
        (retried, first ++ second)
      else (inl responseText, first)
  | (inr err, first) => (inr err, first)
  end.

(** The result, and the requests that went out. *)
Definition checkWithGeminiNative (config : ProviderConfig.t) (run : Run)
  : CheckResult.t * list Request :=
  let displayEndpoint := displayEndpoint DEFAULT_ENDPOINTS_gemini config in
  let '(outcome, requests) := requestPhase config run in
  let latencyMs := (finishedAt run - startedAt run)%Z in
  let toResult :=
    buildCheckResult (checkedAt run) config displayEndpoint (ping run) in
  (match outcome with
   | inl responseText =>
       if negb (truthy (trim responseText)) then
         toResult failed (Some latencyMs) (lit "回复为空")
       else
         let v := validateResponse responseText (Challenge.expectedAnswer (challenge run)) in
         if negb (valid v) then
           toResult validation_failed (Some latencyMs)
             (lit "回复验证失败: 期望 " ++ Challenge.expectedAnswer (challenge run)
              ++ lit ", 实际: " ++ showExtracted (extractedNumbers v))
         else
           let status :=
             if (latencyMs <=? DEGRADED_THRESHOLD_MS configured)%Z
             then operational else degraded in
           let message :=
             match status with
             | degraded => lit "响应成功但耗时 " ++ of_Z latencyMs ++ lit "ms"
             | _ => lit "验证通过 (" ++ of_Z latencyMs ++ lit "ms)"
             end in
           toResult status (Some latencyMs) message
   | inr err => toResult error (Some latencyMs) (getErrorMessage err)
   end, requests).

End Request.

End GeminiAction.

(* ===================================================================== *)
(** ** src/lib/poller.ts *)
(* ===================================================================== *)

Module Poller.

(** The fields the module keeps on [globalThis]; an [undefined] flag is
    [false], an [undefined] time stamp is [None]. *)
Record Globals := {
  __checkCxPollerRunning : bool;
  __checkCxLastPingStartedAt : option Z
}.

(** [HistorySnapshot]: provider id to its records. *)
Abbreviation HistorySnapshot := (gmap jstr (list CheckResult.t)).

(** The lines written to the console, by what they report. *)
Inductive LogLine :=
| LogSkip (duration : option Z)
| LogStart (startedAt interval : Z)
| LogNoConfig
| LogDetails (results : list CheckResult.t)
| LogWriting (count : nat)
| LogHistoryUpdated (providerCount recordCount : nat)
| LogDone (elapsed : Z) (operational_ degraded_ failed_ : nat) (nextSchedule : Z)
| LogTickFailed (err : thrown).

(** What a step of the poller does to the outside. *)
Inductive Effect :=
| Console (line : LogLine)
| CallRunProviderChecks
| CallAppendHistory (results : list CheckResult.t).

(** A call of [tick] suspended at one of its two [await]s. *)
Inductive Suspended :=
| AwaitingChecks (startedAt : Z)
| AwaitingAppend (startedAt : Z) (results : list CheckResult.t).

Record State := {
  globals : Globals;
  inflight : list Suspended
}.

Definition initial : State :=
  {| globals := {| __checkCxPollerRunning := false;
                   __checkCxLastPingStartedAt := None |};
     inflight := [] |}.

(** What happens to the poller: the timer (or the start-up call) invokes
    [tick] when the clock reads [now]; the [await] of the [i]-th suspended
    call settles, with a value or a thrown one. *)
Inductive Event :=
| Fire (now : Z)
| ChecksSettled (i : nat) (outcome : list CheckResult.t + thrown)
| AppendSettled (i : nat) (outcome : HistorySnapshot + thrown) (now : Z).

Definition count_status (s : Status) (results : list CheckResult.t) : nat :=
  length (List.filter (fun r => bool_decide (CheckResult.status r = s)) results).

(** The [finally] block. *)
Definition release (g : Globals) : Globals :=
  {| __checkCxPollerRunning := false;
     __checkCxLastPingStartedAt := __checkCxLastPingStartedAt g |}.

Section Tick.

(** [getPollingIntervalMs()] of [@/lib/polling-config]. *)
Variable POLL_INTERVAL_MS : Z.

(** [tick()] from its entry to its first [await], or to its return. *)
Definition tick (st : State) (now : Z) : State * list Effect :=
  if __checkCxPollerRunning (globals st) then
    let duration :=
      match __checkCxLastPingStartedAt (globals st) with
      | Some lastStartedAt =>
          if (lastStartedAt =? 0)%Z then None else Some (now - lastStartedAt)%Z
      | None => None
      end in
    (st, [Console (LogSkip duration)])
  else
    let startedAt := now in
    ({| globals := {| __checkCxPollerRunning := true;
                      __checkCxLastPingStartedAt := Some startedAt |};
        inflight := inflight st ++ [AwaitingChecks startedAt] |},
     [Console (LogStart startedAt POLL_INTERVAL_MS); CallRunProviderChecks]).

(** The suspended call [i] leaves the list: [tick] has returned. *)
Definition finish (st : State) (i : nat) : State :=
  {| globals := release (globals st); inflight := delete i (inflight st) |}.

(** [tick()] resumed after [await runProviderChecks()]. *)
Definition afterChecks (st : State) (i : nat) (startedAt : Z)
    (outcome : list CheckResult.t + thrown) : State * list Effect :=
  match outcome with
  | inl [] => (finish st i, [Console LogNoConfig])
  | inl results =>
      ({| globals := globals st;
          inflight := <[i := AwaitingAppend startedAt results]> (inflight st) |},
       [Console (LogDetails results); Console (LogWriting (length results));
        CallAppendHistory results])
  | inr err => (finish st i, [Console (LogTickFailed err)])
  end.

(** [tick()] resumed after [await appendHistory(results)]. *)
Definition afterAppend (st : State) (i : nat) (startedAt : Z)
    (results : list CheckResult.t) (outcome : HistorySnapshot + thrown) (now : Z)
  : State * list Effect :=
  match outcome with
  | inl historySnapshot =>
      let providerCount := size historySnapshot in
      let recordCount :=
        map_fold (fun _ items total => (total + length items)%nat) 0%nat
          historySnapshot in
      (finish st i,
       [Console (LogHistoryUpdated providerCount recordCount);
        Console (LogDone (now - startedAt)%Z
                   (count_status operational results)
                   (count_status degraded results)
                   (count_status failed results)
                   (startedAt + POLL_INTERVAL_MS)%Z)])
  | inr err => (finish st i, [Console (LogTickFailed err)])
  end.

Definition step (st : State) (ev : Event) : State * list Effect :=
  match ev with
  | Fire now => tick st now
  | ChecksSettled i outcome =>
      match inflight st !! i with
      | Some (AwaitingChecks startedAt) => afterChecks st i startedAt outcome
      | _ => (st, [])
      end
  | AppendSettled i outcome now =>
      match inflight st !! i with
      | Some (AwaitingAppend startedAt results) =>
          afterAppend st i startedAt results outcome now
      | _ => (st, [])
      end
  end.

(** The poller after a sequence of events, with everything it did. *)
Definition run (evs : list Event) : State * list Effect :=
  fold_left
    (fun acc ev => let '(st', out) := step (fst acc) ev in (st', snd acc ++ out))
    evs (initial, []).

End Tick.

(** When a suspended call of [tick] started. *)
Definition started (p : Suspended) : Z :=
  match p with
  | AwaitingChecks startedAt => startedAt
  | AwaitingAppend startedAt _ => startedAt
  end.

(** Single flight: the flag is set exactly while one call of [tick] is
    suspended, and the time stamp on [globalThis] is the start of that
    call. *)
Definition single_flight (st : State) : Prop :=
  (__checkCxPollerRunning (globals st) = false /\ inflight st = [])
  \/ (__checkCxPollerRunning (globals st) = true
      /\ exists p, inflight st = [p]
                   /\ __checkCxLastPingStartedAt (globals st) = Some (started p)
                   /\ (0 < started p)%Z).

(** A clock that reads a time after the epoch at every invocation. *)
Definition clock_after_epoch (ev : Event) : Prop :=
  match ev with
  | Fire now => (0 < now)%Z
  | _ => True
  end.

Definition is_call (e : Effect) : bool :=
  match e with
  | CallRunProviderChecks | CallAppendHistory _ => true
  | Console _ => false
  end.

End Poller.

(* ===================================================================== *)
(** ** Sample inputs *)
(* ===================================================================== *)

Module Samples.

(** The reply [{"candidates":[{"content":{"parts":[{"text":t}]}}]}]. *)
Definition reply (t : jstr) : json :=
  JObj [ (lit "candidates",
          JArr [ JObj [ (lit "content",
                         JObj [ (lit "parts",
                                 JArr [ JObj [ (lit "text", JStr t) ] ]) ]) ] ]) ].

Definition quoted (s : jstr) : jstr := [34] ++ s ++ [34].

Definition reply_open : jstr :=
  lit "{" ++ quoted (lit "candidates") ++ lit ":[{" ++ quoted (lit "content")
  ++ lit ":{" ++ quoted (lit "parts") ++ lit ":[{" ++ quoted (lit "text")
  ++ lit ":" ++ [34].

Definition reply_close : jstr := [34] ++ lit "}]}}]}".

(** The text of that reply. *)
Definition reply_json (t : jstr) : jstr := reply_open ++ t ++ reply_close.

(** [JSON.parse] on the replies above, for a text of plain characters;
    anything else is refused. *)
Definition parse (s : jstr) : option json :=
  if startsWith s reply_open && endsWith s reply_close
     && (length reply_open + length reply_close <=? length s)%nat
  then
    let t := take (length s - length reply_open - length reply_close)
                  (drop (length reply_open) s) in
    if forallb (fun c => negb (c =? 34) && negb (c =? 92) && (32 <=? c)) t
    then Some (reply t) else None
  else None.

(** A provider, a challenge and a grader that looks for the answer. *)
Definition provider (type : ProviderType) (headers : option (list (jstr * jstr)))
  : ProviderConfig.t :=
  {| ProviderConfig.id := lit "p1";
     ProviderConfig.name := lit "primary";
     ProviderConfig.groupName := None;
     ProviderConfig.type := type;
     ProviderConfig.apiKey := lit "sk-test";
     ProviderConfig.endpoint := Some (lit "https://h/v1beta/models");
     ProviderConfig.model := lit "m";
     ProviderConfig.requestHeaders := headers;
     ProviderConfig.metadata := None |}.

Definition challenge : Challenge.t :=
  {| Challenge.prompt := lit "3 + 5 = ?"; Challenge.expectedAnswer := lit "8" |}.

Definition validate (text expected : jstr) : Validation :=
  {| valid := includes text expected;
     extractedNumbers := if includes text expected then Some [expected] else Some [] |}.

Definition defaults (type : ProviderType) : jstr := lit "https://default".

(** The error of an aborted request. *)
Definition abortError : JsError :=
  {| err_name := Some (lit "AbortError");
     err_message := Some (lit "This operation was aborted");
     statusCode := None; responseBody := None |}.

Definition describe (err : thrown) : jstr :=
  match err with
  | Some e => default (lit "unknown") (err_message e)
  | None => lit "unknown"
  end.

(** The message of the [TypeError] for a refused header. *)
Definition refusal (key value : jstr) : jstr :=
  lit "Invalid header: " ++ key.

(** An execution of the SDK check that lasted [elapsed] ms. *)
Definition sdkRun (ping : option Z) (stream : list jstr + thrown) (elapsed : Z)
  : AiSdk.Run :=
  {| AiSdk.startedAt := 1000; AiSdk.ping := ping;
     AiSdk.challenge := challenge; AiSdk.stream := stream;
     AiSdk.finishedAt := 1000 + elapsed;
     AiSdk.checkedAt := lit "2026-01-01T00:00:00.000Z" |}.

(** A JSON response with the given body. *)
Definition jsonResponse (body : jstr) : GeminiCommon.Response :=
  {| GeminiCommon.ok := true; GeminiCommon.status := 200;
     GeminiCommon.contentType := Some (lit "application/json");
     GeminiCommon.stream :=
       Some {| GeminiCommon.chunks := [body]; GeminiCommon.failure := None |} |}.

(** An execution of the Gemini check that lasted [elapsed] ms against a
    transport that answers the [n]-th request with [answers n]. *)
Definition geminiRun (ping : option Z)
    (answers : nat -> GeminiCommon.Response + thrown) (elapsed : Z)
  : GeminiCommon.Run :=
  {| GeminiCommon.startedAt := 1000; GeminiCommon.ping := ping;
     GeminiCommon.challenge := challenge;
     GeminiCommon.fetch := fun n _ => answers n;
     GeminiCommon.finishedAt := 1000 + elapsed;
     GeminiCommon.checkedAt := lit "2026-01-01T00:00:00.000Z" |}.

(** A body of two events, the second extending the first, with CRLF line
    ends, cut into chunks in the middle of the line ends. *)
Definition event1 : jstr := reply_json (lit "4").
Definition event2 : jstr := reply_json (lit "42").
Definition twoEvents : list jstr :=
  [ lit "data: " ++ event1; [13; 10; 13]; 10 :: lit "data: " ++ event2 ++ [13];
    [10; 13; 10] ].

(** Executions of the SDK check: a right answer after 6001 ms, an abort,
    and one answer with and without a ping. *)
Definition slowAnswer : AiSdk.Run := sdkRun None (inl [lit "3 + 5 "; lit "= 8"]) 6001.
Definition aborted : AiSdk.Run := sdkRun (Some 30%Z) (inr (Some abortError)) 45002.
Definition pinged : AiSdk.Run := sdkRun (Some 25%Z) (inl [lit "8"]) 900.
Definition unpinged : AiSdk.Run := sdkRun None (inl [lit "8"]) 900.

(** Executions of the Gemini check: a right answer after 6000 ms, a
    transport that aborts, and one that answers [{}] to every request. *)
Definition fastAnswer : GeminiCommon.Run :=
  geminiRun (Some 12%Z) (fun _ => inl (jsonResponse (reply_json (lit "8")))) 6000.
Definition refused : GeminiCommon.Run :=
  geminiRun None (fun _ => inr (Some abortError)) 45002.
Definition blankReplies : GeminiCommon.Run :=
  geminiRun None (fun _ => inl (jsonResponse (lit "{}"))) 800.

(** Parameters of a request whose configuration tries to replace the
    credentials and sets a header twice, the second time with blanks
    around the value. *)
Definition intrusive : GeminiNative.Params :=
  {| GeminiNative.endpoint := lit "https://h/v1beta/models";
     GeminiNative.apiKey := lit "sk-test";
     GeminiNative.model := lit "m";
     GeminiNative.prompt := lit "3 + 5 = ?";
     GeminiNative.timeoutMs := None;
     GeminiNative.requestHeaders :=
       Some [ (lit "authorization", lit "Bearer stolen");
              (lit "X-Trace", lit "a"); (lit "x-trace", lit " b ") ] |}.

(** Parameters of a request without a key, and of one whose configuration
    names a header with a blank in it. *)
Definition keyless : GeminiNative.Params :=
  {| GeminiNative.endpoint := lit "https://h/v1beta/models";
     GeminiNative.apiKey := [];
     GeminiNative.model := lit "m";
     GeminiNative.prompt := lit "3 + 5 = ?";
     GeminiNative.timeoutMs := None;
     GeminiNative.requestHeaders := None |}.

Definition misnamed : GeminiNative.Params :=
  {| GeminiNative.endpoint := lit "https://h/v1beta/models";
     GeminiNative.apiKey := lit "sk-test";
     GeminiNative.model := lit "m";
     GeminiNative.prompt := lit "3 + 5 = ?";
     GeminiNative.timeoutMs := None;
     GeminiNative.requestHeaders := Some [ (lit "X Trace", lit "a") ] |}.

(** Parameters of a request whose configuration asks for plain text. *)
Definition plainTextWanted : GeminiAction.Params :=
  {| GeminiAction.endpoint := lit "https://h/v1beta/models";
     GeminiAction.apiKey := lit "sk-test";
     GeminiAction.model := lit "m";
     GeminiAction.prompt := lit "3 + 5 = ?";
     GeminiAction.timeoutMs := None;
     GeminiAction.action := None;
     GeminiAction.requestHeaders := Some [ (lit "Accept", lit "text/plain") ] |}.

(** A first tick that finds no provider, and a second one left running. *)
Definition secondTickRunning : list Poller.Event :=
  [ Poller.Fire 1000; Poller.ChecksSettled 0 (inl []); Poller.Fire 61000 ].

End Samples.

(* ===================================================================== *)
(** ** src/lib/providers/ai-sdk-check.ts: the model handed to the SDK *)
(* ===================================================================== *)

Module AiSdkSetup.

Definition EXCLUDED_KEYS : gset jstr :=
  {[ lit "model"; lit "prompt"; lit "messages"; lit "abortSignal" ]}.

(** [PATH_CLEANUP_REGEX] at a position: a slash, one of the three paths,
    an optional slash, the end of the text. *)
Definition path_cleanup_here (s : jstr) : bool :=
  existsb
    (fun path => eqb s (lit "/" ++ path) || eqb s (lit "/" ++ path ++ lit "/"))
    [lit "chat/completions"; lit "responses"; lit "messages"].

(** [s.replace(PATH_CLEANUP_REGEX, "")]: the leftmost match, which runs to
    the end of the text, is removed. *)
Fixpoint strip_api_path (s : jstr) : jstr :=
  if path_cleanup_here s then []
  else
    match s with
    | [] => []
    | c :: t => c :: strip_api_path t
    end.

(** [const [withoutQuery] = endpoint.split("?")] *)
Definition withoutQuery (endpoint : jstr) : jstr :=
  default [] (split_char 63 endpoint !! 0%nat).

Definition deriveBaseURL (endpoint : jstr) : jstr :=
  strip_api_path (withoutQuery endpoint).

(** [/\/responses\/?$/.test(s)]: a search over the positions of [s]. *)
Fixpoint responses_at_end (s : jstr) : bool :=
  eqb s (lit "/responses") || eqb s (lit "/responses/") ||
  match s with
  | [] => false
  | _ :: t => responses_at_end t
  end.

Definition isResponsesEndpoint (endpoint : option jstr) : bool :=
  match endpoint with
  | None => false
  | Some e => if negb (truthy e) then false else responses_at_end (withoutQuery e)
  end.

(** [for (const [key, value] of Object.entries(obj)) target[key] = value],
    also the meaning of [{...obj}] for an object given by its entries. *)
Definition assign_all {V} (entries : list (jstr * V)) (target : gmap jstr V)
  : gmap jstr V :=
  fold_left (fun acc kv => <[fst kv := snd kv]> acc) entries target.

(** The property [key] of the object written with [entries]: the value
    of the last entry with that key. *)
Definition entry {V} (key : jstr) (entries : list (jstr * V)) : option V :=
  snd <$> List.find (fun kv => eqb (fst kv) key) (rev entries).

(** The loop that fills [injectableParams].  The assignment
    [injectableParams[key] = value] with the key [__proto__] sets the
    prototype of the object and adds no property of its own. *)
Definition injectableParams (metadata : option (list (jstr * json)))
  : gmap jstr json :=
  fold_left
    (fun acc kv =>
       if bool_decide (fst kv ∈ EXCLUDED_KEYS) then acc
       else if eqb (fst kv) (lit "__proto__") then acc
       else <[fst kv := snd kv]> acc)
    (default [] metadata) ∅.

(** The own enumerable properties copied by [{...value}]: the fields of an
    object, the items of an array and the characters of a string under
    their indices, nothing for the other values. *)
Definition indexed {V} (items : list V) : list (jstr * V) :=
  imap (fun i item => (of_Z (Z.of_nat i), item)) items.

Definition spread (value : json) : gmap jstr json :=
  match value with
  | JObj fields => assign_all fields ∅
  | JArr items => assign_all (indexed items) ∅
  | JStr s => assign_all (indexed (List.map (fun c => JStr [c]) s)) ∅
  | _ => ∅
  end.

(** The second argument of [fetch]: [headers] is a plain object, [body] a
    string ([inl]) or another value ([inr]). *)
Record RequestInit := {
  method : option jstr;
  headers : option (gmap jstr jstr);
  body : option (jstr + json)
}.

(** The value handed to [JSON.stringify]: the merged object, or the body
    as it was parsed. *)
Inductive OutgoingBody :=
| Merged (fields : gmap jstr json)
| Reparsed (value : json).

(** What the custom fetch hands to the real [fetch]: the request
    rewritten, with the headers and the value to stringify, or the
    arguments as they came. *)
Inductive Forwarded :=
| Rewritten (headers : option (gmap jstr jstr)) (body : OutgoingBody)
| PassedThrough.

Section CustomFetch.

(** [JSON.parse], [None] when it throws, and
    [String.prototype.toUpperCase]. *)
Variable JSON_parse : jstr -> option json.
Variable toUpperCase : jstr -> jstr.

(** Truthiness of [init.body]: a body that is not a string is an object. *)
Definition body_truthy (b : option (jstr + json)) : bool :=
  match b with
  | None => false
  | Some (inl s) => truthy s
  | Some (inr _) => true
  end.

(** [init?.method?.toUpperCase() === "POST"] *)
Definition is_post (method : option jstr) : bool :=
  match method with
  | Some m => eqb (toUpperCase m) (lit "POST")
  | None => false
  end.

(** [typeof init.body === "string" ? JSON.parse(init.body) : init.body],
    [None] when the parse throws. *)
Definition originalBody (b : option (jstr + json)) : option json :=
  match b with
  | Some (inl s) => JSON_parse s
  | Some (inr v) => Some v
  | None => None
  end.

(** The function returned by [createCustomFetch]. *)
Definition customFetch (injectable : gmap jstr json)
    (overrideHeaders : option (gmap jstr jstr)) (init : option RequestInit)
  : Forwarded :=
  let hasInjectableParams := negb (bool_decide (injectable = ∅)) in
  let hasOverrideHeaders :=
    match overrideHeaders with
    | Some h => negb (bool_decide (h = ∅))
    | None => false
    end in
  match init with
  | None => PassedThrough
  | Some i =>
      if is_post (method i) && body_truthy (body i) then
        match originalBody (body i) with
        | None => PassedThrough
        | Some original =>
            Rewritten
              (if hasOverrideHeaders
               then Some (default ∅ overrideHeaders ∪ default ∅ (headers i))
               else headers i)
              (if hasInjectableParams
               then Merged (injectable ∪ spread original)
               else Reparsed original)
        end
      else PassedThrough
  end.

Definition createCustomFetch (metadata : option (list (jstr * json)))
    (overrideHeaders : option (gmap jstr jstr))
  : option (option RequestInit -> Forwarded) :=
  let injectable := injectableParams metadata in
  let hasInjectableParams := negb (bool_decide (injectable = ∅)) in
  let hasOverrideHeaders :=
    match overrideHeaders with
    | Some h => negb (bool_decide (h = ∅))
    | None => false
    end in
  if negb hasInjectableParams && negb hasOverrideHeaders then None
  else Some (customFetch injectable overrideHeaders).

(** What [createModel] hands to the SDK: the settings of the provider
    factory, the identifier of the model and the kind of call. *)
Record SdkModel := {
  provider : ProviderType;
  apiKey : jstr;
  baseURL : jstr;
  providerHeaders : gmap jstr jstr;
  fetch : option (option RequestInit -> Forwarded);
  modelId : jstr;
  reasoningEffort : option AiSdk.ReasoningEffort;
  isResponses : bool
}.

Variable DEFAULT_ENDPOINTS : ProviderType -> jstr.

Definition createModel (config : ProviderConfig.t) : SdkModel :=
  let endpoint := AiSdk.displayEndpoint DEFAULT_ENDPOINTS config in
  let baseURL := deriveBaseURL endpoint in
  let directive := AiSdk.parseModelDirective (ProviderConfig.model config) in
  let headers :=
    assign_all (default [] (ProviderConfig.requestHeaders config))
      {[ lit "User-Agent" := lit "check-cx/0.1.0" ]} in
  let customFetch :=
    createCustomFetch (ProviderConfig.metadata config) (Some headers) in
  match ProviderConfig.type config with
  | openai =>
      {| provider := openai; apiKey := ProviderConfig.apiKey config;
         baseURL := baseURL; providerHeaders := headers; fetch := customFetch;
         modelId := AiSdk.modelId directive;
         reasoningEffort := AiSdk.reasoningEffort directive;
         isResponses := isResponsesEndpoint (ProviderConfig.endpoint config) |}
  | anthropic =>
      {| provider := anthropic; apiKey := ProviderConfig.apiKey config;
         baseURL := baseURL; providerHeaders := headers; fetch := customFetch;
         modelId := AiSdk.modelId directive;
         reasoningEffort := None; isResponses := false |}
  | gemini =>
      {| provider := gemini; apiKey := ProviderConfig.apiKey config;
         baseURL := baseURL; providerHeaders := headers; fetch := customFetch;
         modelId := AiSdk.modelId directive;
         reasoningEffort := None; isResponses := false |}
  end.

End CustomFetch.

(** [buildReasoningOptions(providerType, reasoningEffort)]: [Some e]
    stands for [{ openai: { reasoningEffort: e } }]. *)
Definition buildReasoningOptions (providerType : ProviderType)
    (reasoningEffort : option AiSdk.ReasoningEffort)
  : option AiSdk.ReasoningEffort :=
  match reasoningEffort, providerType with
  | Some e, openai => Some e
  | _, _ => None
  end.

End AiSdkSetup.

(* ===================================================================== *)
(** ** src/lib/providers/ai-sdk-check.ts, second part: the first revision
       of the Gemini adapter *)
(* ===================================================================== *)

Module GeminiFirst.

Definition DEGRADED_THRESHOLD_MS : Z := 6000.

(** [v?.[0]]: the first item of an array, the property [0] of an object,
    the first character of a string. *)
Definition item0 (v : option json) : option json :=
  match v with
  | Some (JArr (first :: _)) => Some first
  | Some (JObj _) => GeminiCommon.prop (lit "0") v
  | Some (JStr (c :: _)) => Some (JStr [c])
  | _ => None
  end.

(** The callback of [parts.map(...)]. *)
Definition partText (part : json) : jstr :=
  match GeminiCommon.prop (lit "text") (Some part) with
  | Some (JStr s) => s
  | _ => []
  end.

Definition extractGeminiText (payload : json) : option jstr :=
  let candidate := item0 (GeminiCommon.prop (lit "candidates") (Some payload)) in
  match GeminiCommon.prop (lit "parts")
          (GeminiCommon.prop (lit "content") candidate) with
  | Some (JArr parts) =>
      let texts := List.filter truthy (List.map partText parts) in
      if (0 <? length texts)%nat then Some (concat texts) else None
  | _ => None
  end.

Section Request.

(** [JSON.parse], [None] when it throws; [JSON.stringify]; the error
    [response.json()] rejects with on a body that does not parse; the
    message of the [TypeError] with which the [Headers] class refuses a
    pair. *)
Variable JSON_parse : jstr -> option json.
Variable JSON_stringify : json -> jstr.
Variable syntaxError : jstr -> thrown.
Variable refusalMessage : jstr -> jstr -> jstr.

(** The body of the two [for (const line of ...)] loops of
    [readEventStreamJson]: the value of [lastJson] after the line. *)
Definition dataLine (lastJson : json) (line : jstr) : json :=
  let trimmed := trim line in
  if negb (startsWith trimmed (lit "data:")) then lastJson
  else
    let payload := trim (slice_from 5 trimmed) in
    if negb (truthy payload) || eqb payload (lit "[DONE]") then lastJson
    else
      match JSON_parse payload with
      | Some parsed => parsed
      | None => lastJson
      end.

(** One turn of the [while (true)] loop on a decoded chunk: the state is
    [(buffer, lastJson)]. *)
Definition readChunk (acc : jstr * json) (chunk : jstr) : jstr * json :=
  let lines := GeminiCommon.split_lines (fst acc ++ chunk) in
  (List.last lines [], fold_left dataLine (removelast lines) (snd acc)).

(** [response.status || 500] *)
Definition statusOr500 (response : GeminiCommon.Response) : Z :=
  if (GeminiCommon.status response =? 0)%Z then 500%Z
  else GeminiCommon.status response.

(** [readEventStreamJson(response)].  When no line gave a value the body
    has been read through its reader, so [response.text()] rejects and
    the error carries the empty text. *)
Definition readEventStreamJson (response : GeminiCommon.Response)
  : json + thrown :=
  match GeminiCommon.stream response with
  | None => inr (Some (plainError (lit "Gemini 返回为空（无响应体）")))
  | Some b =>
      match GeminiCommon.failure b with
      | Some e => inr e
      | None =>
          let '(buffer, lastJson) :=
            fold_left readChunk (GeminiCommon.chunks b) ([], JNull) in
          match fold_left dataLine (GeminiCommon.split_lines buffer) lastJson with
          | JNull =>
              inr (Some (GeminiCommon.createGeminiApiError (statusOr500 response) []
                           (Some (lit "Gemini 流式响应未包含可解析的 data: JSON"))))
          | parsed => inl parsed
          end
      end
  end.

(** [response.json()] *)
Definition responseJson (response : GeminiCommon.Response) : json + thrown :=
  match GeminiCommon.stream response with
  | Some b =>
      match GeminiCommon.failure b with
      | Some e => inr e
      | None =>
          match JSON_parse (concat (GeminiCommon.chunks b)) with
          | Some parsed => inl parsed
          | None => inr (syntaxError (concat (GeminiCommon.chunks b)))
          end
      end
  | None =>
      match JSON_parse [] with
      | Some parsed => inl parsed
      | None => inr (syntaxError [])
      end
  end.

(** What [requestGeminiNative] does with the response of [fetch]. *)
Definition readResponse (response : GeminiCommon.Response) : jstr + thrown :=
  if negb (GeminiCommon.ok response) then
    inr (Some (GeminiCommon.createGeminiApiError (GeminiCommon.status response)
                 (GeminiCommon.responseText response) None))
  else
    let contentType := default [] (GeminiCommon.contentType response) in
    let payload :=
      if includes contentType (lit "text/event-stream")
      then readEventStreamJson response
      else responseJson response in
    match payload with
    | inr e => inr e
    | inl payload =>
        let notFound :=
          inr (Some (GeminiCommon.createGeminiApiError (statusOr500 response)
                       (take 1000 (JSON_stringify payload))
                       (Some (lit "Gemini 响应中未找到 candidates 文本")))) in
        match extractGeminiText payload with
        | Some text =>
            if negb (truthy text) || negb (truthy (trim text)) then notFound
            else inl text
        | None => notFound
        end
    end.

(** [requestGeminiNative(params)] against a transport; the request is
    built as in the later revision of [gemini-native.ts], and none goes
    out when the [Headers] class throws. *)
Definition requestGeminiNative
    (transport : GeminiCommon.Request -> GeminiCommon.Response + thrown)
    (params : GeminiNative.Params)
  : (jstr + thrown) * list GeminiCommon.Request :=
  match GeminiNative.requestOf params with
  | inl request =>
      (match transport request with
       | inl response => readResponse response
       | inr e => inr e
       end, [request])
  | inr (key, value) =>
      (inr (Some (GeminiCommon.typeError (refusalMessage key value))), [])
  end.

(** [DEFAULT_ENDPOINTS.gemini] of [../types], [validateResponse] of
    [./challenge] and [getErrorMessage] of [../utils/error-handler] are
    not part of the module. *)
Variable DEFAULT_ENDPOINTS_gemini : jstr.
Variable validateResponse : jstr -> jstr -> Validation.
Variable getErrorMessage : thrown -> jstr.

Definition requestPhase (config : ProviderConfig.t) (run : GeminiCommon.Run)
  : (jstr + thrown) * list GeminiCommon.Request :=
  requestGeminiNative (GeminiCommon.fetch run 0%nat)
    {| GeminiNative.endpoint :=
         GeminiCommon.displayEndpoint DEFAULT_ENDPOINTS_gemini config;
       GeminiNative.apiKey := ProviderConfig.apiKey config;
       GeminiNative.model := ProviderConfig.model config;
       GeminiNative.prompt := Challenge.prompt (GeminiCommon.challenge run);
       GeminiNative.timeoutMs := Some GeminiCommon.DEFAULT_TIMEOUT_MS;
       GeminiNative.requestHeaders := ProviderConfig.requestHeaders config |}.

(** The result, and the requests that went out.  [finishedAt] is read in
    the [try] block only. *)
Definition checkWithGeminiNative (config : ProviderConfig.t)
    (run : GeminiCommon.Run) : CheckResult.t * list GeminiCommon.Request :=
  let displayEndpoint :=
    GeminiCommon.displayEndpoint DEFAULT_ENDPOINTS_gemini config in
  let '(outcome, requests) := requestPhase config run in
  let toResult :=
    GeminiCommon.buildCheckResult (GeminiCommon.checkedAt run) config
      displayEndpoint (GeminiCommon.ping run) in
  (match outcome with
   | inl responseText =>
       let latencyMs :=
         (GeminiCommon.finishedAt run - GeminiCommon.startedAt run)%Z in
       if negb (truthy (trim responseText)) then
         toResult failed (Some latencyMs) (lit "回复为空")
       else
         let v :=
           validateResponse responseText
             (Challenge.expectedAnswer (GeminiCommon.challenge run)) in
         if negb (valid v) then
           toResult validation_failed (Some latencyMs)
             (lit "回复验证失败: 期望 "
              ++ Challenge.expectedAnswer (GeminiCommon.challenge run)
              ++ lit ", 实际: " ++ showExtracted (extractedNumbers v))
         else
           let status :=
             if (latencyMs <=? DEGRADED_THRESHOLD_MS)%Z
             then operational else degraded in
           let message :=
             match status with
             | degraded => lit "响应成功但耗时 " ++ of_Z latencyMs ++ lit "ms"
             | _ => lit "验证通过 (" ++ of_Z latencyMs ++ lit "ms)"
             end in
           toResult status (Some latencyMs) message
   | inr err => toResult error None (getErrorMessage err)
   end, requests).

End Request.

End GeminiFirst.

(* ===================================================================== *)
(** ** src/lib/providers/gemini-native.ts, second part: the check through
       the OpenAI-compatible interface *)
(* ===================================================================== *)

Module GeminiCompat.

Definition DEFAULT_TIMEOUT_MS : Z := 15000.
Definition DEGRADED_THRESHOLD_MS : Z := 6000.

(** [s.indexOf(pat)]; [None] is [-1]. *)
Fixpoint indexOf (s pat : jstr) : option nat :=
  if startsWith s pat then Some 0%nat
  else
    match s with
    | [] => None
    | _ :: t => S <$> indexOf t pat
    end.

Definition deriveGeminiBaseURL (default_gemini : jstr) (endpoint : option jstr)
  : jstr :=
  let raw :=
    match endpoint with
    | Some e => if truthy e then e else default_gemini
    | None => default_gemini
    end in
  let withoutQuery := default [] (split_char 63 raw !! 0%nat) in
  let base :=
    match indexOf withoutQuery (lit "/chat/completions") with
    | Some chatIndex => take chatIndex withoutQuery
    | None => withoutQuery
    end in
  match indexOf base (lit "/v1") with
  | Some v1Index => take (v1Index + 3) base
  | None => base
  end.

(** The options an [OpenAI] client is constructed with. *)
Record Client := {
  clientApiKey : jstr;
  clientBaseURL : jstr;
  defaultHeaders : list (jstr * jstr)
}.

(** [getGeminiClient(config)] on the cache [geminiClientCache]: the
    client returned and the cache afterwards. *)
Definition getGeminiClient (default_gemini : jstr) (cache : gmap jstr Client)
    (config : ProviderConfig.t) : Client * gmap jstr Client :=
  let baseURL := deriveGeminiBaseURL default_gemini (ProviderConfig.endpoint config) in
  let cacheKey := baseURL ++ lit "::" ++ ProviderConfig.apiKey config in
  match cache !! cacheKey with
  | Some cached => (cached, cache)
  | None =>
      let client :=
        {| clientApiKey := ProviderConfig.apiKey config;
           clientBaseURL := baseURL;
           defaultHeaders := [ (lit "User-Agent", lit "check-cx/0.1.0") ] |} in
      (client, <[cacheKey := client]> cache)
  end.

(** One call of [getGeminiClient] after the other, on one cache. *)
Fixpoint getGeminiClients (default_gemini : jstr) (cache : gmap jstr Client)
    (configs : list ProviderConfig.t) : list Client * gmap jstr Client :=
  match configs with
  | [] => ([], cache)
  | config :: rest =>
      let '(client, cache') := getGeminiClient default_gemini cache config in
      let '(clients, final) := getGeminiClients default_gemini cache' rest in
      (client :: clients, final)
  end.

(** What one execution of [checkGemini] observes from outside:
    [stream] is the try block up to the end of the [for await] loop,
    [None] when it completes and the value thrown otherwise. *)
Record Run := {
  startedAt : Z;
  ping : option Z;
  stream : option thrown;
  finishedAt : Z;
  checkedAt : jstr
}.

Definition checkGemini (default_gemini : jstr) (config : ProviderConfig.t)
    (run : Run) : CheckResult.t :=
  let displayEndpoint :=
    match ProviderConfig.endpoint config with
    | Some e => if truthy e then e else default_gemini
    | None => default_gemini
    end in
  let result status latencyMs message :=
    {| CheckResult.id := ProviderConfig.id config;
       CheckResult.name := ProviderConfig.name config;
       CheckResult.type := ProviderConfig.type config;
       CheckResult.endpoint := displayEndpoint;
       CheckResult.model := ProviderConfig.model config;
       CheckResult.status := status;
       CheckResult.latencyMs := latencyMs;
       CheckResult.pingLatencyMs := ping run;
       CheckResult.checkedAt := checkedAt run;
       CheckResult.message := message |} in
  match stream run with
  | None =>
      let latencyMs := (finishedAt run - startedAt run)%Z in
      let status :=
        if (latencyMs <=? DEGRADED_THRESHOLD_MS)%Z then operational else degraded in
      let message :=
        match status with
        | degraded => lit "响应成功但耗时 " ++ of_Z latencyMs ++ lit "ms"
        | _ => lit "流式响应正常 (" ++ of_Z latencyMs ++ lit "ms)"
        end in
      result status (Some latencyMs) message
  | Some err =>
      let message :=
        match err with
        | Some e =>
            if bool_decide (err_name e = Some (lit "AbortError")) then lit "请求超时"
            else
              let m := default [] (err_message e) in
              if truthy m then m else lit "未知错误"
        | None => lit "未知错误"
        end in
      result failed None message
  end.

End GeminiCompat.

(* ===================================================================== *)
(** ** src/lib/official-status/gemini.ts *)
(* ===================================================================== *)

Module OfficialStatus.

Definition GEMINI_PRODUCT_TITLE : jstr := lit "Vertex Gemini API".

Inductive OfficialHealthStatus := operational | degraded | down | unknown.

(** [GoogleCloudIncident]: a field is [None] when it is [null] or absent;
    [number] is given by its [String(...)] rendering; a product is given
    by its title, [None] when the product or its title is missing. *)
Record GoogleCloudIncident := {
  number : option jstr;
  begin_ : option jstr;
  end_ : option jstr;
  severity : option jstr;
  status_impact : option jstr;
  affected_products : option (list (option jstr))
}.

Record OfficialStatusResult := {
  status : OfficialHealthStatus;
  message : jstr;
  checkedAt : jstr;
  affectedComponents : option (list jstr)
}.

Definition isGeminiRelatedIncident (incident : GoogleCloudIncident) : bool :=
  existsb (fun title => eqb (default [] title) GEMINI_PRODUCT_TITLE)
    (default [] (affected_products incident)).

Section Status.

(** [Date.parse], [None] when it gives [NaN];
    [String.prototype.toUpperCase] and [toLowerCase]. *)
Variable Date_parse : jstr -> option Z.
Variable toUpperCase : jstr -> jstr.
Variable toLowerCase : jstr -> jstr.

(** [now] is the reading of [Date.now()]. *)
Definition isActiveIncident (now : Z) (incident : GoogleCloudIncident) : bool :=
  match end_ incident with
  | None => true
  | Some e =>
      match Date_parse e with
      | Some endMs => (now <? endMs)%Z
      | None => false
      end
  end.

(** The loop of [toStatus], from the value [status] has so far. *)
Fixpoint toStatus_from (status : OfficialHealthStatus)
    (incidents : list GoogleCloudIncident) : OfficialHealthStatus :=
  match incidents with
  | [] => status
  | incident :: rest =>
      let impact := toUpperCase (default [] (status_impact incident)) in
      if includes impact (lit "OUTAGE") then down
      else if includes impact (lit "DISRUPTION") then toStatus_from degraded rest
      else
        let severity := toLowerCase (default [] (severity incident)) in
        if eqb severity (lit "high") then down
        else if eqb severity (lit "medium") || eqb severity (lit "low")
        then toStatus_from degraded rest
        else toStatus_from status rest
  end.

Definition toStatus (incidents : list GoogleCloudIncident) : OfficialHealthStatus :=
  toStatus_from degraded incidents.

Definition formatMessage (incidents : list GoogleCloudIncident) : jstr :=
  match incidents with
  | [] => lit "所有系统正常运行"
  | _ =>
      let numbers := take 3 (omap number incidents) in
      let suffix := if (3 <? length incidents)%nat then lit "..." else [] in
      if (0 <? length numbers)%nat then
        lit "Google Cloud 报告 " ++ GEMINI_PRODUCT_TITLE ++ lit " 事件: "
        ++ join (lit ", ") numbers ++ suffix
      else
        lit "Google Cloud 报告 " ++ GEMINI_PRODUCT_TITLE ++ lit " 存在进行中的事件"
  end.

(** [incidents.filter(isActiveIncident)]: the clock is read anew for
    every item, [clock n] is its reading while the item number [n] is
    examined. *)
Fixpoint filterActive (clock : nat -> Z) (n : nat)
    (incidents : list GoogleCloudIncident) : list GoogleCloudIncident :=
  match incidents with
  | [] => []
  | incident :: rest =>
      if isActiveIncident (clock n) incident
      then incident :: filterActive clock (S n) rest
      else filterActive clock (S n) rest
  end.

(** What [fetch] and [response.json()] give: an exception of [fetch], a
    response that is not ok, or an ok response whose body parses to an
    array of incidents ([Some]), to another value ([None]), or fails to
    parse ([inr]).  The items of an array are taken to have the shape
    the interface [GoogleCloudIncident] declares. *)
Inductive Fetched :=
| FetchThrew (err : thrown)
| NotOk (httpStatus : Z)
| Ok (data : option (list GoogleCloudIncident) + thrown).

Record Run := {
  now : jstr;
  fetched : Fetched;
  clock : nat -> Z
}.

(** The catch block; it reads [error.name] and so throws in turn, [None],
    when the value caught is [null] or [undefined]. *)
Definition onError (checkedAt : jstr) (err : thrown) : option OfficialStatusResult :=
  match err with
  | None => None
  | Some e =>
      Some {| status := unknown;
              message := if bool_decide (err_name e = Some (lit "AbortError"))
                         then lit "检查超时" else lit "检查失败";
              checkedAt := checkedAt; affectedComponents := None |}
  end.

Definition checkGeminiStatus (run : Run) : option OfficialStatusResult :=
  let checkedAt := now run in
  match fetched run with
  | FetchThrew err => onError checkedAt err
  | NotOk httpStatus =>
      Some {| status := unknown; message := lit "HTTP " ++ of_Z httpStatus;
              checkedAt := checkedAt; affectedComponents := None |}
  | Ok (inr err) => onError checkedAt err
  | Ok (inl data) =>
      let incidents := default [] data in
      let activeGeminiIncidents :=
        filterActive (clock run) 0 (List.filter isGeminiRelatedIncident incidents) in
      match activeGeminiIncidents with
      | [] =>
          Some {| status := operational; message := lit "所有系统正常运行";
                  checkedAt := checkedAt; affectedComponents := None |}
      | _ =>
          Some {| status := toStatus activeGeminiIncidents;
                  message := formatMessage activeGeminiIncidents;
                  checkedAt := checkedAt;
                  affectedComponents := Some [GEMINI_PRODUCT_TITLE] |}
      end
  end.

End Status.

End OfficialStatus.

(* ===================================================================== *)
(** ** What a run of the poller did *)
(* ===================================================================== *)

Module PollerTrace.

Definition is_fire (ev : Poller.Event) : bool :=
  match ev with Poller.Fire _ => true | _ => false end.

Definition is_start (e : Poller.Effect) : bool :=
  match e with Poller.CallRunProviderChecks => true | _ => false end.

Definition is_append (e : Poller.Effect) : bool :=
  match e with Poller.CallAppendHistory _ => true | _ => false end.

Definition is_skip (e : Poller.Effect) : bool :=
  match e with Poller.Console (Poller.LogSkip _) => true | _ => false end.

Definition awaits_checks (p : Poller.Suspended) : bool :=
  match p with Poller.AwaitingChecks _ => true | _ => false end.

(** An effect that hands no empty batch to [appendHistory]. *)
Definition writes_results (e : Poller.Effect) : Prop :=
  match e with
  | Poller.CallAppendHistory results => results <> []
  | _ => True
  end.

(** How many items of [l] satisfy [p]. *)
Definition count {A} (p : A -> bool) (l : list A) : nat :=
  length (List.filter p l).

End PollerTrace.

(* ===================================================================== *)
(** ** Further sample inputs *)
(* ===================================================================== *)

Module Cases.

(** The body [{"model":"gpt-4o","stream":true}] of a request of the SDK,
    and a [JSON.parse] that knows this text only. *)
Definition sdkBodyText : jstr :=
  lit "{" ++ Samples.quoted (lit "model") ++ lit ":"
  ++ Samples.quoted (lit "gpt-4o") ++ lit ","
  ++ Samples.quoted (lit "stream") ++ lit ":true}".

Definition sdkBody : json :=
  JObj [ (lit "model", JStr (lit "gpt-4o")); (lit "stream", JBool true) ].

Definition parseSdkBody (s : jstr) : option json :=
  if eqb s sdkBodyText then Some sdkBody else None.

(** ASCII upper case, which is what [toUpperCase] gives on ASCII text. *)
Definition asciiUpper (s : jstr) : jstr :=
  List.map (fun c => if (97 <=? c) && (c <=? 122) then c - 32 else c) s.

(** A metadata object that names a reserved key and two others. *)
Definition metadata : list (jstr * json) :=
  [ (lit "model", JStr (lit "other-model"));
    (lit "temperature", JNum (lit "0"));
    (lit "stream", JBool false) ].

(** The POST request the SDK hands to [fetch]. *)
Definition sdkPost : AiSdkSetup.RequestInit :=
  {| AiSdkSetup.method := Some (lit "post");
     AiSdkSetup.headers :=
       Some {[ lit "User-Agent" := lit "ai-sdk/openai/2.0 check-cx/0.1.0";
               lit "Content-Type" := lit "application/json" ]};
     AiSdkSetup.body := Some (inl sdkBodyText) |}.

(** A provider whose model is a directive and nothing else. *)
Definition directiveOnly : ProviderConfig.t :=
  {| ProviderConfig.id := lit "p3";
     ProviderConfig.name := lit "tertiary";
     ProviderConfig.groupName := None;
     ProviderConfig.type := openai;
     ProviderConfig.apiKey := lit "sk-test";
     ProviderConfig.endpoint := None;
     ProviderConfig.model := 64 :: lit "high";
     ProviderConfig.requestHeaders := None;
     ProviderConfig.metadata := None |}.

(** A provider of the given type whose model carries a directive. *)
Definition directed (type : ProviderType) : ProviderConfig.t :=
  {| ProviderConfig.id := lit "p2";
     ProviderConfig.name := lit "secondary";
     ProviderConfig.groupName := None;
     ProviderConfig.type := type;
     ProviderConfig.apiKey := lit "sk-test";
     ProviderConfig.endpoint := Some (lit "https://h/v1/responses?x=1");
     ProviderConfig.model := lit " claude-3 @High ";
     ProviderConfig.requestHeaders := Some [ (lit "X-Trace", lit "a") ];
     ProviderConfig.metadata := Some metadata |}.

(** A response with the status 429 and a body, and an execution of the
    Gemini check that is answered with it. *)
Definition tooMany : GeminiCommon.Response :=
  {| GeminiCommon.ok := false; GeminiCommon.status := 429;
     GeminiCommon.contentType := Some (lit "application/json");
     GeminiCommon.stream :=
       Some {| GeminiCommon.chunks := [lit "quota "; lit "exceeded"];
               GeminiCommon.failure := None |} |}.

Definition throttled : GeminiCommon.Run :=
  Samples.geminiRun None (fun _ => inl tooMany) 120.

(** A reply of blanks only. *)
Definition blankText : GeminiCommon.Run :=
  Samples.geminiRun None
    (fun _ => inl (Samples.jsonResponse (Samples.reply_json (lit "  ")))) 120.

(** Executions of the check through the compatible interface: one that
    completes after 6001 ms and one that is aborted. *)
Definition compatSlow : GeminiCompat.Run :=
  {| GeminiCompat.startedAt := 1000; GeminiCompat.ping := Some 20%Z;
     GeminiCompat.stream := None; GeminiCompat.finishedAt := 7001;
     GeminiCompat.checkedAt := lit "2026-01-01T00:00:00.000Z" |}.

Definition compatAborted : GeminiCompat.Run :=
  {| GeminiCompat.startedAt := 1000; GeminiCompat.ping := None;
     GeminiCompat.stream := Some (Some Samples.abortError);
     GeminiCompat.finishedAt := 16001;
     GeminiCompat.checkedAt := lit "2026-01-01T00:00:00.000Z" |}.

(** A [Date.parse] that knows one instant, two incidents of the feed of
    Google Cloud, and an execution of the status check that receives
    them at a time before that instant. *)
Definition parseDate (s : jstr) : option Z :=
  if eqb s (lit "2026-01-01T00:00:00Z") then Some 1767225600000%Z else None.

Definition geminiDisruption : OfficialStatus.GoogleCloudIncident :=
  {| OfficialStatus.number := Some (lit "1234");
     OfficialStatus.begin_ := Some (lit "2025-12-31T00:00:00Z");
     OfficialStatus.end_ := Some (lit "2026-01-01T00:00:00Z");
     OfficialStatus.severity := Some (lit "high");
     OfficialStatus.status_impact := Some (lit "SERVICE_DISRUPTION");
     OfficialStatus.affected_products :=
       Some [Some (lit "Cloud Run"); Some (lit "Vertex Gemini API")] |}.

Definition storageOutage : OfficialStatus.GoogleCloudIncident :=
  {| OfficialStatus.number := Some (lit "1235");
     OfficialStatus.begin_ := Some (lit "2025-12-31T00:00:00Z");
     OfficialStatus.end_ := None;
     OfficialStatus.severity := Some (lit "high");
     OfficialStatus.status_impact := Some (lit "SERVICE_OUTAGE");
     OfficialStatus.affected_products := Some [Some (lit "Cloud Storage")] |}.

Definition asciiLower (s : jstr) : jstr := toLower s.

Definition statusRun (fetched : OfficialStatus.Fetched) : OfficialStatus.Run :=
  {| OfficialStatus.now := lit "2025-12-31T12:00:00.000Z";
     OfficialStatus.fetched := fetched;
     OfficialStatus.clock := fun _ => 1767182400000%Z |}.



(** Stand-ins for [JSON.stringify] and for the error of [response.json()],
    and a streamed reply of two events in three chunks. *)
Definition stringify (payload : json) : jstr := lit "[payload]".

Definition syntaxError (text : jstr) : thrown :=
  Some (plainError (lit "Unexpected token")).

Definition streamed : GeminiCommon.Response :=
  {| GeminiCommon.ok := true; GeminiCommon.status := 200;
     GeminiCommon.contentType := Some (lit "text/event-stream; charset=utf-8");
     GeminiCommon.stream :=
       Some {| GeminiCommon.chunks :=
                 [ lit "data: " ++ Samples.event2 ++ [13];
                   [10; 13; 10] ++ lit "da";
                   lit "ta: " ++ Samples.event1 ++ [10; 10] ];
               GeminiCommon.failure := None |} |}.

(** The two events of [Samples.twoEvents] under a content type. *)
Definition twoEventsAs (contentType : option jstr) : GeminiCommon.Response :=
  {| GeminiCommon.ok := true; GeminiCommon.status := 200;
     GeminiCommon.contentType := contentType;
     GeminiCommon.stream :=
       Some {| GeminiCommon.chunks := Samples.twoEvents;
               GeminiCommon.failure := None |} |}.

(** The stream of [streamed], its longer text first, labelled as JSON. *)
Definition mislabelled : GeminiCommon.Response :=
  {| GeminiCommon.ok := true; GeminiCommon.status := 200;
     GeminiCommon.contentType := Some (lit "application/json");
     GeminiCommon.stream := GeminiCommon.stream streamed |}.

End Cases.

(* ===================================================================== *)
(** * Properties *)
(* ===================================================================== *)

(** ** Strings *)

Example lit_ascii : lit "a?b" = [97; 63; 98].
Proof. reflexivity. Qed.

Example lit_cjk : lit "请求超时" = [35831; 27714; 36229; 26102].
Proof. reflexivity. Qed.

Example of_Z_examples :
  of_Z 0 = lit "0" /\ of_Z 6001 = lit "6001" /\ of_Z (-5) = lit "-5".
Proof. repeat split; reflexivity. Qed.

Example trim_example : trim (lit "  a b" ++ [160; 10]) = lit "a b".
Proof. reflexivity. Qed.

Example split_char_example :
  split_char 63 (lit "h/p?a=1?b=2") = [lit "h/p"; lit "a=1"; lit "b=2"].
Proof. reflexivity. Qed.

Lemma truthy_true (s : jstr) : truthy s = true <-> s <> [].
Proof. destruct s; simpl; split; congruence. Qed.

Lemma truthy_false (s : jstr) : truthy s = false <-> s = [].
Proof. destruct s; simpl; split; congruence. Qed.

Lemma eqb_eq (a b : jstr) : eqb a b = true <-> a = b.
Proof. unfold eqb. apply bool_decide_eq_true. Qed.

Lemma eqb_neq (a b : jstr) : eqb a b = false <-> a <> b.
Proof. unfold eqb. apply bool_decide_eq_false. Qed.

Lemma startsWith_prefix (s p : jstr) : startsWith s p = true <-> p `prefix_of` s.
Proof.
  revert s. induction p as [|a p IH]; intros s; simpl.
  - split; [intros _; apply prefix_nil | reflexivity].
  - destruct s as [|b s].
    + split; [discriminate | intros H; apply prefix_nil_inv in H; discriminate].
    + rewrite andb_true_iff, N.eqb_eq, IH. split.
      * intros [-> H]. by apply prefix_cons.
      * intros H. split; [by apply prefix_cons_inv_1 in H | by apply prefix_cons_inv_2 in H].
Qed.

Lemma startsWith_app (p rest : jstr) : startsWith (p ++ rest) p = true.
Proof. apply startsWith_prefix. by apply prefix_app_r. Qed.

Lemma endsWith_suffix (s p : jstr) : endsWith s p = true <-> p `suffix_of` s.
Proof.
  unfold endsWith. rewrite startsWith_prefix. split.
  - intros [k Hk]. exists (rev k).
    rewrite <- (rev_involutive s), Hk, rev_app_distr, rev_involutive. reflexivity.
  - intros [k ->]. exists (rev k). by rewrite rev_app_distr.
Qed.

Lemma includes_spec (s p : jstr) :
  includes s p = true <-> exists pre post, s = pre ++ p ++ post.
Proof.
  induction s as [|c s IH]; simpl.
  - rewrite orb_false_r, startsWith_prefix. split.
    + intros [k Hk]. exists [], k. exact Hk.
    + intros (pre & post & H). symmetry in H.
      apply app_eq_nil in H as [-> H]. apply app_eq_nil in H as [-> _].
      apply prefix_nil.
  - rewrite orb_true_iff, startsWith_prefix, IH. split.
    + intros [[k Hk] | (pre & post & ->)].
      * exists [], k. exact Hk.
      * exists (c :: pre), post. reflexivity.
    + intros (pre & post & H). destruct pre as [|c' pre].
      * left. exists post. exact H.
      * right. injection H as -> ->. by exists pre, post.
Qed.

Lemma dropWhile_app_stable (p : N -> bool) (a b : jstr) :
  dropWhile p b = b -> b <> [] -> dropWhile p (a ++ b) = dropWhile p a ++ b.
Proof.
  intros Hb Hne. induction a as [|c a IH]; simpl.
  - exact Hb.
  - destruct (p c); [exact IH | reflexivity].
Qed.

Lemma dropWhile_app (p : N -> bool) (a b : jstr) :
  dropWhile p (a ++ b) =
  match dropWhile p a with [] => dropWhile p b | r => r ++ b end.
Proof.
  induction a as [|c a IH]; simpl; [reflexivity|].
  destruct (p c); [exact IH | reflexivity].
Qed.

Lemma dropWhileEnd_snoc (p : N -> bool) (s : jstr) (c : N) :
  dropWhileEnd p (s ++ [c]) = if p c then dropWhileEnd p s else s ++ [c].
Proof.
  unfold dropWhileEnd. rewrite rev_app_distr. simpl.
  destruct (p c); [reflexivity|]. simpl. by rewrite rev_involutive.
Qed.

Lemma dropWhileEnd_cons (p : N -> bool) (c : N) (s : jstr) :
  dropWhileEnd p (c :: s) =
  match dropWhileEnd p s with
  | [] => if p c then [] else [c]
  | r => c :: r
  end.
Proof.
  unfold dropWhileEnd. simpl. rewrite dropWhile_app.
  destruct (dropWhile p (rev s)) as [|d r] eqn:E; simpl.
  - destruct (p c); reflexivity.
  - rewrite rev_app_distr. simpl.
    destruct (rev r ++ [d]) eqn:E'; [by destruct (rev r)|reflexivity].
Qed.

Lemma dropWhile_dropWhileEnd (p : N -> bool) (s : jstr) :
  dropWhile p (dropWhileEnd p s) = dropWhileEnd p (dropWhile p s).
Proof.
  induction s as [|c s IH]; [reflexivity|].
  rewrite dropWhileEnd_cons. simpl. destruct (p c) eqn:Hc.
  - destruct (dropWhileEnd p s) as [|d r] eqn:E.
    + rewrite <- IH. reflexivity.
    + simpl. rewrite Hc. rewrite <- IH. reflexivity.
  - rewrite dropWhileEnd_cons.
    destruct (dropWhileEnd p s); simpl; by rewrite Hc.
Qed.

Lemma dropWhile_idem (p : N -> bool) (s : jstr) :
  dropWhile p (dropWhile p s) = dropWhile p s.
Proof.
  induction s as [|c s IH]; [reflexivity|]. simpl.
  destruct (p c) eqn:Hc; [exact IH|]. simpl. by rewrite Hc.
Qed.

Lemma dropWhileEnd_idem (p : N -> bool) (s : jstr) :
  dropWhileEnd p (dropWhileEnd p s) = dropWhileEnd p s.
Proof.
  unfold dropWhileEnd. by rewrite rev_involutive, dropWhile_idem.
Qed.

Lemma trim_idem (s : jstr) : trim (trim s) = trim s.
Proof.
  unfold trim, trimStart, trimEnd.
  by rewrite dropWhile_dropWhileEnd, dropWhileEnd_idem, dropWhile_idem.
Qed.

Lemma trim_ws_cons (c : N) (s : jstr) : is_ws c = true -> trim (c :: s) = trim s.
Proof. intros H. unfold trim, trimStart. simpl. by rewrite H. Qed.

Lemma trimEnd_trim (s : jstr) : trim (trimEnd s) = trim s.
Proof.
  unfold trim, trimStart, trimEnd.
  by rewrite dropWhile_dropWhileEnd, dropWhileEnd_idem.
Qed.

(** ** C6: merging the fragments of a stream *)

Import GeminiCommon.

Lemma mergeStreamText_cases (p n : jstr) :
  (p = [] \/ p `prefix_of` n -> mergeStreamText (Some p) n = n)
  /\ (n `prefix_of` p -> mergeStreamText (Some p) n = p)
  /\ (p <> [] -> ~ p `prefix_of` n -> ~ n `prefix_of` p ->
      mergeStreamText (Some p) n = p ++ n).
Proof.
  unfold mergeStreamText. repeat split.
  - intros [-> | H]; [reflexivity|].
    destruct (truthy p); simpl; [|reflexivity].
    apply startsWith_prefix in H. by rewrite H.
  - intros H. destruct (truthy p) eqn:Hp; simpl.
    + destruct (startsWith n p) eqn:Hnp.
      * apply startsWith_prefix in Hnp. by apply (anti_symm prefix).
      * apply startsWith_prefix in H. by rewrite H.
    + apply truthy_false in Hp. subst p. by apply prefix_nil_inv in H.
  - intros Hp Hpn Hnp. apply truthy_true in Hp. rewrite Hp. simpl.
    destruct (startsWith n p) eqn:E1; [by apply startsWith_prefix in E1|].
    destruct (startsWith p n) eqn:E2; [by apply startsWith_prefix in E2|].
    reflexivity.
Qed.

(** *** Lines of a stream *)

Lemma jstr_pair_ind (P : jstr -> Prop) :
  P [] -> (forall c, P [c]) ->
  (forall c d t, P t -> P (d :: t) -> P (c :: d :: t)) ->
  forall s, P s.
Proof.
  intros H0 H1 H2 s.
  assert (P s /\ forall c, P (c :: s)) as [H _]; [|exact H].
  induction s as [|d t [IHt IHdt]]; split; auto.
Qed.

Lemma split_lines_nonempty (s : jstr) : split_lines s <> [].
Proof.
  induction s as [|c|c d t _ _] using jstr_pair_ind; simpl; try discriminate.
  - destruct (c =? 10); discriminate.
  - destruct (c =? 10); [discriminate|].
    destruct ((c =? 13) && (d =? 10)); [discriminate|].
    destruct (if d =? 10 then _ else _); discriminate.
Qed.

Lemma split_lines_cons2 (c d : N) (t : jstr) :
  split_lines (c :: d :: t) =
  if c =? 10 then [] :: split_lines (d :: t)
  else if (c =? 13) && (d =? 10) then [] :: split_lines t
  else match split_lines (d :: t) with
       | [] => [[c]]
       | h :: r => (c :: h) :: r
       end.
Proof. reflexivity. Qed.

Ltac first_line s h r :=
  let E := fresh "E" in
  pose proof (split_lines_nonempty s) as E;
  destruct (split_lines s) as [|h r]; [congruence|]; clear E.

Lemma split_lines_single (s h : jstr) : split_lines s = [h] -> h = s.
Proof.
  revert h. induction s as [|c|c d t _ IH] using jstr_pair_ind; intros h.
  - simpl. congruence.
  - simpl. destruct (c =? 10); simpl; congruence.
  - rewrite split_lines_cons2.
    destruct (c =? 10).
    { first_line (d :: t) h' r. discriminate. }
    destruct ((c =? 13) && (d =? 10)).
    { first_line t h' r. discriminate. }
    specialize (IH (List.hd [] (split_lines (d :: t)))).
    first_line (d :: t) h' r.
    intros H. injection H as <- ->. simpl in IH. by rewrite IH.
Qed.

Lemma split_lines_app (a b : jstr) :
  split_lines (a ++ b) =
  removelast (split_lines a) ++ split_lines (List.last (split_lines a) [] ++ b).
Proof.
  induction a as [|c|c d t IHt IHdt] using jstr_pair_ind.
  - reflexivity.
  - assert (split_lines [c] = if c =? 10 then [[]; []] else [[c]]) as ->
      by reflexivity.
    destruct (c =? 10) eqn:Hc; [|reflexivity].
    apply N.eqb_eq in Hc. subst c. reflexivity.
  - change ((c :: d :: t) ++ b) with (c :: d :: (t ++ b)).
    rewrite !split_lines_cons2.
    destruct (c =? 10) eqn:Hc.
    { change (d :: t ++ b) with ((d :: t) ++ b). rewrite IHdt.
      first_line (d :: t) h r. reflexivity. }
    destruct ((c =? 13) && (d =? 10)) eqn:Hcd.
    { rewrite IHt. first_line t h r. reflexivity. }
    change (d :: t ++ b) with ((d :: t) ++ b). rewrite IHdt.
    pose proof (split_lines_single (d :: t)) as Hone.
    first_line (d :: t) h r.
    destruct r as [|r1 r'].
    + rewrite (Hone h eq_refl). simpl removelast. simpl List.last.
      change ((c :: d :: t) ++ b) with (c :: d :: (t ++ b)).
      rewrite split_lines_cons2, Hc, Hcd. reflexivity.
    + reflexivity.
Qed.

Lemma split_lines_line (l eol rest : jstr) :
  Forall (fun c => c <> 10 /\ c <> 13) l ->
  eol = [10] \/ eol = [13; 10] ->
  split_lines (l ++ eol ++ rest) = l :: split_lines rest.
Proof.
  intros Hl Heol. induction Hl as [|c l [Hc10 Hc13] Hl IH].
  - destruct Heol as [-> | ->]; reflexivity.
  - assert (exists d t, l ++ eol ++ rest = d :: t) as (d & t & E).
    { destruct l; [destruct Heol as [-> | ->]|]; simpl; eauto. }
    change ((c :: l) ++ eol ++ rest) with (c :: (l ++ eol ++ rest)).
    rewrite E, split_lines_cons2, <- E, IH.
    apply N.eqb_neq in Hc10, Hc13. by rewrite Hc10, Hc13.
Qed.

Lemma dropWhileEnd_app_stable (p : N -> bool) (a z : jstr) :
  dropWhileEnd p a = a -> a <> [] ->
  dropWhileEnd p (a ++ z) = a ++ dropWhileEnd p z.
Proof.
  unfold dropWhileEnd. intros Ha Hne.
  rewrite rev_app_distr, dropWhile_app_stable.
  - by rewrite rev_app_distr, rev_involutive.
  - rewrite <- (rev_involutive (dropWhile p (rev a))), Ha. reflexivity.
  - intros E. apply (f_equal (@rev N)) in E. rewrite rev_involutive in E. auto.
Qed.

Lemma strip_cr_trim (s : jstr) : trim (strip_cr s) = trim s.
Proof.
  unfold strip_cr. destruct (rev s) as [|c r] eqn:E; [reflexivity|].
  assert (s = rev r ++ [c]) as Hs.
  { rewrite <- (rev_involutive s), E. reflexivity. }
  destruct c as [|c]; [reflexivity|].
  destruct (decide (N.pos c = 13)) as [Hc|Hc].
  - injection Hc as ->. subst s. unfold trim, trimStart, trimEnd.
    rewrite <- !dropWhile_dropWhileEnd, dropWhileEnd_snoc. reflexivity.
  - repeat (destruct c as [c|c|]; try reflexivity); congruence.
Qed.

Lemma trim_data_line (x : jstr) :
  trim (lit "data: " ++ x) = lit "data:" ++ trimEnd (32 :: x).
Proof.
  unfold trim. change (trimStart (lit "data: " ++ x)) with (lit "data:" ++ 32 :: x).
  unfold trimEnd. apply dropWhileEnd_app_stable; [reflexivity | discriminate].
Qed.

Section StreamFacts.

Variable JSON_parse : jstr -> option json.
Variable extract : json -> option jstr.
Hypothesis extract_usable : forall j t, extract j = Some t -> trim t <> [].

Lemma handleLine_blank st : handleLine JSON_parse extract st [] = flushEvent JSON_parse extract st.
Proof. reflexivity. Qed.

Lemma handleLine_data st (x : jstr) :
  handleLine JSON_parse extract st (lit "data: " ++ x) =
  {| text := text st; lastPayload := lastPayload st;
     eventDataLines := eventDataLines st ++ [trim x] |}.
Proof.
  unfold handleLine. rewrite strip_cr_trim, trim_data_line.
  change (eqb (lit "data:" ++ trimEnd (32 :: x)) []) with false.
  rewrite startsWith_app. cbv iota.
  change (slice_from 5 (lit "data:" ++ trimEnd (32 :: x))) with (trimEnd (32 :: x)).
  rewrite trimEnd_trim, trim_ws_cons by reflexivity. reflexivity.
Qed.

Lemma handlePayload_event st (x t : jstr) :
  event_text JSON_parse extract x t ->
  handlePayload JSON_parse extract st (trim x) =
  {| text := Some (mergeStreamText (text st) t);
     lastPayload := lastPayload (handlePayload JSON_parse extract st (trim x));
     eventDataLines := eventDataLines st |}.
Proof using extract_usable.
  intros (Hne & Hdone & j & Hj & Hnull & Ht).
  unfold handlePayload. rewrite trim_idem.
  apply truthy_true in Hne. apply eqb_neq in Hdone. rewrite Hne, Hdone, Hj. simpl.
  pose proof (extract_usable _ _ Ht) as Hu.
  assert (truthy t = true) as Htt.
  { apply truthy_true. intros ->. by apply Hu. }
  apply truthy_true in Hu.
  destruct j; try congruence; rewrite Ht, Htt, Hu; reflexivity.
Qed.

Lemma flush_event st (x t : jstr) :
  eventDataLines st = [trim x] ->
  event_text JSON_parse extract x t ->
  text (flushEvent JSON_parse extract st) = Some (mergeStreamText (text st) t)
  /\ eventDataLines (flushEvent JSON_parse extract st) = [].
Proof using extract_usable.
  intros Hl Hev. unfold flushEvent. rewrite Hl. simpl join.
  rewrite (handlePayload_event st x t Hev). split; reflexivity.
Qed.

Lemma flush_idle st :
  eventDataLines st = [] -> flushEvent JSON_parse extract st = st.
Proof. intros H. unfold flushEvent. by rewrite H. Qed.

(** A [data:] line and the blank line after it. *)
Lemma one_event st (x t : jstr) (rest : list jstr) :
  eventDataLines st = [] ->
  event_text JSON_parse extract x t ->
  exists st',
    fold_left (handleLine JSON_parse extract) ((lit "data: " ++ x) :: [] :: rest) st
    = fold_left (handleLine JSON_parse extract) rest st'
    /\ text st' = Some (mergeStreamText (text st) t)
    /\ eventDataLines st' = [].
Proof using extract_usable.
  intros Hl Hev. cbn [fold_left].
  rewrite handleLine_data, handleLine_blank, Hl.
  match goal with |- context [flushEvent _ _ ?s] => set (s1 := s) end.
  destruct (flush_event s1 x t eq_refl Hev) as [T L].
  exists (flushEvent JSON_parse extract s1). auto.
Qed.

(** Two events in a row: the text of the second one when it extends the
    text of the first. *)
Lemma two_events (eol x1 x2 t1 t2 : jstr) :
  eol = [10] \/ eol = [13; 10] ->
  single_line x1 -> single_line x2 ->
  event_text JSON_parse extract x1 t1 ->
  event_text JSON_parse extract x2 t2 ->
  t1 `prefix_of` t2 ->
  fst (parseEventStreamLikeText JSON_parse extract
         (lit "data: " ++ x1 ++ eol ++ eol ++ lit "data: " ++ x2 ++ eol ++ eol))
  = Some t2.
Proof using extract_usable.
  intros Heol H1 H2 E1 E2 Hpre.
  assert (forall x, single_line x -> single_line (lit "data: " ++ x)) as Hdata.
  { intros x Hx. apply Forall_app. split; [|exact Hx].
    repeat constructor; discriminate. }
  assert (forall rest, split_lines (eol ++ rest) = [] :: split_lines rest) as Hblank.
  { intros rest. apply (split_lines_line [] eol rest); [constructor | exact Heol]. }
  unfold parseEventStreamLikeText.
  rewrite !(app_assoc (lit "data: ")).
  rewrite (split_lines_line (lit "data: " ++ x1) eol _ (Hdata x1 H1) Heol).
  rewrite Hblank.
  rewrite (split_lines_line (lit "data: " ++ x2) eol _ (Hdata x2 H2) Heol).
  assert (split_lines eol = [[]; []]) as ->
    by (destruct Heol as [-> | ->]; reflexivity).
  destruct (one_event parser_init x1 t1
              [lit "data: " ++ x2; []; []] eq_refl E1) as (s1 & -> & T1 & L1).
  destruct (one_event s1 x2 t2 [[]] L1 E2) as (s2 & -> & T2 & L2).
  cbn [fold_left]. rewrite handleLine_blank.
  rewrite (flush_idle s2 L2), (flush_idle s2 L2).
  simpl. rewrite T2, T1. simpl.
  f_equal. apply mergeStreamText_cases. by right.
Qed.

(** The incremental reader sees the lines of the whole body, however the
    body is cut into chunks. *)
Lemma readChunks_lines (chunks : list jstr) (buffer : jstr) st :
  fold_left (handleLine JSON_parse extract)
    (split_lines (fst (fold_left (readChunk JSON_parse extract) chunks (buffer, st))))
    (snd (fold_left (readChunk JSON_parse extract) chunks (buffer, st)))
  = fold_left (handleLine JSON_parse extract)
      (split_lines (buffer ++ concat chunks)) st.
Proof.
  revert buffer st. induction chunks as [|chunk rest IH]; intros buffer st.
  - simpl. by rewrite app_nil_r.
  - change (fold_left (readChunk JSON_parse extract) (chunk :: rest) (buffer, st))
      with (fold_left (readChunk JSON_parse extract) rest
              (readChunk JSON_parse extract (buffer, st) chunk)).
    destruct (readChunk JSON_parse extract (buffer, st) chunk) as [b' s'] eqn:E.
    rewrite IH. unfold readChunk in E. simpl in E. injection E as <- <-.
    simpl concat. rewrite app_assoc.
    rewrite (split_lines_app (buffer ++ chunk)), fold_left_app. reflexivity.
Qed.

Lemma readEventStreamText_chunks (chunks : list jstr) :
  readEventStreamText JSON_parse extract chunks =
  parseEventStreamLikeText JSON_parse extract (concat chunks).
Proof.
  unfold readEventStreamText, parseEventStreamLikeText.
  pose proof (readChunks_lines chunks [] parser_init) as H.
  destruct (fold_left _ chunks _) as [buffer st]. simpl in H.
  by rewrite H.
Qed.

End StreamFacts.

Lemma firstCandidateText_usable (cs : list json) (t : jstr) :
  firstCandidateText cs = Some t -> trim t <> [].
Proof.
  induction cs as [|c cs IH]; simpl; [discriminate|].
  destruct (candidateText c) as [t'|] eqn:E; [|exact IH].
  intros [= ->]. unfold candidateText in E.
  destruct (prop _ _) as [[| | | |parts|]|]; try discriminate.
  destruct (_ && truthy _) eqn:H; [|discriminate].
  injection E as <-. apply andb_true_iff in H as [_ H].
  by apply truthy_true.
Qed.

Lemma extractFromCandidates_usable (j : json) (t : jstr) :
  extractFromCandidates j = Some t -> trim t <> [].
Proof.
  unfold extractFromCandidates.
  destruct (prop _ _) as [[| | | |cs|]|]; try discriminate.
  apply firstCandidateText_usable.
Qed.

Lemma extractGeminiText_usable (j : json) (t : jstr) :
  GeminiAction.extractGeminiText j = Some t -> trim t <> [].
Proof.
  destruct j as [| | | |items|]; simpl;
    try discriminate; try apply extractFromCandidates_usable.
  induction items as [|item later IH]; [discriminate|].
  destruct ((fix scan (l : list json) : option jstr := _) later) as [t'|].
  - intros [= ->]. by apply IH.
  - destruct (GeminiAction.extractGeminiText item) as [e|]; [|discriminate].
    destruct (truthy e && truthy (trim e)) eqn:H; [|discriminate].
    intros [= ->]. apply andb_true_iff in H as [_ H]. by apply truthy_true.
Qed.

(** C6. The merge of the accumulated text [p] with a new fragment [n] is
    [n] when [p] is absent, empty or a prefix of [n], is [p] when [n] is a
    prefix of [p], and is [p ++ n] otherwise.  Consequently a body made of
    two [data:] events, the text of the second extending the text of the
    first, is read as the text of the second event: by the incremental
    reader of both revisions for every cutting of the body into chunks,
    and by the line parser of the action-aware revision. *)
Theorem merge_keeps_longest_fragment :
  (forall n, mergeStreamText None n = n)
  /\ (forall p n,
        (p = [] \/ p `prefix_of` n -> mergeStreamText (Some p) n = n)
        /\ (n `prefix_of` p -> mergeStreamText (Some p) n = p)
        /\ (p <> [] -> ~ p `prefix_of` n -> ~ n `prefix_of` p ->
            mergeStreamText (Some p) n = p ++ n))
  /\ (forall JSON_parse eol x1 x2 t1 t2 chunks,
        eol = [10] \/ eol = [13; 10] ->
        single_line x1 -> single_line x2 ->
        t1 `prefix_of` t2 ->
        concat chunks =
          lit "data: " ++ x1 ++ eol ++ eol ++ lit "data: " ++ x2 ++ eol ++ eol ->
        (event_text JSON_parse GeminiNative.extractGeminiText x1 t1 ->
         event_text JSON_parse GeminiNative.extractGeminiText x2 t2 ->
         fst (readEventStreamText JSON_parse GeminiNative.extractGeminiText chunks)
         = Some t2)
        /\ (event_text JSON_parse GeminiAction.extractGeminiText x1 t1 ->
            event_text JSON_parse GeminiAction.extractGeminiText x2 t2 ->
            fst (readEventStreamText JSON_parse GeminiAction.extractGeminiText chunks)
            = Some t2
            /\ fst (parseEventStreamLikeText JSON_parse
                      GeminiAction.extractGeminiText (concat chunks))
               = Some t2)).
Proof.
  split; [reflexivity|]. split; [apply mergeStreamText_cases|].
  intros JSON_parse eol x1 x2 t1 t2 chunks Heol H1 H2 Hpre Hbody. split.
  - intros E1 E2. rewrite readEventStreamText_chunks, Hbody.
    by apply (two_events JSON_parse GeminiNative.extractGeminiText
                extractFromCandidates_usable eol x1 x2 t1 t2).
  - intros E1 E2. rewrite readEventStreamText_chunks, Hbody.
    split; by apply (two_events JSON_parse GeminiAction.extractGeminiText
                       extractGeminiText_usable eol x1 x2 t1 t2).
Qed.

Lemma merge_keeps_longest_fragment_witness :
  single_line Samples.event1 /\ single_line Samples.event2
  /\ lit "4" `prefix_of` lit "42"
  /\ event_text Samples.parse GeminiAction.extractGeminiText Samples.event1 (lit "4")
  /\ event_text Samples.parse GeminiAction.extractGeminiText Samples.event2 (lit "42")
  /\ fst (readEventStreamText Samples.parse GeminiAction.extractGeminiText
            Samples.twoEvents)
     = Some (lit "42").
Proof.
  assert (single_line Samples.event1) as S1 by (unfold single_line; compute_done).
  assert (single_line Samples.event2) as S2 by (unfold single_line; compute_done).
  assert (lit "4" `prefix_of` lit "42") as P by (by exists (lit "2")).
  assert (event_text Samples.parse GeminiAction.extractGeminiText
            Samples.event1 (lit "4")) as E1.
  { split; [vm_compute; discriminate|]. split; [vm_compute; discriminate|].
    exists (Samples.reply (lit "4")).
    split; [vm_compute; reflexivity|]. split; [discriminate|vm_compute; reflexivity]. }
  assert (event_text Samples.parse GeminiAction.extractGeminiText
            Samples.event2 (lit "42")) as E2.
  { split; [vm_compute; discriminate|]. split; [vm_compute; discriminate|].
    exists (Samples.reply (lit "42")).
    split; [vm_compute; reflexivity|]. split; [discriminate|vm_compute; reflexivity]. }
  refine (conj S1 (conj S2 (conj P (conj E1 (conj E2 _))))).
  destruct merge_keeps_longest_fragment as (_ & _ & H).
  destruct (H Samples.parse [13; 10] Samples.event1 Samples.event2
              (lit "4") (lit "42") Samples.twoEvents)
    as [_ H']; [by right | exact S1 | exact S2 | exact P | reflexivity |].
  apply (H' E1 E2).
Defined.

(** ** C8: the call URL of the Gemini adapter *)

Lemma split_char_none (c : N) (s : jstr) :
  Forall (fun a => a <> c) s -> split_char c s = [s].
Proof.
  induction 1 as [|a s Ha _ IH]; [reflexivity|]. simpl.
  apply N.eqb_neq in Ha. by rewrite Ha, IH.
Qed.

Lemma split_char_first (c : N) (a b : jstr) :
  Forall (fun x => x <> c) a -> split_char c (a ++ c :: b) = a :: split_char c b.
Proof.
  induction 1 as [|x a Hx _ IH]; simpl.
  - by rewrite N.eqb_refl.
  - apply N.eqb_neq in Hx. by rewrite Hx, IH.
Qed.

(** The streaming action of the action-aware revision resolves as the
    earlier revision does. *)
Lemma resolveGeminiUrlForAction_stream (endpoint model : jstr) :
  GeminiAction.resolveGeminiUrlForAction endpoint model
    GeminiAction.streamGenerateContent
  = GeminiNative.resolveGeminiUrl endpoint model.
Proof.
  assert (lit ":" ++ lit "streamGenerateContent" = lit ":streamGenerateContent")
    as E by (vm_compute; reflexivity).
  unfold GeminiAction.resolveGeminiUrlForAction, GeminiNative.resolveGeminiUrl,
    GeminiAction.action_name.
  cbv zeta. rewrite E. reflexivity.
Qed.

(** On an endpoint with at most one question mark the resolution is the
    one described: the action URL as it is, the models base completed
    with the model and the action in front of the query, anything else as
    it is.  An empty [query] stands for an endpoint without one. *)
Lemma resolveGeminiUrl_single_query (endpoint model base query : jstr) :
  Forall (fun c => c <> 63) base -> Forall (fun c => c <> 63) query ->
  let tail := if truthy query then lit "?" ++ query else [] in
  let normalizedBase := dropWhileEnd is_slash base in
  trim endpoint = base ++ tail ->
  GeminiNative.resolveGeminiUrl endpoint model =
  if includes (trim endpoint) (lit ":streamGenerateContent") then trim endpoint
  else if endsWith normalizedBase (lit "/v1beta/models") then
    normalizedBase ++ lit "/" ++ model ++ lit ":streamGenerateContent" ++ tail
  else trim endpoint.
Proof.
  intros Hb Hq tail normalizedBase Ht.
  assert (split_char 63 (trim endpoint) = [base; query]
          \/ query = [] /\ split_char 63 (trim endpoint) = [base]) as Hs.
  { rewrite Ht. subst tail. destruct query as [|q0 query]; simpl truthy; cbv iota.
    - right. by rewrite app_nil_r, (split_char_none 63 base Hb).
    - left. change (lit "?" ++ q0 :: query) with (63 :: q0 :: query).
      by rewrite (split_char_first 63 base _ Hb), (split_char_none 63 _ Hq). }
  unfold GeminiNative.resolveGeminiUrl.
  destruct (includes (trim endpoint) _); [reflexivity|].
  destruct Hs as [-> | [-> ->]]; simpl lookup; simpl default;
    fold normalizedBase; destruct (endsWith normalizedBase _); try reflexivity.
  subst tail. destruct (truthy query); rewrite <- ?app_assoc; [reflexivity|].
  by rewrite (app_nil_r (lit ":streamGenerateContent")).
Qed.

(** C8. Against the claim: an endpoint whose query holds a second
    question mark loses what follows it.  Both revisions resolve
    [https://h/v1beta/models?a=1?b=2] for the model [m] to
    [https://h/v1beta/models/m:streamGenerateContent?a=1]. *)
Theorem resolve_cuts_query_at_second_mark :
  GeminiNative.resolveGeminiUrl (lit "https://h/v1beta/models?a=1?b=2") (lit "m")
  = lit "https://h/v1beta/models/m:streamGenerateContent?a=1"
  /\ GeminiAction.resolveGeminiUrlForAction
       (lit "https://h/v1beta/models?a=1?b=2") (lit "m")
       GeminiAction.streamGenerateContent
     = lit "https://h/v1beta/models/m:streamGenerateContent?a=1"
  /\ ~ (exists pre, lit "https://h/v1beta/models/m:streamGenerateContent?a=1"
                    = pre ++ lit "?a=1?b=2").
Proof.
  split; [vm_compute; reflexivity|]. split; [vm_compute; reflexivity|].
  intros [pre H]. apply (f_equal (@rev N)) in H.
  rewrite rev_app_distr in H. vm_compute in H. discriminate.
Qed.

(** ** C9: the reasoning-effort directive of a model name *)

Import AiSdk.

Lemma mark_is_not_a_letter (c : N) :
  is_directive_mark c = true -> is_word (lower c) = false.
Proof.
  unfold is_directive_mark. rewrite orb_true_iff, !N.eqb_eq.
  intros [-> | ->]; reflexivity.
Qed.

Lemma words_hold_no_mark (r : jstr) :
  forallb is_word (toLower r) = true ->
  Forall (fun c => is_directive_mark c = false) r.
Proof.
  induction r as [|c r IH]; simpl; [constructor|].
  rewrite andb_true_iff. intros [Hc Hr]. constructor; [|by apply IH].
  destruct (is_directive_mark c) eqn:E; [|reflexivity].
  apply mark_is_not_a_letter in E. congruence.
Qed.

Lemma match_level_inv (rest l : jstr) :
  match_level rest = Some l ->
  l = rest /\ forallb is_word (toLower rest) = true.
Proof.
  unfold match_level. destruct (existsb _ _) eqn:E; [|discriminate].
  intros [= <-]. split; [reflexivity|].
  apply existsb_exists in E as (lvl & Hin & Heq). apply eqb_eq in Heq.
  rewrite Heq. simpl in Hin.
  destruct Hin as [<- | [<- | [<- | [<- | [<- | []]]]]]; reflexivity.
Qed.

Lemma match_level_after_mark (b : jstr) (mark : N) (l : jstr) :
  is_directive_mark mark = true -> match_level (b ++ mark :: l) = None.
Proof.
  intros Hm. destruct (match_level _) as [x|] eqn:E; [|reflexivity].
  apply match_level_inv in E as [_ E]. apply words_hold_no_mark in E.
  apply Forall_app in E as [_ E]. inversion E; congruence.
Qed.

Lemma match_directive_complete (seen base : jstr) (mark : N) (level : jstr) :
  Forall (fun c => is_line_terminator c = false) base ->
  is_directive_mark mark = true ->
  match_level level = Some level ->
  match_directive seen (base ++ mark :: level) = Some (rev seen ++ base, level).
Proof.
  intros Hb Hm Hl. revert seen. induction Hb as [|c b Hc _ IH]; intros seen.
  - simpl. by rewrite Hm, Hl, app_nil_r.
  - simpl. rewrite (match_level_after_mark b mark level Hm), Hc.
    destruct (is_directive_mark c); rewrite IH; simpl; by rewrite <- app_assoc.
Qed.

Lemma match_directive_sound (seen s b l : jstr) :
  match_directive seen s = Some (b, l) ->
  exists base mark,
    b = rev seen ++ base /\ s = base ++ mark :: l
    /\ is_directive_mark mark = true /\ match_level l = Some l
    /\ Forall (fun c => is_line_terminator c = false) base.
Proof.
  revert seen. induction s as [|c s IH]; intros seen; simpl; [discriminate|].
  destruct (if is_directive_mark c then match_level s else None) as [lvl|] eqn:E.
  - intros [= <- <-]. destruct (is_directive_mark c) eqn:Hc; [|discriminate].
    pose proof (match_level_inv _ _ E) as [-> _].
    exists [], c. rewrite app_nil_r. repeat split; auto.
  - destruct (is_line_terminator c) eqn:Ht; [discriminate|].
    intros H. apply IH in H as (base & mark & -> & -> & Hm & Hl & Hb).
    exists (c :: base), mark. simpl. rewrite <- app_assoc.
    repeat split; auto.
Qed.

(** The levels of a directive with the effort each one selects. *)
Lemma level_effort (level : jstr) (effort : ReasoningEffort) :
  (toLower level, effort)
    ∈ [ (lit "mini", low); (lit "minimal", low); (lit "low", low);
        (lit "medium", medium); (lit "high", high) ] ->
  match_level level = Some level
  /\ EFFORT_ALIAS_MAP !! toLower level = Some effort.
Proof.
  intros H. unfold match_level.
  repeat (apply elem_of_cons in H as [H | H];
          [injection H as -> ->; split; [reflexivity | by vm_compute] |]).
  by apply elem_of_nil in H.
Qed.

Lemma is_word_lower (c : N) : is_word (lower c) = is_word c.
Proof.
  unfold is_word, lower.
  destruct (N.leb_spec 65 c), (N.leb_spec c 90); cbn [andb];
  repeat match goal with
         | |- context [(?a <=? ?b)] => destruct (N.leb_spec a b)
         | |- context [(?a =? ?b)] => destruct (N.eqb_spec a b)
         end; simpl; try reflexivity; lia.
Qed.

Lemma lower_digit (c d : N) : lower c = d -> 49 <= d <= 57 -> c = d.
Proof.
  unfold lower. destruct (N.leb_spec 65 c), (N.leb_spec c 90); simpl; lia.
Qed.

Lemma search_at_boundary_spec (here : jstr -> bool) (prev : option N) (s : jstr) :
  search_at_boundary here prev s = true
  <-> exists pre rest,
        s = pre ++ rest /\ here rest = true
        /\ word_boundary (from_option Some prev (last pre)) (head rest) = true.
Proof.
  revert prev. induction s as [|c t IH]; intros prev; simpl.
  - rewrite orb_false_r, andb_true_iff. split.
    + intros [Hb Hh]. by exists [], [].
    + intros (pre & rest & E & Hh & Hb). symmetry in E.
      apply app_eq_nil in E as [-> ->]. by split.
  - rewrite orb_true_iff, andb_true_iff, IH. split.
    + intros [[Hb Hh] | (pre & rest & -> & Hh & Hb)].
      * by exists [], (c :: t).
      * exists (c :: pre), rest. repeat split; [exact Hh|].
        rewrite last_cons. by destruct (last pre).
    + intros (pre & rest & E & Hh & Hb). destruct pre as [|c' pre].
      * left. simpl in E. subst rest. by split.
      * right. injection E as -> ->. exists pre, rest. repeat split; [exact Hh|].
        rewrite last_cons in Hb. by destruct (last pre).
Qed.

Lemma toLower_app_inv (s a b : jstr) :
  toLower s = a ++ b -> exists p r, s = p ++ r /\ toLower p = a /\ toLower r = b.
Proof. apply map_eq_app. Qed.

Lemma boundary_before_word (pre rest : jstr) (c : N) :
  head rest = Some c -> is_word c = true ->
  word_boundary (from_option Some None (last pre)) (head rest) = true
  <-> at_word_start (toLower pre).
Proof.
  intros Hh Hw. rewrite Hh. unfold word_boundary, at_word_start. simpl.
  rewrite Hw. destruct pre as [|x pre _] using rev_ind.
  - simpl. split; auto.
  - rewrite last_snoc. simpl. unfold toLower. rewrite map_app. simpl.
    destruct (is_word x) eqn:Hx; simpl; split; try discriminate; auto.
    + intros [E | (front & y & E & Hy)].
      * by destruct (List.map lower pre).
      * apply app_inj_tail in E as [_ <-]. rewrite is_word_lower in Hy. congruence.
    + intros _. right. exists (List.map lower pre), (lower x).
      by rewrite is_word_lower.
Qed.

(** The patterns of [REASONING_MODEL_HINTS] accept the names described by
    [names_reasoning_model]. *)
Lemma hints_spec (s : jstr) :
  existsb (fun regex => regex s) REASONING_MODEL_HINTS = true
  <-> names_reasoning_model s.
Proof.
  unfold REASONING_MODEL_HINTS, names_reasoning_model. cbn [existsb].
  rewrite orb_false_r, !orb_true_iff, !includes_spec, !search_at_boundary_spec.
  assert ((exists pre rest,
             s = pre ++ rest
             /\ startsWith (toLower rest) (lit "gpt-5") = true
             /\ word_boundary (from_option Some None (last pre)) (head rest) = true)
          <-> exists pre post,
                toLower s = pre ++ lit "gpt-5" ++ post /\ at_word_start pre) as ->.
  { split.
    - intros (pre & rest & -> & Hh & Hb).
      apply startsWith_prefix in Hh as [post Hpost].
      exists (toLower pre), post. unfold toLower at 1. rewrite map_app.
      fold (toLower pre). fold (toLower rest). rewrite Hpost. split; [reflexivity|].
      destruct rest as [|g rest]; [discriminate|].
      apply (boundary_before_word pre (g :: rest) g); [reflexivity | | exact Hb].
      injection Hpost as Hg _. by rewrite <- is_word_lower, Hg.
    - intros (pre & post & E & Hpre).
      apply toLower_app_inv in E as (p & r & -> & <- & Hr).
      exists p, r. split; [reflexivity|]. split.
      + apply startsWith_prefix. rewrite Hr. by exists post.
      + destruct r as [|g r]; [discriminate|].
        apply (boundary_before_word p (g :: r) g); [reflexivity | | exact Hpre].
        injection Hr as Hg _. by rewrite <- is_word_lower, Hg. }
  assert ((exists pre rest,
             s = pre ++ rest /\ o_digit_here rest = true
             /\ word_boundary (from_option Some None (last pre)) (head rest) = true)
          <-> exists pre d post,
                toLower s = pre ++ 111 :: d :: post /\ 49 <= d <= 57
                /\ at_word_start pre) as ->.
  { split.
    - intros (pre & rest & -> & Hh & Hb).
      destruct rest as [|o [|d post]]; try discriminate. simpl in Hh.
      rewrite !andb_true_iff, N.eqb_eq, !N.leb_le in Hh.
      destruct Hh as [[Ho Hd1] Hd2].
      exists (toLower pre), d, (toLower post). unfold toLower. rewrite map_app.
      simpl. rewrite Ho. repeat split; try assumption.
      * f_equal. f_equal. f_equal. unfold lower.
        destruct (N.leb_spec 65 d), (N.leb_spec d 90); simpl; try reflexivity; lia.
      * apply (boundary_before_word pre (o :: d :: post) o); [reflexivity | | exact Hb].
        by rewrite <- is_word_lower, Ho.
    - intros (pre & d & post & E & Hd & Hpre).
      apply toLower_app_inv in E as (p & r & -> & <- & Hr).
      destruct r as [|o [|d' r]]; try discriminate.
      injection Hr as Ho Hd' Hpost.
      apply lower_digit in Hd'; [|exact Hd]. subst d'.
      exists p, (o :: d :: r). split; [reflexivity|]. split.
      + simpl. rewrite Ho, !andb_true_iff, !N.leb_le, N.eqb_eq. lia.
      + apply (boundary_before_word p (o :: d :: r) o); [reflexivity | | exact Hpre].
        by rewrite <- is_word_lower, Ho. }
  tauto.
Qed.

(** C9, as the code has it.  A model that is blank after trimming is
    returned as it is, without an effort.  Otherwise, when the trimmed
    name ends in [@level] or [#level] and no line break comes before the
    mark, the effort is the one of the level (mini, minimal and low give
    low, medium gives medium, high gives high, in any letter case) and
    the identifier is the trimmed text before the mark, or the whole
    trimmed name when nothing but blanks comes before the mark.  Without
    such a suffix the identifier is the trimmed name, with the effort
    medium when one of the reasoning-model patterns matches it and no
    effort otherwise. *)
Theorem parseModelDirective_cases (model : jstr) :
  let trimmed := trim model in
  (trimmed = [] ->
   parseModelDirective model = {| modelId := model; reasoningEffort := None |})
  /\ (forall base mark level effort,
        trimmed = base ++ mark :: level ->
        mark = 64 \/ mark = 35 ->
        (toLower level, effort)
          ∈ [ (lit "mini", low); (lit "minimal", low); (lit "low", low);
              (lit "medium", medium); (lit "high", high) ] ->
        Forall (fun c => is_line_terminator c = false) base ->
        parseModelDirective model =
        {| modelId := if decide (trim base = []) then trimmed else trim base;
           reasoningEffort := Some effort |})
  /\ (trimmed <> [] ->
      ~ (exists base mark level effort,
           trimmed = base ++ mark :: level /\ (mark = 64 \/ mark = 35)
           /\ (toLower level, effort)
                ∈ [ (lit "mini", low); (lit "minimal", low); (lit "low", low);
                    (lit "medium", medium); (lit "high", high) ]
           /\ Forall (fun c => is_line_terminator c = false) base) ->
      (names_reasoning_model trimmed ->
       parseModelDirective model =
       {| modelId := trimmed; reasoningEffort := Some medium |})
      /\ (~ names_reasoning_model trimmed ->
          parseModelDirective model =
          {| modelId := trimmed; reasoningEffort := None |})).
Proof.
  intros trimmed. unfold parseModelDirective. fold trimmed.
  split; [|split].
  - intros ->. reflexivity.
  - intros base mark level effort Ht Hm Hl Hb.
    assert (trimmed <> []) as Hne by (rewrite Ht; by destruct base).
    apply truthy_true in Hne. rewrite Hne. simpl negb. cbv iota.
    destruct (level_effort level effort Hl) as [Hlevel Heffort].
    assert (is_directive_mark mark = true) as Hmark
      by (destruct Hm as [-> | ->]; reflexivity).
    rewrite Ht at 1.
    rewrite (match_directive_complete [] base mark level Hb Hmark Hlevel).
    simpl rev. simpl app. rewrite Heffort. f_equal.
    destruct (decide (trim base = [])) as [-> | Hbase]; [reflexivity|].
    apply truthy_true in Hbase. by rewrite Hbase.
  - intros Hne Hnone. apply truthy_true in Hne. rewrite Hne. simpl negb. cbv iota.
    destruct (match_directive [] trimmed) as [[b l]|] eqn:E.
    + exfalso. apply Hnone.
      apply match_directive_sound in E as (base & mark & _ & Ht & Hm & Hl & Hb).
      assert (exists effort,
                (toLower l, effort)
                  ∈ [ (lit "mini", low); (lit "minimal", low); (lit "low", low);
                      (lit "medium", medium); (lit "high", high) ]) as [effort He].
      { unfold match_level in Hl. destruct (existsb _ _) eqn:Ex; [|discriminate].
        apply existsb_exists in Ex as (lvl & Hin & Heq). apply eqb_eq in Heq.
        rewrite Heq. simpl in Hin.
        destruct Hin as [<- | [<- | [<- | [<- | [<- | []]]]]];
          [exists low | exists low | exists low | exists medium | exists high];
          apply list_elem_of_In; simpl; tauto. }
      exists base, mark, l, effort. repeat split; auto.
      unfold is_directive_mark in Hm. apply orb_true_iff in Hm.
      by rewrite !N.eqb_eq in Hm.
    + pose proof (hints_spec trimmed) as Hh.
      destruct (existsb _ REASONING_MODEL_HINTS); split; intros Hn;
        try reflexivity; exfalso.
      * apply Hn, Hh. reflexivity.
      * apply Hh in Hn. discriminate.
Qed.

Lemma parseModelDirective_cases_witness :
  trim (lit " o3-mini@HIGH ") = lit "o3-mini" ++ 64 :: lit "HIGH"
  /\ parseModelDirective (lit " o3-mini@HIGH ")
     = {| modelId := lit "o3-mini"; reasoningEffort := Some high |}
  /\ names_reasoning_model (trim (lit "DeepSeek-R1"))
  /\ parseModelDirective (lit "DeepSeek-R1")
     = {| modelId := lit "DeepSeek-R1"; reasoningEffort := Some medium |}
  /\ trim [32] = []
  /\ parseModelDirective [32] = {| modelId := [32]; reasoningEffort := None |}.
Proof.
  assert (names_reasoning_model (trim (lit "DeepSeek-R1"))) as Hname.
  { right. right. right. left. by exists [], []. }
  split; [reflexivity|]. split; [|split; [exact Hname|split; [|split; [reflexivity|]]]].
  - destruct (parseModelDirective_cases (lit " o3-mini@HIGH ")) as (_ & H & _).
    rewrite (H (lit "o3-mini") 64 (lit "HIGH") high);
      [reflexivity | reflexivity | by left | apply list_elem_of_In; simpl; tauto | ].
    repeat constructor.
  - destruct (parseModelDirective_cases (lit "DeepSeek-R1")) as (_ & _ & H).
    destruct H as [H _]; [vm_compute; discriminate | | by apply H].
    intros (base & mark & level & effort & E & Hm & _).
    assert (In mark (trim (lit "DeepSeek-R1"))) as Hin
      by (rewrite E; apply in_elt).
    vm_compute in Hin. destruct Hm as [-> | ->]; intuition discriminate.
  - destruct (parseModelDirective_cases [32]) as (H & _). by apply H.
Defined.

(** C9, as stated, fails: for the model [@high] nothing comes before the
    mark, and the identifier returned is the whole name, not the empty
    base. *)
Lemma directive_alone_is_kept :
  ~ (forall base mark level effort,
       mark = 64 \/ mark = 35 ->
       (toLower level, effort)
         ∈ [ (lit "mini", low); (lit "minimal", low); (lit "low", low);
             (lit "medium", medium); (lit "high", high) ] ->
       parseModelDirective (base ++ mark :: level)
       = {| modelId := trim base; reasoningEffort := Some effort |}).
Proof.
  intros H. specialize (H [] 64 (lit "high") high).
  assert (parseModelDirective (64 :: lit "high")
          = {| modelId := 64 :: lit "high"; reasoningEffort := Some high |}) as E
    by (vm_compute; reflexivity).
  simpl app in H. rewrite E in H.
  assert (modelId {| modelId := 64 :: lit "high"; reasoningEffort := Some high |}
          = modelId {| modelId := trim []; reasoningEffort := Some high |}) as E'.
  { f_equal. apply H; [by left | apply list_elem_of_In; simpl; tauto]. }
  discriminate E'.
Qed.

(** ** C1, C2, C3, C7: the result of a check *)

Lemma graded_intro (threshold elapsed : Z) (r : CheckResult.t) :
  CheckResult.latencyMs r = Some elapsed ->
  CheckResult.status r
    = (if (elapsed <=? threshold)%Z then operational else degraded) ->
  CheckResult.message r
    = (if (elapsed <=? threshold)%Z
       then lit "验证通过 (" ++ of_Z elapsed ++ lit "ms)"
       else lit "响应成功但耗时 " ++ of_Z elapsed ++ lit "ms") ->
  graded threshold elapsed r.
Proof.
  intros Hl Hs Hm. split; [exact Hl|].
  destruct (Z.leb_spec elapsed threshold); split; intros; try lia; auto.
Qed.

(** C1. A reply that is not blank and passes the validation is graded by
    the elapsed time against the threshold of 6000 ms: operational up to
    it, degraded beyond it, with the elapsed time as latency and in the
    message.  This holds for the SDK check and for both revisions of the
    Gemini check, the action-aware one with the threshold it reads from
    the environment, 6000 ms when none is set. *)
Theorem valid_reply_is_graded_by_latency :
  (forall DEFAULT_ENDPOINTS validateResponse config run chunks,
     AiSdk.stream run = inl chunks ->
     trim (concat chunks) <> [] ->
     valid (validateResponse (concat chunks)
              (Challenge.expectedAnswer (AiSdk.challenge run))) = true ->
     graded 6000 (AiSdk.finishedAt run - AiSdk.startedAt run)
       (checkWithAiSdk DEFAULT_ENDPOINTS validateResponse config run))
  /\ (forall JSON_parse refusalMessage default_gemini validateResponse
             getErrorMessage config run text,
        fst (GeminiNative.requestPhase JSON_parse refusalMessage
               default_gemini config run)
          = inl text ->
        trim text <> [] ->
        valid (validateResponse text
                 (Challenge.expectedAnswer (GeminiCommon.challenge run))) = true ->
        graded 6000 (GeminiCommon.finishedAt run - GeminiCommon.startedAt run)
          (fst (GeminiNative.checkWithGeminiNative JSON_parse refusalMessage
                  default_gemini validateResponse getErrorMessage config run)))
  /\ (forall JSON_parse refusalMessage default_gemini validateResponse
             getErrorMessage configured config run text,
        fst (GeminiAction.requestPhase JSON_parse refusalMessage
               default_gemini config run)
          = inl text ->
        trim text <> [] ->
        valid (validateResponse text
                 (Challenge.expectedAnswer (GeminiCommon.challenge run))) = true ->
        graded (GeminiAction.DEGRADED_THRESHOLD_MS configured)
          (GeminiCommon.finishedAt run - GeminiCommon.startedAt run)
          (fst (GeminiAction.checkWithGeminiNative JSON_parse refusalMessage
                  default_gemini
                  validateResponse getErrorMessage configured config run)))
  /\ GeminiAction.DEGRADED_THRESHOLD_MS None = 6000%Z.
Proof.
  split; [|split; [|split; [|reflexivity]]].
  - intros D v config run chunks Hs Ht Hv. unfold checkWithAiSdk.
    apply truthy_true in Ht. rewrite Hs, Ht, Hv. simpl negb. cbv iota.
    apply graded_intro; simpl; [reflexivity | |];
      unfold AiSdk.DEGRADED_THRESHOLD_MS; by destruct (_ <=? _)%Z.
  - intros J R D v g config run text Hs Ht Hv.
    unfold GeminiNative.checkWithGeminiNative.
    destruct (GeminiNative.requestPhase J R D config run) as [outcome requests].
    simpl in Hs. subst outcome. apply truthy_true in Ht. rewrite Ht, Hv.
    simpl negb. cbv iota.
    apply graded_intro; simpl; [reflexivity | |];
      unfold GeminiNative.DEGRADED_THRESHOLD_MS; by destruct (_ <=? _)%Z.
  - intros J R D v g configured config run text Hs Ht Hv.
    unfold GeminiAction.checkWithGeminiNative.
    destruct (GeminiAction.requestPhase J R D config run) as [outcome requests].
    simpl in Hs. subst outcome. apply truthy_true in Ht. rewrite Ht, Hv.
    simpl negb. cbv iota.
    apply graded_intro; simpl; [reflexivity | |]; by destruct (_ <=? _)%Z.
Qed.

Lemma valid_reply_is_graded_by_latency_witness :
  AiSdk.stream Samples.slowAnswer = inl [lit "3 + 5 "; lit "= 8"]
  /\ trim (concat [lit "3 + 5 "; lit "= 8"]) <> []
  /\ valid (Samples.validate (concat [lit "3 + 5 "; lit "= 8"]) (lit "8")) = true
  /\ CheckResult.status
       (checkWithAiSdk Samples.defaults Samples.validate
          (Samples.provider openai None) Samples.slowAnswer) = degraded
  /\ CheckResult.message
       (checkWithAiSdk Samples.defaults Samples.validate
          (Samples.provider openai None) Samples.slowAnswer)
     = lit "响应成功但耗时 6001ms"
  /\ fst (GeminiAction.requestPhase Samples.parse Samples.refusal
            (lit "https://default")
            (Samples.provider gemini None) Samples.fastAnswer) = inl (lit "8")
  /\ CheckResult.status
       (fst (GeminiAction.checkWithGeminiNative Samples.parse Samples.refusal
               (lit "https://default") Samples.validate Samples.describe None
               (Samples.provider gemini None) Samples.fastAnswer)) = operational
  /\ CheckResult.message
       (fst (GeminiAction.checkWithGeminiNative Samples.parse Samples.refusal
               (lit "https://default") Samples.validate Samples.describe None
               (Samples.provider gemini None) Samples.fastAnswer))
     = lit "验证通过 (6000ms)".
Proof.
  assert (trim (concat [lit "3 + 5 "; lit "= 8"]) <> []) as Ht
    by (vm_compute; discriminate).
  assert (valid (Samples.validate (concat [lit "3 + 5 "; lit "= 8"]) (lit "8"))
          = true) as Hv by (vm_compute; reflexivity).
  assert (fst (GeminiAction.requestPhase Samples.parse Samples.refusal
                 (lit "https://default")
                 (Samples.provider gemini None) Samples.fastAnswer)
          = inl (lit "8")) as Hr by (vm_compute; reflexivity).
  destruct valid_reply_is_graded_by_latency as (Hsdk & _ & Hgem & _).
  destruct (Hsdk Samples.defaults Samples.validate (Samples.provider openai None)
              Samples.slowAnswer [lit "3 + 5 "; lit "= 8"] eq_refl Ht Hv)
    as (_ & _ & Hslow).
  destruct (Hgem Samples.parse Samples.refusal (lit "https://default") Samples.validate
              Samples.describe None (Samples.provider gemini None)
              Samples.fastAnswer (lit "8") Hr) as (_ & Hfast & _);
    [vm_compute; discriminate | vm_compute; reflexivity |].
  destruct Hslow as [S1 M1]; [vm_compute; reflexivity|].
  destruct Hfast as [S2 M2]; [vm_compute; discriminate|].
  refine (conj eq_refl (conj Ht (conj Hv (conj S1 (conj _ (conj Hr (conj S2 _))))))).
  - rewrite M1. vm_compute. reflexivity.
  - rewrite M2. vm_compute. reflexivity.
Defined.



(** C2. A result has no latency only on the path on which the check got
    no reply, the one on which its request throws, and its status is then
    failed or error.  On that path the latency is the elapsed time where
    the check measures it, as both revisions of the Gemini check do in
    their catch block with status error, and absent otherwise, as in the
    SDK check with status failed; on every other path the latency is the
    elapsed time. *)
Theorem latency_is_absent_only_on_the_no_response_path :
  (forall DEFAULT_ENDPOINTS validateResponse config run,
     let r := checkWithAiSdk DEFAULT_ENDPOINTS validateResponse config run in
     let elapsed := (AiSdk.finishedAt run - AiSdk.startedAt run)%Z in
     (CheckResult.latencyMs r = None ->
      (exists e, AiSdk.stream run = inr e)
      /\ (CheckResult.status r = failed \/ CheckResult.status r = error))
     /\ (forall e, AiSdk.stream run = inr e ->
         (CheckResult.status r = failed \/ CheckResult.status r = error)
         /\ (CheckResult.latencyMs r = Some elapsed
             \/ CheckResult.latencyMs r = None))
     /\ (forall chunks, AiSdk.stream run = inl chunks ->
         CheckResult.latencyMs r = Some elapsed)
     /\ (CheckResult.latencyMs r = None <-> exists e, AiSdk.stream run = inr e)
     /\ (forall e, AiSdk.stream run = inr e -> CheckResult.status r = failed))
  /\ (forall JSON_parse refusalMessage default_gemini validateResponse
             getErrorMessage config run,
        let outcome :=
          fst (GeminiNative.requestPhase JSON_parse refusalMessage
                 default_gemini config run) in
        let r :=
          fst (GeminiNative.checkWithGeminiNative JSON_parse refusalMessage
                 default_gemini validateResponse getErrorMessage config run) in
        let elapsed :=
          (GeminiCommon.finishedAt run - GeminiCommon.startedAt run)%Z in
        (CheckResult.latencyMs r = None ->
         (exists e, outcome = inr e)
         /\ (CheckResult.status r = failed \/ CheckResult.status r = error))
        /\ (forall e, outcome = inr e ->
            (CheckResult.status r = failed \/ CheckResult.status r = error)
            /\ (CheckResult.latencyMs r = Some elapsed
                \/ CheckResult.latencyMs r = None))
        /\ (forall text, outcome = inl text ->
            CheckResult.latencyMs r = Some elapsed)
        /\ CheckResult.latencyMs r = Some elapsed
        /\ (forall e, outcome = inr e ->
            CheckResult.status r = error
            /\ CheckResult.message r = getErrorMessage e))
  /\ (forall JSON_parse refusalMessage default_gemini validateResponse
             getErrorMessage configured config run,
        let outcome :=
          fst (GeminiAction.requestPhase JSON_parse refusalMessage
                 default_gemini config run) in
        let r :=
          fst (GeminiAction.checkWithGeminiNative JSON_parse refusalMessage
                 default_gemini validateResponse getErrorMessage configured
                 config run) in
        let elapsed :=
          (GeminiCommon.finishedAt run - GeminiCommon.startedAt run)%Z in
        (CheckResult.latencyMs r = None ->
         (exists e, outcome = inr e)
         /\ (CheckResult.status r = failed \/ CheckResult.status r = error))
        /\ (forall e, outcome = inr e ->
            (CheckResult.status r = failed \/ CheckResult.status r = error)
            /\ (CheckResult.latencyMs r = Some elapsed
                \/ CheckResult.latencyMs r = None))
        /\ (forall text, outcome = inl text ->
            CheckResult.latencyMs r = Some elapsed)
        /\ CheckResult.latencyMs r = Some elapsed
        /\ (forall e, outcome = inr e ->
            CheckResult.status r = error
            /\ CheckResult.message r = getErrorMessage e)).
Proof.
  split; [|split].
  - intros D v config run r elapsed. subst r elapsed. unfold checkWithAiSdk.
    destruct (AiSdk.stream run) as [chunks | e].
    + set (elapsed := (AiSdk.finishedAt run - AiSdk.startedAt run)%Z).
      assert (forall (b1 b2 : bool) (x y z : CheckResult.t),
                CheckResult.latencyMs x = Some elapsed ->
                CheckResult.latencyMs y = Some elapsed ->
                CheckResult.latencyMs z = Some elapsed ->
                CheckResult.latencyMs (if b1 then x else if b2 then y else z)
                = Some elapsed) as Hl
        by (intros [] [] ? ? ?; auto).
      match goal with
      | |- context [CheckResult.latencyMs ?t = None -> _] =>
          assert (CheckResult.latencyMs t = Some elapsed) as E
            by (apply Hl; reflexivity)
      end.
      rewrite E. refine (conj _ (conj _ (conj _ (conj _ _)))).
      * discriminate.
      * discriminate.
      * reflexivity.
      * split; [discriminate | intros [e He]; discriminate He].
      * discriminate.
    + cbn [CheckResult.latencyMs CheckResult.status].
      refine (conj _ (conj _ (conj _ (conj _ _)))); eauto.
      * discriminate.
      * split; eauto.
  - intros J R D v g config run outcome r elapsed. subst outcome r elapsed.
    unfold GeminiNative.checkWithGeminiNative.
    destruct (GeminiNative.requestPhase J R D config run) as [[text | e] requests];
      cbn [fst].
    + set (elapsed := (GeminiCommon.finishedAt run - GeminiCommon.startedAt run)%Z).
      assert (forall (b1 b2 : bool) (x y z : CheckResult.t),
                CheckResult.latencyMs x = Some elapsed ->
                CheckResult.latencyMs y = Some elapsed ->
                CheckResult.latencyMs z = Some elapsed ->
                CheckResult.latencyMs (if b1 then x else if b2 then y else z)
                = Some elapsed) as Hl
        by (intros [] [] ? ? ?; auto).
      match goal with
      | |- context [CheckResult.latencyMs ?t = None -> _] =>
          assert (CheckResult.latencyMs t = Some elapsed) as E
            by (apply Hl; reflexivity)
      end.
      rewrite E. refine (conj _ (conj _ (conj _ (conj _ _))));
        try discriminate; reflexivity.
    + cbn [CheckResult.latencyMs CheckResult.status CheckResult.message
             GeminiCommon.buildCheckResult].
      refine (conj _ (conj _ (conj _ (conj _ _))));
        try discriminate; try reflexivity.
      * intros e' _. split; [right; reflexivity | left; reflexivity].
      * by intros e' [= <-].
  - intros J R D v g configured config run outcome r elapsed.
    subst outcome r elapsed. unfold GeminiAction.checkWithGeminiNative.
    destruct (GeminiAction.requestPhase J R D config run) as [[text | e] requests];
      cbn [fst].
    + set (elapsed := (GeminiCommon.finishedAt run - GeminiCommon.startedAt run)%Z).
      assert (forall (b1 b2 : bool) (x y z : CheckResult.t),
                CheckResult.latencyMs x = Some elapsed ->
                CheckResult.latencyMs y = Some elapsed ->
                CheckResult.latencyMs z = Some elapsed ->
                CheckResult.latencyMs (if b1 then x else if b2 then y else z)
                = Some elapsed) as Hl
        by (intros [] [] ? ? ?; auto).
      match goal with
      | |- context [CheckResult.latencyMs ?t = None -> _] =>
          assert (CheckResult.latencyMs t = Some elapsed) as E
            by (apply Hl; reflexivity)
      end.
      rewrite E. refine (conj _ (conj _ (conj _ (conj _ _))));
        try discriminate; reflexivity.
    + cbn [CheckResult.latencyMs CheckResult.status CheckResult.message
             GeminiCommon.buildCheckResult].
      refine (conj _ (conj _ (conj _ (conj _ _))));
        try discriminate; try reflexivity.
      * intros e' _. split; [right; reflexivity | left; reflexivity].
      * by intros e' [= <-].
Qed.

Lemma latency_is_absent_only_on_the_no_response_path_witness :
  AiSdk.stream Samples.aborted = inr (Some Samples.abortError)
  /\ CheckResult.latencyMs
       (checkWithAiSdk Samples.defaults Samples.validate
          (Samples.provider openai None) Samples.aborted) = None
  /\ CheckResult.status
       (checkWithAiSdk Samples.defaults Samples.validate
          (Samples.provider openai None) Samples.aborted) = failed
  /\ fst (GeminiNative.requestPhase Samples.parse Samples.refusal
            (lit "https://default") (Samples.provider gemini None)
            Samples.refused)
     = inr (Some Samples.abortError)
  /\ CheckResult.status
       (fst (GeminiNative.checkWithGeminiNative Samples.parse Samples.refusal
               (lit "https://default") Samples.validate Samples.describe
               (Samples.provider gemini None) Samples.refused)) = error
  /\ CheckResult.latencyMs
       (fst (GeminiNative.checkWithGeminiNative Samples.parse Samples.refusal
               (lit "https://default") Samples.validate Samples.describe
               (Samples.provider gemini None) Samples.refused)) = Some 45002%Z.
Proof.
  destruct latency_is_absent_only_on_the_no_response_path as (Hsdk & Hgem & _).
  destruct (Hsdk Samples.defaults Samples.validate
              (Samples.provider openai None) Samples.aborted)
    as (_ & _ & _ & Hnone & Hfailed).
  destruct (Hgem Samples.parse Samples.refusal (lit "https://default")
              Samples.validate Samples.describe (Samples.provider gemini None)
              Samples.refused) as (_ & _ & _ & Hlat & Herr).
  split; [reflexivity|]. split; [apply Hnone; by eexists|].
  split; [by apply (Hfailed (Some Samples.abortError))|].
  split; [vm_compute; reflexivity|].
  split; [apply (Herr (Some Samples.abortError)); vm_compute; reflexivity|].
  rewrite Hlat. reflexivity.
Defined.

(** C7. Two executions of a check that differ at most in the outcome of
    the ping give results that agree on every field but the ping latency,
    in particular on status, latency and message; the ping latency of
    each result is the outcome of its ping.  The Gemini checks also send
    the same requests. *)
Theorem ping_only_fills_its_own_field :
  (forall DEFAULT_ENDPOINTS validateResponse config a b,
     AiSdk.same_but_ping a b ->
     let ra := checkWithAiSdk DEFAULT_ENDPOINTS validateResponse config a in
     let rb := checkWithAiSdk DEFAULT_ENDPOINTS validateResponse config b in
     agree_but_ping ra rb
     /\ CheckResult.pingLatencyMs ra = AiSdk.ping a
     /\ CheckResult.pingLatencyMs rb = AiSdk.ping b)
  /\ (forall JSON_parse refusalMessage default_gemini validateResponse
             getErrorMessage config a b,
        GeminiCommon.same_but_ping a b ->
        let ra := GeminiNative.checkWithGeminiNative JSON_parse refusalMessage
                    default_gemini validateResponse getErrorMessage config a in
        let rb := GeminiNative.checkWithGeminiNative JSON_parse refusalMessage
                    default_gemini validateResponse getErrorMessage config b in
        agree_but_ping (fst ra) (fst rb) /\ snd ra = snd rb
        /\ CheckResult.pingLatencyMs (fst ra) = GeminiCommon.ping a
        /\ CheckResult.pingLatencyMs (fst rb) = GeminiCommon.ping b)
  /\ (forall JSON_parse refusalMessage default_gemini validateResponse
             getErrorMessage configured config a b,
        GeminiCommon.same_but_ping a b ->
        let ra := GeminiAction.checkWithGeminiNative JSON_parse refusalMessage
                    default_gemini
                    validateResponse getErrorMessage configured config a in
        let rb := GeminiAction.checkWithGeminiNative JSON_parse refusalMessage
                    default_gemini
                    validateResponse getErrorMessage configured config b in
        agree_but_ping (fst ra) (fst rb) /\ snd ra = snd rb
        /\ CheckResult.pingLatencyMs (fst ra) = GeminiCommon.ping a
        /\ CheckResult.pingLatencyMs (fst rb) = GeminiCommon.ping b).
Proof.
  split; [|split].
  - intros D v config [s1 p1 c1 st1 f1 k1] [s2 p2 c2 st2 f2 k2]
      (E1 & E2 & E3 & E4 & E5). simpl in *. subst.
    unfold checkWithAiSdk. simpl. destruct st2 as [chunks | e].
    + destruct (negb (truthy _)); [by repeat split|].
      destruct (negb (valid _)); by repeat split.
    + by repeat split.
  - intros J R D v g config a b (E1 & E2 & E3 & E4 & E5).
    assert (GeminiNative.requestPhase J R D config a
            = GeminiNative.requestPhase J R D config b) as Hphase.
    { unfold GeminiNative.requestPhase. by rewrite E2, E3. }
    unfold GeminiNative.checkWithGeminiNative. rewrite Hphase, E1, E2, E4, E5.
    destruct (GeminiNative.requestPhase J R D config b) as [[text | e] requests];
      simpl.
    + destruct (negb (truthy _)); [by repeat split|].
      destruct (negb (valid _)); by repeat split.
    + by repeat split.
  - intros J R D v g configured config a b (E1 & E2 & E3 & E4 & E5).
    assert (GeminiAction.requestPhase J R D config a
            = GeminiAction.requestPhase J R D config b) as Hphase.
    { unfold GeminiAction.requestPhase, GeminiAction.paramsFor. by rewrite E2, E3. }
    unfold GeminiAction.checkWithGeminiNative. rewrite Hphase, E1, E2, E4, E5.
    destruct (GeminiAction.requestPhase J R D config b) as [[text | e] requests];
      simpl.
    + destruct (negb (truthy _)); [by repeat split|].
      destruct (negb (valid _)); by repeat split.
    + by repeat split.
Qed.

Lemma ping_only_fills_its_own_field_witness :
  AiSdk.same_but_ping Samples.pinged Samples.unpinged
  /\ CheckResult.status
       (checkWithAiSdk Samples.defaults Samples.validate
          (Samples.provider openai None) Samples.pinged)
     = CheckResult.status
         (checkWithAiSdk Samples.defaults Samples.validate
            (Samples.provider openai None) Samples.unpinged)
  /\ CheckResult.pingLatencyMs
       (checkWithAiSdk Samples.defaults Samples.validate
          (Samples.provider openai None) Samples.pinged) = Some 25%Z
  /\ CheckResult.pingLatencyMs
       (checkWithAiSdk Samples.defaults Samples.validate
          (Samples.provider openai None) Samples.unpinged) = None.
Proof.
  assert (AiSdk.same_but_ping Samples.pinged Samples.unpinged) as Hsame
    by (by repeat split).
  destruct ping_only_fills_its_own_field as (Hsdk & _ & _).
  destruct (Hsdk Samples.defaults Samples.validate
              (Samples.provider openai None) Samples.pinged Samples.unpinged Hsame)
    as (Hagree & Ha & Hb).
  split; [exact Hsame|]. split; [apply Hagree|]. split; [exact Ha | exact Hb].
Defined.

(** ** C5: the retry of the Gemini check *)

(** ** The [Headers] class *)

Lemma supplied_from (key : jstr) (entries : list (jstr * jstr))
    (found : option jstr) :
  fold_left
    (fun found kv =>
       if eqb (toLower (fst kv)) (toLower key) then Some (snd kv) else found)
    entries found
  = match supplied key entries with Some v => Some v | None => found end.
Proof.
  revert found. induction entries as [|[k v] entries IH]; intros found;
    [reflexivity|].
  unfold supplied. cbn [fold_left fst snd].
  rewrite IH, (IH (if eqb (toLower k) (toLower key) then Some v else None)).
  fold (supplied key entries).
  destruct (supplied key entries); [reflexivity|].
  by destruct (eqb (toLower k) (toLower key)).
Qed.

Lemma supplied_cons (key k v : jstr) (entries : list (jstr * jstr)) :
  supplied key ((k, v) :: entries)
  = match supplied key entries with
    | Some w => Some w
    | None => if eqb (toLower k) (toLower key) then Some v else None
    end.
Proof. unfold supplied at 1. cbn [fold_left fst snd]. apply supplied_from. Qed.

Lemma supplied_app (key : jstr) (l1 l2 : list (jstr * jstr)) :
  supplied key (l1 ++ l2)
  = match supplied key l2 with Some w => Some w | None => supplied key l1 end.
Proof. unfold supplied at 1. rewrite fold_left_app. apply supplied_from. Qed.

Lemma Headers_get_set (key k v : jstr) (h h' : gmap jstr jstr) :
  Headers_set k v h = Some h' ->
  Headers_accepts k v = true
  /\ Headers_get key h'
     = if eqb (toLower k) (toLower key) then Some (normalize_value v)
       else Headers_get key h.
Proof.
  unfold Headers_set. destruct (Headers_accepts k v); [|discriminate].
  intros [= <-]. split; [reflexivity|].
  unfold Headers_get, eqb. rewrite lookup_insert.
  destruct (decide (toLower k = toLower key)) as [E | E].
  - by rewrite bool_decide_eq_true_2.
  - by rewrite bool_decide_eq_false_2.
Qed.

Lemma Headers_set_accepted (k v : jstr) (h : gmap jstr jstr) :
  Headers_accepts k v = true ->
  Headers_set k v h = Some (<[toLower k := normalize_value v]> h).
Proof. unfold Headers_set. by intros ->. Qed.

Lemma Headers_set_refused (k v : jstr) (h : gmap jstr jstr) :
  Headers_set k v h = None <-> Headers_accepts k v = false.
Proof. unfold Headers_set. by destruct (Headers_accepts k v). Qed.

Lemma Headers_set_all_app (l1 l2 : list (jstr * jstr)) (h : gmap jstr jstr) :
  Headers_set_all (l1 ++ l2) h
  = match Headers_set_all l1 h with
    | inl h' => Headers_set_all l2 h'
    | inr refused => inr refused
    end.
Proof.
  revert h. induction l1 as [|[k v] l1 IH]; intros h; [reflexivity|].
  cbn [app Headers_set_all]. by destruct (Headers_set k v h).
Qed.

(** The header list that a run of [set] builds: every pair was accepted,
    and a name has the normalized value of the last pair that names it. *)
Lemma Headers_set_all_built (entries : list (jstr * jstr)) :
  forall h h' : gmap jstr jstr,
    Headers_set_all entries h = inl h' ->
    Forall (fun kv => Headers_accepts (fst kv) (snd kv) = true) entries
    /\ forall key,
         Headers_get key h'
         = match supplied key entries with
           | Some v => Some (normalize_value v)
           | None => Headers_get key h
           end.
Proof.
  induction entries as [|[k v] entries IH]; intros h h' H.
  - injection H as <-. by split.
  - cbn [Headers_set_all] in H.
    destruct (Headers_set k v h) as [h1|] eqn:E; [|discriminate].
    destruct (IH _ _ H) as [Hall Hget].
    split.
    + constructor; [exact (proj1 (Headers_get_set k k v h h1 E)) | exact Hall].
    + intros key. rewrite Hget, supplied_cons.
      destruct (supplied key entries); [reflexivity|].
      rewrite (proj2 (Headers_get_set key k v h h1 E)).
      by destruct (eqb (toLower k) (toLower key)).
Qed.

(** The pair on which a run of [set] throws is the first one that the
    class does not accept. *)
Lemma Headers_set_all_refused (entries : list (jstr * jstr)) :
  forall (h : gmap jstr jstr) (k v : jstr),
    Headers_set_all entries h = inr (k, v) ->
    Headers_accepts k v = false
    /\ exists before after,
         entries = before ++ (k, v) :: after
         /\ Forall (fun kv => Headers_accepts (fst kv) (snd kv) = true) before.
Proof.
  induction entries as [|[k0 v0] entries IH]; intros h k v H; [discriminate|].
  cbn [Headers_set_all] in H.
  destruct (Headers_set k0 v0 h) as [h1|] eqn:E.
  - destruct (IH _ _ _ H) as (Hno & before & after & -> & Hall).
    split; [exact Hno|]. exists ((k0, v0) :: before), after.
    split; [reflexivity|]. constructor; [|exact Hall].
    exact (proj1 (Headers_get_set k0 k0 v0 h h1 E)).
  - injection H as <- <-. split; [by apply Headers_set_refused in E|].
    exists [], entries. by split.
Qed.

Lemma Headers_set_all_accepted (entries : list (jstr * jstr)) :
  forall h : gmap jstr jstr,
    Forall (fun kv => Headers_accepts (fst kv) (snd kv) = true) entries ->
    exists h', Headers_set_all entries h = inl h'.
Proof.
  induction entries as [|[k v] entries IH]; intros h Hall; [by eexists|].
  inversion Hall as [|? ? Hkv Hrest]; subst. cbn [fst snd] in Hkv.
  cbn [Headers_set_all]. rewrite (Headers_set_accepted k v h Hkv). by apply IH.
Qed.

(** The credential after normalization: the blank after [Bearer] goes
    with a key that holds nothing but HTTP whitespace. *)
Lemma normalize_bearer (apiKey : jstr) :
  normalize_value (lit "Bearer " ++ apiKey)
  = match dropWhileEnd is_http_whitespace apiKey with
    | [] => lit "Bearer"
    | key => lit "Bearer " ++ key
    end.
Proof.
  assert (lit "Bearer " = lit "Bearer" ++ [32]) as -> by (vm_compute; reflexivity).
  unfold normalize_value. rewrite <- app_assoc.
  assert (forall rest, dropWhile is_http_whitespace (lit "Bearer" ++ rest)
                       = lit "Bearer" ++ rest) as -> by reflexivity.
  rewrite dropWhileEnd_app_stable;
    [| vm_compute; reflexivity | vm_compute; discriminate].
  cbn [app]. rewrite dropWhileEnd_cons.
  destruct (dropWhileEnd is_http_whitespace apiKey) as [|c key].
  - change (is_http_whitespace 32) with true. cbn iota. apply app_nil_r.
  - by rewrite <- app_assoc.
Qed.

(** The headers of the action-aware revision are those of the revision
    before it, with [Accept] set at the end, which never throws. *)
Lemma requestHeadersOf_action (params : GeminiAction.Params) :
  GeminiAction.requestHeadersOf params
  = match Headers_set_all
            ([ (lit "Authorization", lit "Bearer " ++ GeminiAction.apiKey params);
               (lit "Content-Type", lit "application/json");
               (lit "User-Agent", lit "check-cx/0.1.0") ]
             ++ default [] (GeminiAction.requestHeaders params)
             ++ [ (lit "Authorization",
                   lit "Bearer " ++ GeminiAction.apiKey params);
                  (lit "Content-Type", lit "application/json") ]) ∅ with
    | inl h =>
        inl (<[lit "accept" :=
                 GeminiAction.acceptOf (GeminiAction.actionOf params)]> h)
    | inr refused => inr refused
    end.
Proof.
  unfold GeminiAction.requestHeadersOf, GeminiAction.headerCalls. cbv zeta.
  set (bearer := lit "Bearer " ++ GeminiAction.apiKey params).
  set (pre := [ (lit "Authorization", bearer);
                (lit "Content-Type", lit "application/json");
                (lit "User-Agent", lit "check-cx/0.1.0") ]).
  set (entries := default [] (GeminiAction.requestHeaders params)).
  set (a := GeminiAction.actionOf params).
  assert (pre ++ entries
          ++ [ (lit "Authorization", bearer);
               (lit "Content-Type", lit "application/json");
               (lit "Accept", GeminiAction.acceptOf a) ]
          = (pre ++ entries
             ++ [ (lit "Authorization", bearer);
                  (lit "Content-Type", lit "application/json") ])
            ++ [ (lit "Accept", GeminiAction.acceptOf a) ]) as ->
    by (by rewrite <- !app_assoc).
  rewrite Headers_set_all_app.
  destruct (Headers_set_all _ ∅) as [h | refused]; [|reflexivity].
  cbn [Headers_set_all].
  assert (Headers_accepts (lit "Accept") (GeminiAction.acceptOf a) = true) as Hacc
    by (destruct a; vm_compute; reflexivity).
  rewrite (Headers_set_accepted _ _ h Hacc).
  assert (toLower (lit "Accept") = lit "accept") as ->
    by (vm_compute; reflexivity).
  assert (normalize_value (GeminiAction.acceptOf a) = GeminiAction.acceptOf a)
    as -> by (destruct a; vm_compute; reflexivity).
  reflexivity.
Qed.

(** The two calls of the action-aware check build their requests from the
    same configuration: both go out, to the address of their action, or
    the first call already throws on a header that is refused. *)
Lemma action_requests (JSON_parse : jstr -> option json)
    (refusalMessage : jstr -> jstr -> jstr) (default_gemini : jstr)
    (config : ProviderConfig.t) (run : GeminiCommon.Run) :
  let endpoint := GeminiCommon.displayEndpoint default_gemini config in
  let first :=
    GeminiAction.requestGeminiNative JSON_parse refusalMessage (fetch run 0%nat)
      (GeminiAction.paramsFor default_gemini config run
         GeminiAction.streamGenerateContent) in
  let second :=
    GeminiAction.requestGeminiNative JSON_parse refusalMessage (fetch run 1%nat)
      (GeminiAction.paramsFor default_gemini config run
         GeminiAction.generateContent) in
  (exists r1 r2,
     snd first = [r1] /\ snd second = [r2]
     /\ url r1
        = GeminiAction.resolveGeminiUrlForAction endpoint
            (ProviderConfig.model config) GeminiAction.streamGenerateContent
     /\ url r2
        = GeminiAction.resolveGeminiUrlForAction endpoint
            (ProviderConfig.model config) GeminiAction.generateContent)
  \/ (exists key value,
        Headers_accepts key value = false
        /\ first = (inr (Some (typeError (refusalMessage key value))), [])).
Proof.
  intros endpoint first second. subst first second.
  unfold GeminiAction.requestGeminiNative, GeminiAction.requestOf.
  rewrite !requestHeadersOf_action.
  cbn [GeminiAction.paramsFor GeminiAction.apiKey GeminiAction.requestHeaders
         GeminiAction.endpoint GeminiAction.model GeminiAction.prompt].
  destruct (Headers_set_all _ ∅) as [h | [key value]] eqn:E.
  - left. eexists _, _. repeat split.
  - right. exists key, value. split; [|reflexivity].
    by apply Headers_set_all_refused in E as [E _].
Qed.

(** C5. The action-aware Gemini check sends its first request with the
    streaming action.  It sends a second one exactly when the first
    returned a text that is blank after trimming; that second request is
    the last, it uses the action [generateContent] on the same endpoint
    and model, and nothing else goes out.  When both attempts return a
    blank text the result is failed with the message for an empty reply.
    The one case without a first request is that of a credential or a
    configured header that the [Headers] class refuses: the first call
    then throws before it sends anything, nothing goes out and the result
    is error. *)
Theorem gemini_retries_once_without_streaming
    (JSON_parse : jstr -> option json)
    (refusalMessage : jstr -> jstr -> jstr) (default_gemini : jstr)
    (validateResponse : jstr -> jstr -> Validation)
    (getErrorMessage : thrown -> jstr) (configured : option Z)
    (config : ProviderConfig.t) (run : GeminiCommon.Run) :
  let endpoint := GeminiCommon.displayEndpoint default_gemini config in
  let first :=
    GeminiAction.requestGeminiNative JSON_parse refusalMessage (fetch run 0%nat)
      (GeminiAction.paramsFor default_gemini config run
         GeminiAction.streamGenerateContent) in
  let second :=
    GeminiAction.requestGeminiNative JSON_parse refusalMessage (fetch run 1%nat)
      (GeminiAction.paramsFor default_gemini config run
         GeminiAction.generateContent) in
  let result :=
    GeminiAction.checkWithGeminiNative JSON_parse refusalMessage default_gemini
      validateResponse getErrorMessage configured config run in
  (snd result = snd first \/ snd result = snd first ++ snd second)
  /\ ((exists r1 r2, snd result = [r1; r2])
      <-> exists t, fst first = inl t /\ trim t = [])
  /\ ((exists r1 r2,
         snd first = [r1] /\ snd second = [r2]
         /\ (snd result = [r1] \/ snd result = [r1; r2])
         /\ url r1
            = GeminiAction.resolveGeminiUrlForAction endpoint
                (ProviderConfig.model config) GeminiAction.streamGenerateContent
         /\ url r2
            = GeminiAction.resolveGeminiUrlForAction endpoint
                (ProviderConfig.model config) GeminiAction.generateContent)
      \/ (exists key value,
            Headers_accepts key value = false
            /\ first = (inr (Some (typeError (refusalMessage key value))), [])
            /\ snd result = []
            /\ CheckResult.status (fst result) = error))
  /\ (forall t1 t2,
        fst first = inl t1 -> trim t1 = [] ->
        fst second = inl t2 -> trim t2 = [] ->
        CheckResult.status (fst result) = failed
        /\ CheckResult.message (fst result) = lit "回复为空").
Proof.
  intros endpoint first second result.
  assert (snd result
          = snd (GeminiAction.requestPhase JSON_parse refusalMessage
                   default_gemini config run)) as Hreq.
  { subst result. unfold GeminiAction.checkWithGeminiNative.
    by destruct (GeminiAction.requestPhase _ _ _ _ _). }
  assert (GeminiAction.requestPhase JSON_parse refusalMessage default_gemini
            config run
          = match first with
            | (inl responseText, r1) =>
                if negb (truthy (trim responseText))
                then (fst second, r1 ++ snd second)
                else (inl responseText, r1)
            | (inr err, r1) => (inr err, r1)
            end) as Hphase.
  { unfold GeminiAction.requestPhase. fold first. fold second.
    destruct first as [[t | e] r1]; [|reflexivity].
    destruct (negb _); [|reflexivity]. by destruct second. }
  pose proof (action_requests JSON_parse refusalMessage default_gemini config run)
    as Hsent.
  cbv zeta in Hsent. fold endpoint first second in Hsent.
  assert (snd result = snd first \/ snd result = snd first ++ snd second) as Hlist.
  { rewrite Hreq, Hphase. destruct first as [[t | e] r1]; simpl; auto.
    destruct (negb _); simpl; auto. }
  assert ((exists t, fst first = inl t /\ trim t = []) ->
          snd result = snd first ++ snd second) as Hblank.
  { intros (t & Ht & Hb). rewrite Hreq, Hphase.
    destruct first as [[t' | e] r1]; simpl in Ht; [|discriminate].
    injection Ht as ->. by rewrite Hb. }
  assert (~ (exists t, fst first = inl t /\ trim t = []) ->
          snd result = snd first) as Hother.
  { intros Hno. rewrite Hreq, Hphase.
    destruct first as [[t | e] r1]; simpl; [|reflexivity].
    destruct (truthy (trim t)) eqn:Ht; [reflexivity|].
    apply truthy_false in Ht. exfalso. apply Hno. by exists t. }
  assert ((exists t, fst first = inl t /\ trim t = [])
          \/ ~ (exists t, fst first = inl t /\ trim t = [])) as Hdec.
  { destruct (fst first) as [t | e].
    - destruct (decide (trim t = [])) as [E | E].
      + left. by exists t.
      + right. intros (t' & [= <-] & Hb). contradiction.
    - right. intros (t' & Ht & _). discriminate. }
  split; [exact Hlist|]. split; [|split].
  - split.
    + intros (r1 & r2 & Htwo). destruct Hdec as [Hb | Hno]; [exact Hb|].
      exfalso. rewrite (Hother Hno) in Htwo.
      destruct Hsent as [(q1 & q2 & H1 & _) | (key & value & _ & H1)].
      * rewrite H1 in Htwo. discriminate.
      * rewrite H1 in Htwo. discriminate.
    + intros Hb. rewrite (Hblank Hb).
      destruct Hsent as [(q1 & q2 & H1 & H2 & _) | (key & value & _ & H1)].
      * exists q1, q2. by rewrite H1, H2.
      * destruct Hb as (t & Ht & _). rewrite H1 in Ht. discriminate.
  - destruct Hsent as [(q1 & q2 & H1 & H2 & U1 & U2) | (key & value & Hno & H1)].
    + left. exists q1, q2. repeat split; auto.
      destruct Hdec as [Hb | Hnb].
      * right. by rewrite (Hblank Hb), H1, H2.
      * left. by rewrite (Hother Hnb), H1.
    + right. exists key, value. split; [exact Hno|]. split; [exact H1|].
      split.
      * rewrite Hreq, Hphase, H1. reflexivity.
      * subst result. unfold GeminiAction.checkWithGeminiNative.
        rewrite Hphase, H1. reflexivity.
  - intros t1 t2 H1 Hb1 H2 Hb2. subst result.
    unfold GeminiAction.checkWithGeminiNative. rewrite Hphase.
    destruct first as [[t | e] r1]; simpl in H1; [|discriminate].
    injection H1 as ->. rewrite Hb1. cbn [truthy negb]. rewrite H2, Hb2. by split.
Qed.

Lemma gemini_retries_once_without_streaming_witness :
  fst (GeminiAction.requestGeminiNative Samples.parse Samples.refusal
         (fetch Samples.blankReplies 0%nat)
         (GeminiAction.paramsFor (lit "https://default")
            (Samples.provider gemini None) Samples.blankReplies
            GeminiAction.streamGenerateContent)) = inl []
  /\ fst (GeminiAction.requestGeminiNative Samples.parse Samples.refusal
            (fetch Samples.blankReplies 1%nat)
            (GeminiAction.paramsFor (lit "https://default")
               (Samples.provider gemini None) Samples.blankReplies
               GeminiAction.generateContent)) = inl []
  /\ List.map url
       (snd (GeminiAction.checkWithGeminiNative Samples.parse Samples.refusal
               (lit "https://default") Samples.validate Samples.describe None
               (Samples.provider gemini None) Samples.blankReplies))
     = [lit "https://h/v1beta/models/m:streamGenerateContent";
        lit "https://h/v1beta/models/m:generateContent"]
  /\ CheckResult.status
       (fst (GeminiAction.checkWithGeminiNative Samples.parse Samples.refusal
               (lit "https://default") Samples.validate Samples.describe None
               (Samples.provider gemini None) Samples.blankReplies)) = failed
  /\ CheckResult.message
       (fst (GeminiAction.checkWithGeminiNative Samples.parse Samples.refusal
               (lit "https://default") Samples.validate Samples.describe None
               (Samples.provider gemini None) Samples.blankReplies))
     = lit "回复为空".
Proof.
  assert (fst (GeminiAction.requestGeminiNative Samples.parse Samples.refusal
                 (fetch Samples.blankReplies 0%nat)
                 (GeminiAction.paramsFor (lit "https://default")
                    (Samples.provider gemini None) Samples.blankReplies
                    GeminiAction.streamGenerateContent)) = inl []) as F1
    by (vm_compute; reflexivity).
  assert (fst (GeminiAction.requestGeminiNative Samples.parse Samples.refusal
                 (fetch Samples.blankReplies 1%nat)
                 (GeminiAction.paramsFor (lit "https://default")
                    (Samples.provider gemini None) Samples.blankReplies
                    GeminiAction.generateContent)) = inl []) as F2
    by (vm_compute; reflexivity).
  pose proof (gemini_retries_once_without_streaming Samples.parse
                Samples.refusal (lit "https://default") Samples.validate
                Samples.describe None (Samples.provider gemini None)
                Samples.blankReplies)
    as (_ & Htwice & Hsent & Hfailed).
  split; [exact F1|]. split; [exact F2|]. split.
  - destruct Htwice as [_ Htwice].
    destruct Htwice as (s1 & s2 & Htwo); [exists []; by split|].
    destruct Hsent as [(r1 & r2 & _ & _ & Hres & U1 & U2)
                      | (key & value & _ & _ & Hnone & _)].
    + destruct Hres as [Hres | Hres]; rewrite Hres in Htwo; [discriminate|].
      rewrite Hres. cbn [List.map]. rewrite U1, U2. vm_compute. reflexivity.
    + rewrite Hnone in Htwo. discriminate.
  - apply (Hfailed [] []); [exact F1 | reflexivity | exact F2 | reflexivity].
Defined.

(** ** C10: the headers of a Gemini request *)

(** The calls that both revisions make: the three entries of the
    constructor, the entries of the configuration, and the credential and
    the content type once more. *)
Lemma forced_headers (bearer : jstr) (entries : list (jstr * jstr)) :
  let calls :=
    [ (lit "Authorization", bearer);
      (lit "Content-Type", lit "application/json");
      (lit "User-Agent", lit "check-cx/0.1.0") ]
    ++ entries
    ++ [ (lit "Authorization", bearer);
         (lit "Content-Type", lit "application/json") ] in
  ((exists h, Headers_set_all calls ∅ = inl h)
   <-> Headers_accepts (lit "Authorization") bearer = true
       /\ Forall (fun kv => Headers_accepts (fst kv) (snd kv) = true) entries)
  /\ (forall h key,
        Headers_set_all calls ∅ = inl h ->
        Headers_get (lit "Authorization") h = Some (normalize_value bearer)
        /\ Headers_get (lit "Content-Type") h = Some (lit "application/json")
        /\ (toLower key <> lit "authorization" ->
            toLower key <> lit "content-type" ->
            Headers_get key h
            = match supplied key entries with
              | Some v => Some (normalize_value v)
              | None => if eqb (toLower key) (lit "user-agent")
                        then Some (lit "check-cx/0.1.0") else None
              end))
  /\ (forall key value,
        Headers_set_all calls ∅ = inr (key, value) ->
        Headers_accepts key value = false
        /\ ((key, value) = (lit "Authorization", bearer)
            \/ In (key, value) entries)).
Proof.
  intros calls.
  assert (Headers_accepts (lit "Content-Type") (lit "application/json") = true)
    as Hct by (vm_compute; reflexivity).
  assert (Headers_accepts (lit "User-Agent") (lit "check-cx/0.1.0") = true)
    as Hua by (vm_compute; reflexivity).
  split; [|split].
  - split.
    + intros [h Hh]. apply Headers_set_all_built in Hh as [Hall _].
      subst calls. apply Forall_app in Hall as [Hpre Hall].
      apply Forall_app in Hall as [Hentries _].
      split; [|exact Hentries]. by inversion Hpre.
    + intros [Hauth Hentries]. apply Headers_set_all_accepted. subst calls.
      apply Forall_app. split; [|apply Forall_app; split; [exact Hentries|]];
        repeat constructor; assumption.
  - intros h key Hh. apply Headers_set_all_built in Hh as [_ Hget].
    assert (forall name : jstr, Headers_get name (∅ : gmap jstr jstr) = None)
      as Hempty by (intros name; apply lookup_empty).
    assert (forall (name k : jstr) v rest,
              toLower name <> toLower k ->
              supplied name ((k, v) :: rest) = supplied name rest) as Hskip.
    { intros name k v rest Hne. rewrite supplied_cons.
      destruct (supplied name rest); [reflexivity|].
      assert (eqb (toLower k) (toLower name) = false) as ->
        by (apply eqb_neq; congruence).
      reflexivity. }
    assert (forall (k : jstr) v rest,
              supplied k (rest ++ [(k, v)]) = Some v) as Hlast.
    { intros k v rest. rewrite supplied_app, supplied_cons.
      change (supplied k []) with (@None jstr).
      assert (eqb (toLower k) (toLower k) = true) as -> by (by apply eqb_eq).
      reflexivity. }
    split; [|split].
    + rewrite Hget. subst calls.
      assert (normalize_value (lit "application/json") = lit "application/json")
        as Hn by (vm_compute; reflexivity).
      rewrite !supplied_app.
      rewrite (supplied_cons (lit "Authorization") (lit "Authorization")).
      rewrite (Hskip (lit "Authorization") (lit "Content-Type"))
        by (vm_compute; discriminate).
      change (supplied (lit "Authorization") []) with (@None jstr).
      assert (eqb (toLower (lit "Authorization")) (toLower (lit "Authorization"))
              = true) as -> by (by apply eqb_eq).
      reflexivity.
    + rewrite Hget. subst calls.
      rewrite !supplied_app.
      rewrite (supplied_cons (lit "Content-Type") (lit "Authorization")).
      rewrite (supplied_cons (lit "Content-Type") (lit "Content-Type")).
      change (supplied (lit "Content-Type") []) with (@None jstr).
      assert (eqb (toLower (lit "Content-Type")) (toLower (lit "Content-Type"))
              = true) as -> by (by apply eqb_eq).
      cbv iota. vm_compute. reflexivity.
    + intros Ha Hc. rewrite Hget. subst calls.
      assert (toLower key <> toLower (lit "Authorization")) as Ha' by exact Ha.
      assert (toLower key <> toLower (lit "Content-Type")) as Hc' by exact Hc.
      rewrite !supplied_app.
      rewrite !(Hskip key (lit "Authorization")) by exact Ha'.
      rewrite !(Hskip key (lit "Content-Type")) by exact Hc'.
      change (supplied key []) with (@None jstr). cbv iota.
      destruct (supplied key entries); [reflexivity|].
      rewrite supplied_cons. change (supplied key []) with (@None jstr).
      rewrite Hempty.
      assert (toLower (lit "User-Agent") = lit "user-agent") as ->
        by (vm_compute; reflexivity).
      assert (eqb (lit "user-agent") (toLower key)
              = eqb (toLower key) (lit "user-agent")) as ->.
      { apply eq_true_iff_eq. rewrite !eqb_eq. split; congruence. }
      destruct (eqb (toLower key) (lit "user-agent")); [|reflexivity].
      vm_compute. reflexivity.
  - intros key value Hno.
    apply Headers_set_all_refused in Hno
      as (Hno & before & after & Hcalls & _).
    split; [exact Hno|].
    assert (In (key, value) calls) as Hin by (rewrite Hcalls; apply in_elt).
    subst calls. apply in_app_or in Hin as [Hin | Hin];
      [|apply in_app_or in Hin as [Hin | Hin]; [by right|]].
    + destruct Hin as [E | [E | [E | []]]]; [by left | |];
        injection E as <- <-; congruence.
    + destruct Hin as [E | [E | []]]; [by left|].
      injection E as <- <-. congruence.
Qed.

Lemma accept_is_forced (params : GeminiAction.Params) (h : gmap jstr jstr) :
  GeminiAction.requestHeadersOf params = inl h ->
  Headers_get (lit "Accept") h
  = Some (GeminiAction.acceptOf (GeminiAction.actionOf params)).
Proof.
  rewrite requestHeadersOf_action.
  destruct (Headers_set_all _ ∅) as [h0 | refused]; [|discriminate].
  intros [= <-]. unfold Headers_get.
  assert (toLower (lit "Accept") = lit "accept") as ->
    by (vm_compute; reflexivity).
  by rewrite lookup_insert_eq.
Qed.

(** C10, as the code has it.  The [Headers] object is built exactly when
    the class accepts the credential [Bearer <apiKey>] and every header
    of the configuration; it is then the one of the request that goes
    out.  It carries the credential under [Authorization], normalized as
    every value is: without the HTTP whitespace at its two ends, so
    without the blank after [Bearer] when the key holds nothing else.  It
    carries [Content-Type: application/json], and in the action-aware
    revision [Accept] with the value of the action, whatever the
    configuration supplies under these names.  Every other header has the
    normalized value of the last supplied entry with its name, compared
    without case; when none is supplied, [User-Agent] keeps its default
    and the header is otherwise absent.  When the credential or an entry
    is refused, [requestGeminiNative] throws the [TypeError] of the first
    pair refused and nothing goes out. *)
Theorem forced_headers_are_not_overridden :
  (forall params,
     let entries := default [] (GeminiNative.requestHeaders params) in
     let bearer := lit "Bearer " ++ GeminiNative.apiKey params in
     ((exists h, GeminiNative.requestHeadersOf params = inl h)
      <-> Headers_accepts (lit "Authorization") bearer = true
          /\ Forall (fun kv => Headers_accepts (fst kv) (snd kv) = true) entries)
     /\ (forall h,
           GeminiNative.requestHeadersOf params = inl h ->
           (exists request,
              GeminiNative.requestOf params = inl request
              /\ headers request = h
              /\ forall JSON_parse refusalMessage transport,
                   snd (GeminiNative.requestGeminiNative JSON_parse
                          refusalMessage transport params) = [request])
           /\ Headers_get (lit "Authorization") h = Some (normalize_value bearer)
           /\ Headers_get (lit "Content-Type") h = Some (lit "application/json")
           /\ forall key,
                toLower key <> lit "authorization" ->
                toLower key <> lit "content-type" ->
                Headers_get key h
                = match supplied key entries with
                  | Some v => Some (normalize_value v)
                  | None => if eqb (toLower key) (lit "user-agent")
                            then Some (lit "check-cx/0.1.0") else None
                  end)
     /\ (forall key value,
           GeminiNative.requestHeadersOf params = inr (key, value) ->
           Headers_accepts key value = false
           /\ ((key, value) = (lit "Authorization", bearer)
               \/ In (key, value) entries)
           /\ forall JSON_parse refusalMessage transport,
                GeminiNative.requestGeminiNative JSON_parse refusalMessage
                  transport params
                = (inr (Some (typeError (refusalMessage key value))), []))
     /\ normalize_value bearer
        = match dropWhileEnd is_http_whitespace (GeminiNative.apiKey params) with
          | [] => lit "Bearer"
          | key => lit "Bearer " ++ key
          end)
  /\ (forall params,
        let entries := default [] (GeminiAction.requestHeaders params) in
        let bearer := lit "Bearer " ++ GeminiAction.apiKey params in
        ((exists h, GeminiAction.requestHeadersOf params = inl h)
         <-> Headers_accepts (lit "Authorization") bearer = true
             /\ Forall (fun kv => Headers_accepts (fst kv) (snd kv) = true)
                  entries)
        /\ (forall h,
              GeminiAction.requestHeadersOf params = inl h ->
              (exists request,
                 GeminiAction.requestOf params = inl request
                 /\ headers request = h
                 /\ forall JSON_parse refusalMessage transport,
                      snd (GeminiAction.requestGeminiNative JSON_parse
                             refusalMessage transport params) = [request])
              /\ Headers_get (lit "Authorization") h
                 = Some (normalize_value bearer)
              /\ Headers_get (lit "Content-Type") h
                 = Some (lit "application/json")
              /\ Headers_get (lit "Accept") h
                 = Some (match GeminiAction.actionOf params with
                         | GeminiAction.streamGenerateContent =>
                             lit "application/json, text/event-stream"
                         | GeminiAction.generateContent => lit "application/json"
                         end)
              /\ forall key,
                   toLower key <> lit "authorization" ->
                   toLower key <> lit "content-type" ->
                   toLower key <> lit "accept" ->
                   Headers_get key h
                   = match supplied key entries with
                     | Some v => Some (normalize_value v)
                     | None => if eqb (toLower key) (lit "user-agent")
                               then Some (lit "check-cx/0.1.0") else None
                     end)
        /\ (forall key value,
              GeminiAction.requestHeadersOf params = inr (key, value) ->
              Headers_accepts key value = false
              /\ ((key, value) = (lit "Authorization", bearer)
                  \/ In (key, value) entries)
              /\ forall JSON_parse refusalMessage transport,
                   GeminiAction.requestGeminiNative JSON_parse refusalMessage
                     transport params
                   = (inr (Some (typeError (refusalMessage key value))), []))
        /\ normalize_value bearer
           = match dropWhileEnd is_http_whitespace (GeminiAction.apiKey params)
             with
             | [] => lit "Bearer"
             | key => lit "Bearer " ++ key
             end).
Proof.
  split.
  - intros params entries bearer.
    destruct (forced_headers bearer entries) as (Hbuilt & Hget & Hno).
    change (Headers_set_all _ ∅) with (GeminiNative.requestHeadersOf params)
      in Hbuilt, Hget, Hno.
    split; [exact Hbuilt|]. split; [|split; [|apply normalize_bearer]].
    + intros h Hh.
      destruct (Hget h [] Hh) as (Hauth & Hct & _).
      split; [|split; [exact Hauth|split; [exact Hct|]]].
      * eexists. unfold GeminiNative.requestGeminiNative, GeminiNative.requestOf.
        rewrite Hh. repeat split.
      * intros key. by apply (Hget h key Hh).
    + intros key value Hrefused.
      destruct (Hno key value Hrefused) as [Hacc Hin].
      split; [exact Hacc|]. split; [exact Hin|].
      intros J R transport.
      unfold GeminiNative.requestGeminiNative, GeminiNative.requestOf.
      by rewrite Hrefused.
  - intros params entries bearer.
    destruct (forced_headers bearer entries) as (Hbuilt & Hget & Hno).
    pose proof (requestHeadersOf_action params) as Hshape.
    fold bearer entries in Hshape.
    set (common := Headers_set_all _ ∅) in Hbuilt, Hget, Hno, Hshape.
    split; [|split; [|split; [|apply normalize_bearer]]].
    + rewrite <- Hbuilt, Hshape. destruct common as [h0 | refused].
      * split; intros _; by eexists.
      * split; intros [h Hh]; discriminate.
    + intros h Hh. rewrite Hshape in Hh.
      destruct common as [h0 | refused]; [|discriminate].
      injection Hh as <-.
      assert (forall key,
                Headers_get key
                  (<[lit "accept" :=
                       GeminiAction.acceptOf (GeminiAction.actionOf params)]> h0)
                = if eqb (lit "accept") (toLower key)
                  then Some (GeminiAction.acceptOf (GeminiAction.actionOf params))
                  else Headers_get key h0) as Hacc.
      { intros key. unfold Headers_get, eqb. rewrite lookup_insert.
        destruct (decide (lit "accept" = toLower key)) as [E | E].
        - by rewrite bool_decide_eq_true_2.
        - by rewrite bool_decide_eq_false_2. }
      assert (forall key, toLower key <> lit "accept" ->
                eqb (lit "accept") (toLower key) = false) as Hother
        by (intros key Hne; apply eqb_neq; congruence).
      destruct (Hget h0 [] eq_refl) as (Hauth & Hct & _).
      split; [|split; [|split; [|split]]].
      * eexists. unfold GeminiAction.requestGeminiNative, GeminiAction.requestOf.
        rewrite Hshape. repeat split.
      * rewrite Hacc, Hother; [exact Hauth | vm_compute; discriminate].
      * rewrite Hacc, Hother; [exact Hct | vm_compute; discriminate].
      * rewrite Hacc.
        assert (eqb (lit "accept") (toLower (lit "Accept")) = true) as ->
          by (vm_compute; reflexivity).
        reflexivity.
      * intros key Ha Hc Hk. rewrite Hacc, (Hother key Hk).
        by apply (Hget h0 key eq_refl).
    + intros key value Hrefused. rewrite Hshape in Hrefused.
      destruct common as [h0 | refused]; [discriminate|].
      injection Hrefused as ->.
      destruct (Hno key value eq_refl) as [Hacc Hin].
      split; [exact Hacc|]. split; [exact Hin|].
      intros J R transport.
      unfold GeminiAction.requestGeminiNative, GeminiAction.requestOf.
      by rewrite Hshape.
Qed.

Lemma forced_headers_are_not_overridden_witness :
  (exists h,
     GeminiNative.requestHeadersOf Samples.intrusive = inl h
     /\ Headers_get (lit "Authorization") h = Some (lit "Bearer sk-test")
     /\ Headers_get (lit "X-TRACE") h = Some (lit "b"))
  /\ (exists h,
        GeminiNative.requestHeadersOf Samples.keyless = inl h
        /\ Headers_get (lit "Authorization") h = Some (lit "Bearer"))
  /\ GeminiNative.requestHeadersOf Samples.misnamed
     = inr (lit "X Trace", lit "a")
  /\ GeminiNative.requestGeminiNative Samples.parse Samples.refusal
       (fetch Samples.fastAnswer 0%nat) Samples.misnamed
     = (inr (Some (typeError (lit "Invalid header: X Trace"))), []).
Proof.
  destruct forced_headers_are_not_overridden as [H _].
  split; [|split].
  - destruct (H Samples.intrusive) as (Hbuilt & Hget & _ & Hbearer).
    destruct (proj2 Hbuilt) as [h Hh].
    { split; [vm_compute; reflexivity|]. vm_compute. repeat constructor. }
    exists h. split; [exact Hh|].
    destruct (Hget h Hh) as (_ & Hauth & _ & Hrest).
    split.
    + rewrite Hauth, Hbearer. vm_compute. reflexivity.
    + rewrite (Hrest (lit "X-TRACE"));
        [vm_compute; reflexivity | vm_compute; discriminate
         | vm_compute; discriminate].
  - destruct (H Samples.keyless) as (Hbuilt & Hget & _ & Hbearer).
    destruct (proj2 Hbuilt) as [h Hh].
    { split; [vm_compute; reflexivity|]. vm_compute. repeat constructor. }
    exists h. split; [exact Hh|].
    destruct (Hget h Hh) as (_ & Hauth & _).
    rewrite Hauth, Hbearer. vm_compute. reflexivity.
  - destruct (H Samples.misnamed) as (_ & _ & Hno & _).
    assert (GeminiNative.requestHeadersOf Samples.misnamed
            = inr (lit "X Trace", lit "a")) as Hrefused
      by (vm_compute; reflexivity).
    split; [exact Hrefused|].
    destruct (Hno _ _ Hrefused) as (_ & _ & Hthrows).
    rewrite Hthrows. vm_compute. reflexivity.
Defined.

(** C10, as stated, fails on the action-aware revision, even when the
    claim is read for the requests that are built and up to the
    normalization of the values: an [Accept] header of the configuration
    is not applied, the request carries the value of its action instead. *)
Lemma supplied_accept_is_replaced :
  ~ (forall params key v h,
       toLower key <> lit "authorization" ->
       toLower key <> lit "content-type" ->
       supplied key (default [] (GeminiAction.requestHeaders params)) = Some v ->
       GeminiAction.requestHeadersOf params = inl h ->
       Headers_get key h = Some (normalize_value v)).
Proof.
  intros H.
  destruct (Headers_set_all_accepted
              (GeminiAction.headerCalls Samples.plainTextWanted) ∅) as [h Hh];
    [vm_compute; repeat constructor|].
  specialize (H Samples.plainTextWanted (lit "Accept") (lit "text/plain") h).
  pose proof (accept_is_forced _ _ Hh) as Hacc.
  rewrite H in Hacc;
    [| vm_compute; discriminate | vm_compute; discriminate | reflexivity
     | exact Hh].
  vm_compute in Hacc. discriminate.
Qed.

(** ** C4: the single flight of the poller *)

Import Poller.

Section PollerFacts.

Variable POLL_INTERVAL_MS : Z.

Lemma tick_keeps_single_flight (st : State) (now : Z) :
  single_flight st -> (0 < now)%Z ->
  single_flight (fst (tick POLL_INTERVAL_MS st now)).
Proof.
  intros [[Hrun Hq] | [Hrun Hq]] Hnow; unfold tick; rewrite Hrun; simpl.
  - right. split; [reflexivity|]. exists (AwaitingChecks now).
    rewrite Hq. by repeat split.
  - right. by split.
Qed.

Lemma finish_idle (st : State) (p : Suspended) :
  inflight st = [p] ->
  __checkCxPollerRunning (globals (finish st 0)) = false
  /\ inflight (finish st 0) = [].
Proof. intros H. unfold finish. simpl. by rewrite H. Qed.

Lemma step_keeps_single_flight (st : State) (ev : Event) :
  single_flight st -> clock_after_epoch ev ->
  single_flight (fst (step POLL_INTERVAL_MS st ev)).
Proof.
  intros Hst Hev. destruct ev as [now | i outcome | i outcome now]; simpl.
  - by apply tick_keeps_single_flight.
  - destruct Hst as [[Hrun Hq] | (Hrun & p & Hq & Hlast & Hpos)].
    { rewrite Hq. simpl. left. by split. }
    rewrite Hq. destruct i as [|i]; simpl; [|right; split; eauto].
    destruct p as [startedAt | startedAt results]; [|right; split; eauto].
    unfold afterChecks.
    destruct outcome as [[|r results] | err]; simpl.
    + left. by apply (finish_idle st (AwaitingChecks startedAt)).
    + right. split; [exact Hrun|]. rewrite Hq. simpl.
      exists (AwaitingAppend startedAt (r :: results)). by repeat split.
    + left. by apply (finish_idle st (AwaitingChecks startedAt)).
  - destruct Hst as [[Hrun Hq] | (Hrun & p & Hq & Hlast & Hpos)].
    { rewrite Hq. simpl. left. by split. }
    rewrite Hq. destruct i as [|i]; simpl; [|right; split; eauto].
    destruct p as [startedAt | startedAt results]; [right; split; eauto|].
    unfold afterAppend. destruct outcome as [snapshot | err]; simpl;
      left; by apply (finish_idle st (AwaitingAppend startedAt results)).
Qed.

Lemma run_keeps_single_flight (evs : list Event) :
  Forall clock_after_epoch evs ->
  single_flight (fst (run POLL_INTERVAL_MS evs)).
Proof.
  unfold run.
  assert (forall acc : State * list Effect,
            single_flight (fst acc) -> Forall clock_after_epoch evs ->
            single_flight
              (fst (fold_left
                      (fun acc ev =>
                         let '(st', out) := step POLL_INTERVAL_MS (fst acc) ev in
                         (st', snd acc ++ out)) evs acc))) as H.
  { induction evs as [|ev evs IH]; intros acc Hacc Hevs; [exact Hacc|].
    inversion Hevs as [|? ? Hev Hrest]; subst. simpl. apply IH; [|exact Hrest].
    pose proof (step_keeps_single_flight (fst acc) ev Hacc Hev) as Hs.
    by destruct (step POLL_INTERVAL_MS (fst acc) ev). }
  apply H. left. by split.
Qed.

End PollerFacts.

(** C4. After any sequence of invocations and settled awaits, with a
    clock that reads times after the epoch:
    - while the flag is set exactly one call of [tick] is suspended, and
      an invocation then leaves the state as it is, calls neither
      [runProviderChecks] nor [appendHistory], and writes the skip line
      with the time since that call started, and nothing else; no call is
      kept for later since the state is unchanged;
    - the flag is clear exactly when no call is suspended, and every way
      a suspended call can end, an empty batch, a failure of the checks, a
      completed or a failed append, leaves the flag clear. *)
Theorem running_tick_is_skipped_and_flag_released
    (POLL_INTERVAL_MS : Z) (evs : list Event) :
  Forall clock_after_epoch evs ->
  let st := fst (run POLL_INTERVAL_MS evs) in
  (__checkCxPollerRunning (globals st) = true ->
   exists p,
     inflight st = [p]
     /\ forall now,
          step POLL_INTERVAL_MS st (Fire now)
          = (st, [Console (LogSkip (Some (now - started p)%Z))])
          /\ List.filter is_call (snd (step POLL_INTERVAL_MS st (Fire now))) = [])
  /\ (__checkCxPollerRunning (globals st) = false <-> inflight st = [])
  /\ (forall startedAt outcome,
        inflight st = [AwaitingChecks startedAt] ->
        outcome = inl [] \/ (exists err, outcome = inr err) ->
        let st' := fst (step POLL_INTERVAL_MS st (ChecksSettled 0 outcome)) in
        __checkCxPollerRunning (globals st') = false /\ inflight st' = [])
  /\ (forall startedAt results outcome now,
        inflight st = [AwaitingAppend startedAt results] ->
        let st' := fst (step POLL_INTERVAL_MS st (AppendSettled 0 outcome now)) in
        __checkCxPollerRunning (globals st') = false /\ inflight st' = []).
Proof.
  intros Hevs st. pose proof (run_keeps_single_flight POLL_INTERVAL_MS evs Hevs) as Hst.
  fold st in Hst. split; [|split; [|split]].
  - intros Hrun. destruct Hst as [[Hoff _] | (_ & p & Hq & Hlast & Hpos)];
      [congruence|].
    exists p. split; [exact Hq|]. intros now.
    assert (step POLL_INTERVAL_MS st (Fire now)
            = (st, [Console (LogSkip (Some (now - started p)%Z))])) as E.
    { simpl. unfold tick. rewrite Hrun, Hlast.
      destruct (Z.eqb_spec (started p) 0); [lia | reflexivity]. }
    by rewrite E.
  - destruct Hst as [[Hoff Hq] | (Hon & p & Hq & _)]; split; intros H;
      try assumption; try congruence.
  - intros startedAt outcome Hq Hout st'. subst st'. simpl. rewrite Hq. simpl.
    unfold afterChecks.
    destruct Hout as [-> | [err ->]]; simpl;
      by apply (finish_idle st (AwaitingChecks startedAt)).
  - intros startedAt results outcome now Hq st'. subst st'. simpl. rewrite Hq.
    simpl. unfold afterAppend.
    destruct outcome; simpl;
      by apply (finish_idle st (AwaitingAppend startedAt results)).
Qed.

Lemma running_tick_is_skipped_and_flag_released_witness :
  Forall clock_after_epoch Samples.secondTickRunning
  /\ __checkCxPollerRunning (globals (fst (run 60000 Samples.secondTickRunning)))
     = true
  /\ step 60000 (fst (run 60000 Samples.secondTickRunning)) (Fire 61500)
     = (fst (run 60000 Samples.secondTickRunning),
        [Console (LogSkip (Some 500%Z))])
  /\ snd (run 60000 (Samples.secondTickRunning ++ [Fire 61500]))
     = [ Console (LogStart 1000 60000); CallRunProviderChecks;
         Console LogNoConfig;
         Console (LogStart 61000 60000); CallRunProviderChecks;
         Console (LogSkip (Some 500%Z)) ].
Proof.
  assert (Forall clock_after_epoch Samples.secondTickRunning) as Hevs.
  { repeat constructor; simpl; lia. }
  assert (__checkCxPollerRunning
            (globals (fst (run 60000 Samples.secondTickRunning))) = true) as Hrun
    by reflexivity.
  destruct (running_tick_is_skipped_and_flag_released 60000
              Samples.secondTickRunning Hevs) as (Hskip & _).
  destruct (Hskip Hrun) as (p & Hq & Hfire).
  assert (p = AwaitingChecks 61000) as -> by (vm_compute in Hq; congruence).
  refine (conj Hevs (conj Hrun (conj _ _))).
  - apply (Hfire 61500%Z).
  - reflexivity.
Defined.

(* ===================================================================== *)
(** * Further properties *)
(* ===================================================================== *)

(** ** The base URL and the kind of endpoint *)

Lemma split_char_head (c : N) (s : jstr) :
  exists h r,
    split_char c s = h :: r /\ Forall (fun x => x <> c) h
    /\ (s = h \/ exists q, s = h ++ c :: q).
Proof.
  induction s as [|a s (h & r & E & Hh & Hs)]; simpl.
  - exists [], []. auto.
  - destruct (N.eqb_spec a c) as [-> | Hac].
    + exists [], (split_char c s). split; [reflexivity|]. split; [constructor|].
      right. by exists s.
    + rewrite E. exists (a :: h), r. split; [reflexivity|].
      split; [by constructor|].
      destruct Hs as [-> | [q ->]]; [by left | right; by exists q].
Qed.

Lemma withoutQuery_cut (e : jstr) :
  Forall (fun x => x <> 63) (AiSdkSetup.withoutQuery e)
  /\ (e = AiSdkSetup.withoutQuery e
      \/ exists q, e = AiSdkSetup.withoutQuery e ++ 63 :: q).
Proof.
  unfold AiSdkSetup.withoutQuery.
  destruct (split_char_head 63 e) as (h & r & -> & Hh & Hs). simpl. auto.
Qed.

Lemma withoutQuery_plain (u : jstr) :
  Forall (fun c => c <> 63) u -> AiSdkSetup.withoutQuery u = u.
Proof.
  intros H. unfold AiSdkSetup.withoutQuery. by rewrite (split_char_none 63 u H).
Qed.

Lemma withoutQuery_query (u q : jstr) :
  Forall (fun c => c <> 63) u -> AiSdkSetup.withoutQuery (u ++ 63 :: q) = u.
Proof.
  intros H. unfold AiSdkSetup.withoutQuery. by rewrite (split_char_first 63 u q H).
Qed.

(** The six texts the clean-up pattern matches. *)
Lemma path_cleanup_here_spec (s : jstr) :
  AiSdkSetup.path_cleanup_here s = true <->
  s ∈ [ lit "/chat/completions"; lit "/chat/completions/";
        lit "/responses"; lit "/responses/";
        lit "/messages"; lit "/messages/" ].
Proof.
  unfold AiSdkSetup.path_cleanup_here. cbn [existsb].
  rewrite !orb_true_iff, !eqb_eq, !elem_of_cons, elem_of_nil.
  change (lit "/" ++ lit "chat/completions") with (lit "/chat/completions").
  change (lit "/" ++ lit "chat/completions" ++ lit "/") with (lit "/chat/completions/").
  change (lit "/" ++ lit "responses") with (lit "/responses").
  change (lit "/" ++ lit "responses" ++ lit "/") with (lit "/responses/").
  change (lit "/" ++ lit "messages") with (lit "/messages").
  change (lit "/" ++ lit "messages" ++ lit "/") with (lit "/messages/").
  intuition discriminate.
Qed.

(** None of the six texts ends with another of them: the pattern matches
    at one position at most. *)
Lemma path_cleanup_once (pre s : jstr) :
  AiSdkSetup.path_cleanup_here s = true -> pre <> [] ->
  AiSdkSetup.path_cleanup_here (pre ++ s) = false.
Proof.
  intros Hs Hpre.
  destruct (AiSdkSetup.path_cleanup_here (pre ++ s)) eqn:E; [|reflexivity].
  exfalso. apply path_cleanup_here_spec in Hs, E.
  assert (drop (length (pre ++ s) - length s) (pre ++ s) = s) as Hsuf.
  { rewrite length_app.
    replace (length pre + length s - length s)%nat with (length pre) by lia.
    by rewrite drop_app_length. }
  assert (length s < length (pre ++ s))%nat as Hlen.
  { rewrite length_app. destruct pre; [done | simpl; lia]. }
  revert Hsuf Hlen. generalize (pre ++ s) E. intros l Hl.
  repeat (apply elem_of_cons in Hs as [-> | Hs]);
    [ | | | | | | by apply elem_of_nil in Hs];
    repeat (apply elem_of_cons in Hl as [-> | Hl]);
    try (by apply elem_of_nil in Hl);
    intros Hsuf Hlen;
    try (vm_compute in Hlen; lia);
    vm_compute in Hsuf; discriminate.
Qed.

Lemma strip_api_path_suffix (base s : jstr) :
  AiSdkSetup.path_cleanup_here s = true ->
  AiSdkSetup.strip_api_path (base ++ s) = base.
Proof.
  intros Hs. induction base as [|c base IH].
  - destruct s as [|c s]; [vm_compute in Hs; discriminate|].
    cbn [app AiSdkSetup.strip_api_path]. by rewrite Hs.
  - change ((c :: base) ++ s) with (c :: (base ++ s)).
    cbn [AiSdkSetup.strip_api_path].
    change (c :: (base ++ s)) with ((c :: base) ++ s) at 1.
    rewrite (path_cleanup_once (c :: base) s Hs); [|done].
    by rewrite IH.
Qed.

Lemma strip_api_path_prefix (s : jstr) :
  AiSdkSetup.strip_api_path s `prefix_of` s.
Proof.
  induction s as [|c s IH]; simpl.
  - by destruct (AiSdkSetup.path_cleanup_here []).
  - destruct (AiSdkSetup.path_cleanup_here (c :: s)); [apply prefix_nil|].
    by apply prefix_cons.
Qed.

Lemma responses_at_end_spec (s : jstr) :
  AiSdkSetup.responses_at_end s = true <->
  exists base, s = base ++ lit "/responses" \/ s = base ++ lit "/responses/".
Proof.
  induction s as [|c s IH].
  - simpl. split; [discriminate|]. intros [base [H | H]]; by destruct base.
  - cbn [AiSdkSetup.responses_at_end]. rewrite !orb_true_iff, !eqb_eq, IH. split.
    + intros [[H | H] | [base H]].
      * exists []. by left.
      * exists []. by right.
      * exists (c :: base). destruct H as [-> | ->]; auto.
    + intros [[|c' base] H].
      * left. simpl in H. tauto.
      * right. exists base. simpl in H.
        destruct H as [[= _ ->] | [= _ ->]]; auto.
Qed.

(** X1. The base URL handed to the SDK is the endpoint without what the
    clean-up removes: for an endpoint made of a base without a question
    mark, one of the paths [/chat/completions], [/responses] and
    [/messages], an optional closing slash and an optional query,
    [deriveBaseURL] returns the base. *)
Theorem deriveBaseURL_strips_api_path_and_query
    (base path query : jstr) (slash hasQuery : bool) :
  path ∈ [lit "chat/completions"; lit "responses"; lit "messages"] ->
  Forall (fun c => c <> 63) base ->
  AiSdkSetup.deriveBaseURL
    (base ++ lit "/" ++ path ++ (if slash then lit "/" else [])
          ++ (if hasQuery then lit "?" ++ query else []))
  = base.
Proof.
  intros Hpath Hbase.
  set (s := lit "/" ++ path ++ (if slash then lit "/" else [])).
  assert (AiSdkSetup.path_cleanup_here s = true) as Hs.
  { apply path_cleanup_here_spec. subst s.
    repeat (apply elem_of_cons in Hpath as [-> | Hpath]);
      [ | | | by apply elem_of_nil in Hpath];
      destruct slash; apply list_elem_of_In; vm_compute; tauto. }
  assert (Forall (fun c => c <> 63) (base ++ s)) as Hplain.
  { apply Forall_app. split; [exact Hbase|].
    apply path_cleanup_here_spec in Hs.
    repeat (apply elem_of_cons in Hs as [-> | Hs]);
      [ | | | | | | by apply elem_of_nil in Hs];
      apply Forall_forall; intros x Hx; apply list_elem_of_In in Hx;
      vm_compute in Hx; intuition (subst; discriminate). }
  unfold AiSdkSetup.deriveBaseURL.
  replace (base ++ lit "/" ++ path ++ (if slash then lit "/" else [])
                ++ (if hasQuery then lit "?" ++ query else []))
    with ((base ++ s) ++ (if hasQuery then lit "?" ++ query else []))
    by (subst s; by rewrite <- !app_assoc).
  destruct hasQuery.
  - change (lit "?" ++ query) with (63 :: query).
    rewrite (withoutQuery_query _ _ Hplain). by apply strip_api_path_suffix.
  - rewrite app_nil_r, (withoutQuery_plain _ Hplain).
    by apply strip_api_path_suffix.
Qed.

Lemma deriveBaseURL_strips_api_path_and_query_witness :
  AiSdkSetup.deriveBaseURL (lit "https://api.openai.com/v1/chat/completions/?a=1?b")
  = lit "https://api.openai.com/v1".
Proof.
  apply (deriveBaseURL_strips_api_path_and_query
           (lit "https://api.openai.com/v1") (lit "chat/completions")
           (lit "a=1?b") true true).
  - apply list_elem_of_In. simpl. tauto.
  - apply Forall_forall. intros x Hx. apply list_elem_of_In in Hx.
    vm_compute in Hx. intuition (subst; discriminate).
Defined.

(** X2. Whatever the endpoint, the base URL is an initial part of it and
    holds no question mark: nothing of the query, and nothing that was
    not configured, reaches the SDK as base URL. *)
Theorem deriveBaseURL_is_a_query_free_prefix (endpoint : jstr) :
  AiSdkSetup.deriveBaseURL endpoint `prefix_of` endpoint
  /\ Forall (fun c => c <> 63) (AiSdkSetup.deriveBaseURL endpoint).
Proof.
  unfold AiSdkSetup.deriveBaseURL.
  destruct (withoutQuery_cut endpoint) as [Hplain Hcut].
  pose proof (strip_api_path_prefix (AiSdkSetup.withoutQuery endpoint)) as Hp.
  split.
  - etrans; [exact Hp|].
    destruct Hcut as [<- | [q Hq]]; [done|].
    rewrite Hq at 2. by apply prefix_app_r.
  - destruct Hp as [rest Hp]. rewrite Hp in Hplain.
    by apply Forall_app in Hplain as [? _].
Qed.

(** X3. The endpoint of an OpenAI provider is called through the
    Responses interface exactly when its part in front of the query ends
    with [/responses] or [/responses/], and the base URL is then what
    comes before that path. *)
Theorem isResponsesEndpoint_spec (endpoint : option jstr) :
  AiSdkSetup.isResponsesEndpoint endpoint = true <->
  exists e,
    endpoint = Some e
    /\ (AiSdkSetup.withoutQuery e = AiSdkSetup.deriveBaseURL e ++ lit "/responses"
        \/ AiSdkSetup.withoutQuery e
           = AiSdkSetup.deriveBaseURL e ++ lit "/responses/").
Proof.
  unfold AiSdkSetup.isResponsesEndpoint, AiSdkSetup.deriveBaseURL. split.
  - destruct endpoint as [e|]; [|discriminate].
    destruct (negb (truthy e)); [discriminate|].
    intros H. apply responses_at_end_spec in H as [base H].
    exists e. split; [reflexivity|].
    destruct H as [H | H]; rewrite H; [left | right];
      by rewrite strip_api_path_suffix.
  - intros (e & -> & H).
    assert (AiSdkSetup.responses_at_end (AiSdkSetup.withoutQuery e) = true) as Hr
      by (apply responses_at_end_spec; eauto).
    destruct e as [|c e]; [discriminate Hr|]. exact Hr.
Qed.

Lemma isResponsesEndpoint_spec_witness :
  AiSdkSetup.isResponsesEndpoint (Some (lit "https://h/v1/responses/?x=1")) = true
  /\ AiSdkSetup.deriveBaseURL (lit "https://h/v1/responses/?x=1") = lit "https://h/v1".
Proof.
  split; [|reflexivity].
  apply (proj2 (isResponsesEndpoint_spec (Some (lit "https://h/v1/responses/?x=1")))).
  exists (lit "https://h/v1/responses/?x=1"). split; [reflexivity|].
  right. reflexivity.
Defined.

(** ** The custom fetch *)

Lemma entry_snoc {V} (key : jstr) (entries : list (jstr * V)) (kv : jstr * V) :
  AiSdkSetup.entry key (entries ++ [kv])
  = if eqb (fst kv) key then Some (snd kv) else AiSdkSetup.entry key entries.
Proof.
  unfold AiSdkSetup.entry. rewrite rev_app_distr. simpl.
  by destruct (eqb (fst kv) key).
Qed.

Lemma assign_all_lookup {V} (entries : list (jstr * V)) (target : gmap jstr V)
    (key : jstr) :
  AiSdkSetup.assign_all entries target !! key
  = match AiSdkSetup.entry key entries with
    | Some v => Some v
    | None => target !! key
    end.
Proof.
  induction entries as [|kv entries IH] using rev_ind; [reflexivity|].
  unfold AiSdkSetup.assign_all. rewrite fold_left_app. simpl.
  fold (AiSdkSetup.assign_all entries target). rewrite entry_snoc.
  destruct (eqb (fst kv) key) eqn:E.
  - apply eqb_eq in E. subst key. by rewrite lookup_insert_eq.
  - apply eqb_neq in E. by rewrite lookup_insert_ne.
Qed.

Lemma injectableParams_lookup (metadata : option (list (jstr * json)))
    (key : jstr) :
  AiSdkSetup.injectableParams metadata !! key
  = if bool_decide (key ∈ AiSdkSetup.EXCLUDED_KEYS) || eqb key (lit "__proto__")
    then None
    else AiSdkSetup.entry key (default [] metadata).
Proof.
  unfold AiSdkSetup.injectableParams. generalize (default [] metadata).
  intros entries. induction entries as [|kv entries IH] using rev_ind.
  - simpl. rewrite lookup_empty. by destruct (_ || _).
  - rewrite fold_left_app. simpl. rewrite entry_snoc.
    destruct (bool_decide (fst kv ∈ AiSdkSetup.EXCLUDED_KEYS)) eqn:Ex.
    + rewrite IH. destruct (eqb (fst kv) key) eqn:E; [|reflexivity].
      apply eqb_eq in E. subst key. by rewrite Ex.
    + destruct (eqb (fst kv) (lit "__proto__")) eqn:Ep.
      * rewrite IH. destruct (eqb (fst kv) key) eqn:E; [|reflexivity].
        apply eqb_eq in E. subst key. by rewrite Ep, orb_true_r.
      * destruct (eqb (fst kv) key) eqn:E.
        -- apply eqb_eq in E. subst key. by rewrite lookup_insert_eq, Ex, Ep.
        -- apply eqb_neq in E. by rewrite lookup_insert_ne, IH.
Qed.

(** What a rewritten request is made of. *)
Lemma customFetch_rewritten (JSON_parse : jstr -> option json)
    (toUpperCase : jstr -> jstr) (injectable : gmap jstr json)
    (overrideHeaders : option (gmap jstr jstr))
    (init : option AiSdkSetup.RequestInit)
    (sentHeaders : option (gmap jstr jstr)) (out : AiSdkSetup.OutgoingBody) :
  AiSdkSetup.customFetch JSON_parse toUpperCase injectable overrideHeaders init
  = AiSdkSetup.Rewritten sentHeaders out ->
  exists i original,
    init = Some i
    /\ AiSdkSetup.is_post toUpperCase (AiSdkSetup.method i) = true
    /\ AiSdkSetup.body_truthy (AiSdkSetup.body i) = true
    /\ AiSdkSetup.originalBody JSON_parse (AiSdkSetup.body i) = Some original
    /\ sentHeaders
       = match overrideHeaders with
         | Some h =>
             if bool_decide (h = ∅) then AiSdkSetup.headers i
             else Some (h ∪ default ∅ (AiSdkSetup.headers i))
         | None => AiSdkSetup.headers i
         end
    /\ out = if bool_decide (injectable = ∅) then AiSdkSetup.Reparsed original
             else AiSdkSetup.Merged (injectable ∪ AiSdkSetup.spread original).
Proof.
  unfold AiSdkSetup.customFetch. destruct init as [i|]; [|discriminate].
  destruct (AiSdkSetup.is_post _ _) eqn:Hp; [|discriminate].
  destruct (AiSdkSetup.body_truthy _) eqn:Hb; [|discriminate]. simpl.
  destruct (AiSdkSetup.originalBody _ _) as [original|] eqn:Ho; [|discriminate].
  intros [= <- <-]. exists i, original.
  repeat (split; [reflexivity || assumption|]). split.
  - destruct overrideHeaders as [h|]; [|reflexivity]. simpl.
    by destruct (bool_decide (h = ∅)).
  - by destruct (bool_decide (injectable = ∅)).
Qed.

Lemma createCustomFetch_some (JSON_parse : jstr -> option json)
    (toUpperCase : jstr -> jstr) (metadata : option (list (jstr * json)))
    (overrideHeaders : option (gmap jstr jstr))
    (f : option AiSdkSetup.RequestInit -> AiSdkSetup.Forwarded) :
  AiSdkSetup.createCustomFetch JSON_parse toUpperCase metadata overrideHeaders
  = Some f ->
  f = AiSdkSetup.customFetch JSON_parse toUpperCase
        (AiSdkSetup.injectableParams metadata) overrideHeaders.
Proof.
  unfold AiSdkSetup.createCustomFetch. destruct (_ && _); [discriminate|].
  by intros [= <-].
Qed.

(** X4. The custom fetch never lets the metadata of a provider replace a
    field the SDK owns: in a request it rewrites, the keys [model],
    [prompt], [messages] and [abortSignal] (and [__proto__], which the
    assignment turns into the prototype), like every key the metadata
    does not name, keep the value of the body the SDK wrote. *)
Theorem reserved_metadata_keys_are_not_injected
    (JSON_parse : jstr -> option json) (toUpperCase : jstr -> jstr)
    (metadata : option (list (jstr * json)))
    (overrideHeaders : option (gmap jstr jstr))
    (f : option AiSdkSetup.RequestInit -> AiSdkSetup.Forwarded)
    (init : option AiSdkSetup.RequestInit)
    (sentHeaders : option (gmap jstr jstr)) (fields : gmap jstr json)
    (key : jstr) :
  AiSdkSetup.createCustomFetch JSON_parse toUpperCase metadata overrideHeaders
  = Some f ->
  f init = AiSdkSetup.Rewritten sentHeaders (AiSdkSetup.Merged fields) ->
  key ∈ AiSdkSetup.EXCLUDED_KEYS \/ key = lit "__proto__"
  \/ AiSdkSetup.entry key (default [] metadata) = None ->
  exists i original,
    init = Some i
    /\ AiSdkSetup.originalBody JSON_parse (AiSdkSetup.body i) = Some original
    /\ fields !! key = AiSdkSetup.spread original !! key.
Proof.
  intros Hf Hr Hkey. apply createCustomFetch_some in Hf. subst f.
  apply customFetch_rewritten in Hr as (i & original & -> & _ & _ & Ho & _ & Hout).
  exists i, original. split; [reflexivity|]. split; [exact Ho|].
  destruct (bool_decide (_ = ∅)); [discriminate|]. injection Hout as ->.
  apply lookup_union_r. rewrite injectableParams_lookup.
  destruct Hkey as [Hk | [-> | Hk]].
  - by rewrite bool_decide_eq_true_2.
  - by rewrite orb_true_r.
  - rewrite Hk. by destruct (_ || _).
Qed.

Lemma reserved_metadata_keys_are_not_injected_witness :
  exists f fields,
    AiSdkSetup.createCustomFetch Cases.parseSdkBody Cases.asciiUpper
      (Some Cases.metadata) None = Some f
    /\ f (Some Cases.sdkPost)
       = AiSdkSetup.Rewritten (AiSdkSetup.headers Cases.sdkPost)
           (AiSdkSetup.Merged fields)
    /\ fields !! lit "model" = Some (JStr (lit "gpt-4o")).
Proof.
  set (f := AiSdkSetup.customFetch Cases.parseSdkBody Cases.asciiUpper
              (AiSdkSetup.injectableParams (Some Cases.metadata)) None).
  set (fields := AiSdkSetup.injectableParams (Some Cases.metadata)
                 ∪ AiSdkSetup.spread Cases.sdkBody).
  assert (AiSdkSetup.createCustomFetch Cases.parseSdkBody Cases.asciiUpper
            (Some Cases.metadata) None = Some f) as Hf by reflexivity.
  assert (f (Some Cases.sdkPost)
          = AiSdkSetup.Rewritten (AiSdkSetup.headers Cases.sdkPost)
              (AiSdkSetup.Merged fields)) as Hr by reflexivity.
  exists f, fields. split; [exact Hf|]. split; [exact Hr|].
  destruct (reserved_metadata_keys_are_not_injected Cases.parseSdkBody
              Cases.asciiUpper (Some Cases.metadata) None f (Some Cases.sdkPost)
              (AiSdkSetup.headers Cases.sdkPost) fields (lit "model") Hf Hr)
    as (i & original & Hi & Ho & Hk).
  - left. by vm_compute.
  - injection Hi as <-. rewrite Hk.
    assert (Some original = Some Cases.sdkBody) as [= ->]
      by (rewrite <- Ho; by vm_compute).
    by vm_compute.
Defined.

(** X5. Every other key of the metadata reaches the request: when the
    metadata gives a value to a key that is not reserved, every request
    the custom fetch rewrites carries that value under the key, whatever
    the SDK wrote there. *)
Theorem metadata_overrides_the_request_body
    (JSON_parse : jstr -> option json) (toUpperCase : jstr -> jstr)
    (metadata : option (list (jstr * json)))
    (overrideHeaders : option (gmap jstr jstr))
    (f : option AiSdkSetup.RequestInit -> AiSdkSetup.Forwarded)
    (init : option AiSdkSetup.RequestInit)
    (sentHeaders : option (gmap jstr jstr)) (out : AiSdkSetup.OutgoingBody)
    (key : jstr) (value : json) :
  AiSdkSetup.createCustomFetch JSON_parse toUpperCase metadata overrideHeaders
  = Some f ->
  f init = AiSdkSetup.Rewritten sentHeaders out ->
  AiSdkSetup.entry key (default [] metadata) = Some value ->
  key ∉ AiSdkSetup.EXCLUDED_KEYS ->
  key <> lit "__proto__" ->
  exists fields, out = AiSdkSetup.Merged fields /\ fields !! key = Some value.
Proof.
  intros Hf Hr Hentry Hex Hproto. apply createCustomFetch_some in Hf. subst f.
  apply customFetch_rewritten in Hr as (i & original & -> & _ & _ & _ & _ & ->).
  assert (AiSdkSetup.injectableParams metadata !! key = Some value) as Hin.
  { rewrite injectableParams_lookup, bool_decide_eq_false_2 by exact Hex.
    apply eqb_neq in Hproto. by rewrite Hproto. }
  case_bool_decide as Hempty.
  - rewrite Hempty, lookup_empty in Hin. discriminate.
  - eexists. split; [reflexivity|]. by apply lookup_union_Some_l.
Qed.

Lemma metadata_overrides_the_request_body_witness :
  exists f fields,
    AiSdkSetup.createCustomFetch Cases.parseSdkBody Cases.asciiUpper
      (Some Cases.metadata) None = Some f
    /\ f (Some Cases.sdkPost)
       = AiSdkSetup.Rewritten (AiSdkSetup.headers Cases.sdkPost)
           (AiSdkSetup.Merged fields)
    /\ AiSdkSetup.spread Cases.sdkBody !! lit "stream" = Some (JBool true)
    /\ fields !! lit "stream" = Some (JBool false).
Proof.
  set (f := AiSdkSetup.customFetch Cases.parseSdkBody Cases.asciiUpper
              (AiSdkSetup.injectableParams (Some Cases.metadata)) None).
  set (fields := AiSdkSetup.injectableParams (Some Cases.metadata)
                 ∪ AiSdkSetup.spread Cases.sdkBody).
  assert (AiSdkSetup.createCustomFetch Cases.parseSdkBody Cases.asciiUpper
            (Some Cases.metadata) None = Some f) as Hf by reflexivity.
  assert (f (Some Cases.sdkPost)
          = AiSdkSetup.Rewritten (AiSdkSetup.headers Cases.sdkPost)
              (AiSdkSetup.Merged fields)) as Hr by reflexivity.
  exists f, fields. split; [exact Hf|]. split; [exact Hr|].
  split; [by vm_compute|].
  destruct (metadata_overrides_the_request_body Cases.parseSdkBody
              Cases.asciiUpper (Some Cases.metadata) None f (Some Cases.sdkPost)
              (AiSdkSetup.headers Cases.sdkPost) (AiSdkSetup.Merged fields)
              (lit "stream") (JBool false) Hf Hr)
    as (fields' & Hfields & Hk).
  - reflexivity.
  - by vm_compute.
  - discriminate.
  - by injection Hfields as ->.
Defined.

(** ** The model and its options *)

(** X6. Whatever the configuration, [createModel] installs a custom
    fetch, since the headers it builds always hold [User-Agent]: the
    value the configuration gives under that exact name, or
    [check-cx/0.1.0].  On every request this fetch rewrites, each header
    of the provider replaces the header of the same name the SDK had
    set. *)
Theorem createModel_forces_its_headers
    (JSON_parse : jstr -> option json) (toUpperCase : jstr -> jstr)
    (DEFAULT_ENDPOINTS : ProviderType -> jstr) (config : ProviderConfig.t) :
  let m :=
    AiSdkSetup.createModel JSON_parse toUpperCase DEFAULT_ENDPOINTS config in
  AiSdkSetup.providerHeaders m !! lit "User-Agent"
  = Some (default (lit "check-cx/0.1.0")
            (AiSdkSetup.entry (lit "User-Agent")
               (default [] (ProviderConfig.requestHeaders config))))
  /\ exists f,
       AiSdkSetup.fetch m = Some f
       /\ forall init sentHeaders out,
            f init = AiSdkSetup.Rewritten sentHeaders out ->
            exists sent,
              sentHeaders = Some sent
              /\ forall name value,
                   AiSdkSetup.providerHeaders m !! name = Some value ->
                   sent !! name = Some value.
Proof.
  intros m.
  set (headers :=
         AiSdkSetup.assign_all (default [] (ProviderConfig.requestHeaders config))
           {[ lit "User-Agent" := lit "check-cx/0.1.0" ]}).
  assert (AiSdkSetup.providerHeaders m = headers) as Hh
    by (subst m; unfold AiSdkSetup.createModel;
        by destruct (ProviderConfig.type config)).
  assert (AiSdkSetup.fetch m
          = AiSdkSetup.createCustomFetch JSON_parse toUpperCase
              (ProviderConfig.metadata config) (Some headers)) as Hf
    by (subst m; unfold AiSdkSetup.createModel;
        by destruct (ProviderConfig.type config)).
  assert (headers !! lit "User-Agent"
          = Some (default (lit "check-cx/0.1.0")
                    (AiSdkSetup.entry (lit "User-Agent")
                       (default [] (ProviderConfig.requestHeaders config)))))
    as Hua.
  { subst headers. rewrite assign_all_lookup.
    destruct (AiSdkSetup.entry _ _); [reflexivity|]. by rewrite lookup_singleton_eq. }
  assert (headers <> ∅) as Hne.
  { intros E. rewrite E, lookup_empty in Hua. discriminate. }
  rewrite Hh, Hf. split; [exact Hua|].
  exists (AiSdkSetup.customFetch JSON_parse toUpperCase
            (AiSdkSetup.injectableParams (ProviderConfig.metadata config))
            (Some headers)).
  split.
  - unfold AiSdkSetup.createCustomFetch.
    rewrite (bool_decide_eq_false_2 (headers = ∅) Hne). simpl.
    by rewrite andb_false_r.
  - intros init sentHeaders out Hr.
    apply customFetch_rewritten in Hr as (i & original & _ & _ & _ & _ & -> & _).
    rewrite (bool_decide_eq_false_2 (headers = ∅) Hne).
    eexists. split; [reflexivity|]. intros name value Hv.
    by apply lookup_union_Some_l.
Qed.

Lemma createModel_forces_its_headers_witness :
  exists f sent,
    AiSdkSetup.fetch
      (AiSdkSetup.createModel Cases.parseSdkBody Cases.asciiUpper
         Samples.defaults (Cases.directed anthropic)) = Some f
    /\ f (Some Cases.sdkPost)
       = AiSdkSetup.Rewritten (Some sent)
           (AiSdkSetup.Merged
              (AiSdkSetup.injectableParams (Some Cases.metadata)
               ∪ AiSdkSetup.spread Cases.sdkBody))
    /\ sent !! lit "User-Agent" = Some (lit "check-cx/0.1.0")
    /\ sent !! lit "X-Trace" = Some (lit "a").
Proof.
  destruct (createModel_forces_its_headers Cases.parseSdkBody Cases.asciiUpper
              Samples.defaults (Cases.directed anthropic))
    as (Hua & f & Hf & Hforce).
  set (headers :=
         AiSdkSetup.assign_all [ (lit "X-Trace", lit "a") ]
           {[ lit "User-Agent" := lit "check-cx/0.1.0" ]}).
  assert (f = AiSdkSetup.customFetch Cases.parseSdkBody Cases.asciiUpper
                (AiSdkSetup.injectableParams (Some Cases.metadata))
                (Some headers)) as ->.
  { apply (createCustomFetch_some _ _ (Some Cases.metadata) (Some headers)).
    rewrite <- Hf. reflexivity. }
  set (own := AiSdkSetup.headers Cases.sdkPost).
  exists (AiSdkSetup.customFetch Cases.parseSdkBody Cases.asciiUpper
            (AiSdkSetup.injectableParams (Some Cases.metadata)) (Some headers)),
         (headers ∪ default ∅ own).
  assert (AiSdkSetup.customFetch Cases.parseSdkBody Cases.asciiUpper
            (AiSdkSetup.injectableParams (Some Cases.metadata)) (Some headers)
            (Some Cases.sdkPost)
          = AiSdkSetup.Rewritten (Some (headers ∪ default ∅ own))
              (AiSdkSetup.Merged
                 (AiSdkSetup.injectableParams (Some Cases.metadata)
                  ∪ AiSdkSetup.spread Cases.sdkBody))) as Hr by reflexivity.
  split; [exact Hf|]. split; [exact Hr|].
  destruct (Hforce _ _ _ Hr) as (sent & [= <-] & Hall).
  split; apply Hall; [exact Hua | by vm_compute].
Defined.

Lemma parseModelDirective_directive (model base level : jstr) (mark : N)
    (effort : ReasoningEffort) :
  trim model = base ++ mark :: level ->
  mark = 64 \/ mark = 35 ->
  (toLower level, effort)
    ∈ [ (lit "mini", low); (lit "minimal", low); (lit "low", low);
        (lit "medium", medium); (lit "high", high) ] ->
  Forall (fun c => is_line_terminator c = false) base ->
  parseModelDirective model
  = {| AiSdk.modelId := if truthy (trim base) then trim base else trim model;
       AiSdk.reasoningEffort := Some effort |}.
Proof.
  intros Ht Hm Hl Hb. unfold parseModelDirective.
  assert (trim model <> []) as Hne by (rewrite Ht; by destruct base).
  apply truthy_true in Hne. rewrite Hne. simpl negb. cbv iota.
  destruct (level_effort level effort Hl) as [Hlevel Heffort].
  assert (is_directive_mark mark = true) as Hmark
    by (destruct Hm as [-> | ->]; reflexivity).
  rewrite Ht.
  rewrite (match_directive_complete [] base mark level Hb Hmark Hlevel).
  simpl rev. simpl app. rewrite Heffort. by rewrite <- Ht.
Qed.

(** X7. The model is created with the identifier that
    [parseModelDirective] returns for the model name, and the effort read
    from the name reaches the request only for a provider of type
    [openai]: for [anthropic] and [gemini] no reasoning option is built,
    whatever the name.  When the trimmed name ends in a mark, [@] or [#],
    and a level, and no line break comes before the mark, the effort is
    that of the level and the identifier is what comes before the mark,
    trimmed; when nothing but blanks comes before the mark, the
    identifier is the whole trimmed name, the directive included. *)
Theorem reasoning_effort_reaches_openai_only
    (JSON_parse : jstr -> option json) (toUpperCase : jstr -> jstr)
    (DEFAULT_ENDPOINTS : ProviderType -> jstr) (config : ProviderConfig.t) :
  let m :=
    AiSdkSetup.createModel JSON_parse toUpperCase DEFAULT_ENDPOINTS config in
  let directive := parseModelDirective (ProviderConfig.model config) in
  AiSdkSetup.modelId m = AiSdk.modelId directive
  /\ AiSdkSetup.buildReasoningOptions (ProviderConfig.type config)
       (AiSdkSetup.reasoningEffort m)
     = match ProviderConfig.type config with
       | openai => AiSdk.reasoningEffort directive
       | _ => None
       end
  /\ forall (base level : jstr) (mark : N) (effort : ReasoningEffort),
       trim (ProviderConfig.model config) = base ++ mark :: level ->
       mark = 64 \/ mark = 35 ->
       (toLower level, effort)
         ∈ [ (lit "mini", low); (lit "minimal", low); (lit "low", low);
             (lit "medium", medium); (lit "high", high) ] ->
       Forall (fun c => is_line_terminator c = false) base ->
       AiSdkSetup.modelId m
       = match trim base with
         | [] => trim (ProviderConfig.model config)
         | _ :: _ => trim base
         end
       /\ AiSdkSetup.buildReasoningOptions (ProviderConfig.type config)
            (AiSdkSetup.reasoningEffort m)
          = match ProviderConfig.type config with
            | openai => Some effort
            | _ => None
            end.
Proof.
  intros m directive. subst m directive. unfold AiSdkSetup.createModel.
  split; [by destruct (ProviderConfig.type config)|].
  split.
  { destruct (ProviderConfig.type config); cbn; try reflexivity.
    by destruct (AiSdk.reasoningEffort _). }
  intros base level mark effort Ht Hm Hl Hb.
  rewrite (parseModelDirective_directive _ base level mark effort Ht Hm Hl Hb).
  split.
  - destruct (ProviderConfig.type config); cbn [AiSdkSetup.modelId AiSdk.modelId];
      by destruct (trim base).
  - by destruct (ProviderConfig.type config).
Qed.

Lemma reasoning_effort_reaches_openai_only_witness :
  AiSdkSetup.modelId
    (AiSdkSetup.createModel Cases.parseSdkBody Cases.asciiUpper Samples.defaults
       (Cases.directed anthropic)) = lit "claude-3"
  /\ AiSdkSetup.buildReasoningOptions anthropic
       (AiSdkSetup.reasoningEffort
          (AiSdkSetup.createModel Cases.parseSdkBody Cases.asciiUpper
             Samples.defaults (Cases.directed anthropic))) = None
  /\ AiSdkSetup.buildReasoningOptions openai
       (AiSdkSetup.reasoningEffort
          (AiSdkSetup.createModel Cases.parseSdkBody Cases.asciiUpper
             Samples.defaults (Cases.directed openai))) = Some high
  /\ AiSdkSetup.modelId
       (AiSdkSetup.createModel Cases.parseSdkBody Cases.asciiUpper
          Samples.defaults Cases.directiveOnly) = 64 :: lit "high".
Proof.
  assert (forall type,
            trim (ProviderConfig.model (Cases.directed type))
            = lit "claude-3 " ++ 64 :: lit "High") as Ht by reflexivity.
  assert ((toLower (lit "High"), high)
            ∈ [ (lit "mini", low); (lit "minimal", low); (lit "low", low);
                (lit "medium", medium); (lit "high", high) ]) as Hl
    by (apply list_elem_of_In; simpl; tauto).
  assert ((toLower (lit "high"), high)
            ∈ [ (lit "mini", low); (lit "minimal", low); (lit "low", low);
                (lit "medium", medium); (lit "high", high) ]) as Hl'
    by (apply list_elem_of_In; simpl; tauto).
  assert (Forall (fun c => is_line_terminator c = false) (lit "claude-3 ")) as Hb
    by (repeat constructor).
  destruct (reasoning_effort_reaches_openai_only Cases.parseSdkBody
              Cases.asciiUpper Samples.defaults (Cases.directed anthropic))
    as (_ & _ & Hanthropic).
  destruct (reasoning_effort_reaches_openai_only Cases.parseSdkBody
              Cases.asciiUpper Samples.defaults (Cases.directed openai))
    as (_ & _ & Hopenai).
  destruct (reasoning_effort_reaches_openai_only Cases.parseSdkBody
              Cases.asciiUpper Samples.defaults Cases.directiveOnly)
    as (_ & _ & Honly).
  destruct (Hanthropic (lit "claude-3 ") (lit "High") 64 high (Ht anthropic)
              (or_introl eq_refl) Hl Hb) as [Hid Hnone].
  destruct (Hopenai (lit "claude-3 ") (lit "High") 64 high (Ht openai)
              (or_introl eq_refl) Hl Hb) as [_ Hsome].
  destruct (Honly [] (lit "high") 64 high) as [Hwhole _];
    [vm_compute; reflexivity | by left | exact Hl' | constructor |].
  split; [rewrite Hid; vm_compute; reflexivity|].
  split; [exact Hnone|]. split; [exact Hsome|].
  rewrite Hwhole. vm_compute. reflexivity.
Defined.

Lemma dropWhile_head (p : N -> bool) (s t : jstr) (c : N) :
  dropWhile p s = c :: t -> p c = false.
Proof.
  induction s as [|a s IH]; simpl; [discriminate|].
  destruct (p a) eqn:Ha; [exact IH|]. by intros [= <- _].
Qed.

Lemma dropWhileEnd_prefix (p : N -> bool) (s : jstr) :
  dropWhileEnd p s `prefix_of` s.
Proof.
  induction s as [|c s IH] using rev_ind; [done|].
  rewrite dropWhileEnd_snoc. destruct (p c); [|done].
  by apply prefix_app_r.
Qed.

Lemma trim_head (s t : jstr) (c : N) : trim s = c :: t -> is_ws c = false.
Proof.
  unfold trim, trimEnd. intros H.
  destruct (dropWhileEnd_prefix is_ws (trimStart s)) as [rest Hrest].
  rewrite H in Hrest. unfold trimStart in Hrest.
  by apply (dropWhile_head is_ws s (t ++ rest) c).
Qed.

Lemma trim_prefix_of_head (s : jstr) (c : N) :
  is_ws c = false -> trim (c :: s) `prefix_of` c :: s.
Proof.
  intros Hc. unfold trim, trimStart. simpl. rewrite Hc.
  apply dropWhileEnd_prefix.
Qed.

(** X8. For a model name that is not blank, the identifier handed to the
    SDK is never empty, carries no blank at either end, and is an initial
    part of the trimmed name: the directive parser only ever cuts the
    name, it never invents one. *)
Theorem model_identifier_is_a_trimmed_prefix (model : jstr) :
  trim model <> [] ->
  let id := AiSdk.modelId (parseModelDirective model) in
  id <> [] /\ trim id = id /\ id `prefix_of` trim model.
Proof.
  intros Hne id. subst id. unfold parseModelDirective.
  pose proof Hne as Htruthy. apply truthy_true in Htruthy. rewrite Htruthy.
  simpl negb. cbv iota.
  destruct (match_directive [] (trim model)) as [[b l]|] eqn:E.
  - simpl. destruct (truthy (trim b)) eqn:Hb.
    + apply truthy_true in Hb. split; [exact Hb|]. split; [apply trim_idem|].
      apply match_directive_sound in E as (base & mark & -> & Ht & _).
      simpl in Ht. simpl app in *.
      destruct base as [|c base]; [by destruct Hb|].
      rewrite Ht. etrans; [|by apply prefix_app_r].
      apply trim_prefix_of_head. simpl in Ht. by apply trim_head in Ht.
    + split; [exact Hne|]. split; [apply trim_idem | done].
  - destruct (existsb _ _); simpl; (split; [exact Hne|]);
      (split; [apply trim_idem | done]).
Qed.

Lemma model_identifier_is_a_trimmed_prefix_witness :
  AiSdk.modelId (parseModelDirective (lit "  gpt-4o #low ")) = lit "gpt-4o"
  /\ lit "gpt-4o" `prefix_of` trim (lit "  gpt-4o #low ").
Proof.
  destruct (model_identifier_is_a_trimmed_prefix (lit "  gpt-4o #low "))
    as (_ & _ & Hp); [vm_compute; discriminate|].
  split; [reflexivity | exact Hp].
Defined.

(** ** The outcome of the SDK check *)

Lemma getErrorMessage_nonempty (err : thrown) : getErrorMessage err <> [].
Proof.
  unfold getErrorMessage. destruct (isTimeoutError err); [discriminate|].
  destruct err as [e|]; [|discriminate].
  destruct (truthy _) eqn:H; [by apply truthy_true in H | discriminate].
Qed.

(** X9. The status of the SDK check is decided by the reply alone: it
    is failed exactly when the stream threw or the collected reply is
    blank, validation_failed exactly when a reply that is not blank is
    refused by the validation, and operational or degraded in the one
    remaining case; it is never error.  A blank reply is failed without
    the validation being consulted, and every result carries a message
    that is not empty. *)
Theorem sdk_status_cases
    (DEFAULT_ENDPOINTS : ProviderType -> jstr)
    (validateResponse : jstr -> jstr -> Validation)
    (config : ProviderConfig.t) (run : AiSdk.Run) :
  let r := checkWithAiSdk DEFAULT_ENDPOINTS validateResponse config run in
  let accepted chunks :=
    valid (validateResponse (concat chunks)
             (Challenge.expectedAnswer (AiSdk.challenge run))) in
  (CheckResult.status r = failed <->
   (exists err, AiSdk.stream run = inr err)
   \/ (exists chunks, AiSdk.stream run = inl chunks /\ trim (concat chunks) = []))
  /\ (CheckResult.status r = validation_failed <->
      exists chunks,
        AiSdk.stream run = inl chunks /\ trim (concat chunks) <> []
        /\ accepted chunks = false)
  /\ (CheckResult.status r = operational \/ CheckResult.status r = degraded <->
      exists chunks,
        AiSdk.stream run = inl chunks /\ trim (concat chunks) <> []
        /\ accepted chunks = true)
  /\ CheckResult.status r <> error
  /\ CheckResult.message r <> [].
Proof.
  intros r accepted. subst r accepted. unfold checkWithAiSdk.
  destruct (AiSdk.stream run) as [chunks | err].
  - destruct (truthy (trim (concat chunks))) eqn:Hblank; simpl negb; cbv iota.
    + apply truthy_true in Hblank.
      destruct (valid _) eqn:Hv; simpl negb; cbv iota.
      * assert (forall s : Status,
                  (if (AiSdk.finishedAt run - AiSdk.startedAt run
                       <=? AiSdk.DEGRADED_THRESHOLD_MS)%Z
                   then operational else degraded) = s ->
                  s = operational \/ s = degraded) as Hgrade
          by (intros s <-; destruct (_ <=? _)%Z; auto).
        simpl. repeat split.
        -- intros H. apply Hgrade in H as [H | H]; discriminate.
        -- intros [[e He] | (c & [= <-] & Hc)]; [discriminate | contradiction].
        -- intros H. apply Hgrade in H as [H | H]; discriminate.
        -- intros (c & [= <-] & _ & Hc). congruence.
        -- intros _. by exists chunks.
        -- intros _. by apply Hgrade.
        -- intros H. apply Hgrade in H as [H | H]; discriminate.
        -- destruct (_ <=? _)%Z; discriminate.
      * simpl. repeat split; try discriminate.
        -- intros [[e He] | (c & [= <-] & Hc)]; [discriminate | contradiction].
        -- intros _. by exists chunks.
        -- intros [H | H]; discriminate.
        -- intros (c & [= <-] & _ & Hc). congruence.
    + apply truthy_false in Hblank. simpl. repeat split; try discriminate.
      * intros _. right. by exists chunks.
      * intros (c & [= <-] & Hc & _). contradiction.
      * intros [H | H]; discriminate.
      * intros (c & [= <-] & Hc & _). contradiction.
  - simpl. repeat split; try discriminate.
    + intros _. left. by exists err.
    + intros (c & H & _). discriminate.
    + intros [H | H]; discriminate.
    + intros (c & H & _). discriminate.
    + apply getErrorMessage_nonempty.
Qed.

Lemma sdk_status_cases_witness :
  CheckResult.status
    (checkWithAiSdk Samples.defaults Samples.validate
       (Samples.provider openai None) (Samples.sdkRun None (inl [[32]; [10]]) 10))
  = failed
  /\ CheckResult.status
       (checkWithAiSdk Samples.defaults Samples.validate
          (Samples.provider openai None) (Samples.sdkRun None (inl [lit "7"]) 10))
     = validation_failed.
Proof.
  destruct (sdk_status_cases Samples.defaults Samples.validate
              (Samples.provider openai None)
              (Samples.sdkRun None (inl [[32]; [10]]) 10)) as (Hfailed & _).
  destruct (sdk_status_cases Samples.defaults Samples.validate
              (Samples.provider openai None)
              (Samples.sdkRun None (inl [lit "7"]) 10)) as (_ & Hrefused & _).
  split.
  - apply Hfailed. right. by exists [[32]; [10]].
  - apply Hrefused. exists [lit "7"]. split; [reflexivity|].
    split; [vm_compute; discriminate | reflexivity].
Defined.

(** ** The stream reader of the Gemini adapter *)

(** X10. The text the incremental reader returns does not depend on how
    the transport cuts the body into chunks: it is what the parser of a
    whole text returns on the chunks put together, so two cuttings of
    one body are read alike. *)
Theorem chunking_does_not_matter
    (JSON_parse : jstr -> option json) (extractGeminiText : json -> option jstr)
    (chunks : list jstr) :
  readEventStreamText JSON_parse extractGeminiText chunks
  = parseEventStreamLikeText JSON_parse extractGeminiText (concat chunks)
  /\ forall others,
       concat others = concat chunks ->
       readEventStreamText JSON_parse extractGeminiText others
       = readEventStreamText JSON_parse extractGeminiText chunks.
Proof.
  split; [apply readEventStreamText_chunks|].
  intros others H. by rewrite !readEventStreamText_chunks, H.
Qed.

Lemma chunking_does_not_matter_witness :
  readEventStreamText Samples.parse GeminiAction.extractGeminiText
    [concat Samples.twoEvents]
  = readEventStreamText Samples.parse GeminiAction.extractGeminiText
      Samples.twoEvents.
Proof.
  apply (chunking_does_not_matter Samples.parse GeminiAction.extractGeminiText
           Samples.twoEvents).
  exact (app_nil_r (concat Samples.twoEvents)).
Defined.

Lemma mergeStreamText_extends (p n : jstr) :
  exists q, mergeStreamText (Some p) n = p ++ q.
Proof.
  unfold mergeStreamText. destruct (truthy p) eqn:Hp; simpl.
  - destruct (startsWith n p) eqn:E.
    + apply startsWith_prefix in E as [q ->]. by exists q.
    + destruct (startsWith p n); [exists []; by rewrite app_nil_r | by exists n].
  - apply truthy_false in Hp. subst p. by exists n.
Qed.

Section StreamGrowth.

Variable JSON_parse : jstr -> option json.
Variable extract : json -> option jstr.

Lemma handlePayload_grows st (payload p : jstr) :
  text st = Some p ->
  exists q, text (handlePayload JSON_parse extract st payload) = Some (p ++ q).
Proof.
  intros Hp. assert (exists q, text st = Some (p ++ q)) as Hsame
    by (exists []; by rewrite app_nil_r).
  unfold handlePayload. destruct (_ || _); [exact Hsame|].
  destruct (JSON_parse _) as [parsed|]; [|exact Hsame].
  assert (exists q,
            text
              match extract parsed with
              | Some extracted =>
                  if truthy extracted && truthy (trim extracted)
                  then {| text := Some (mergeStreamText (text st) extracted);
                          lastPayload := Some parsed;
                          eventDataLines := eventDataLines st |}
                  else {| text := text st; lastPayload := Some parsed;
                          eventDataLines := eventDataLines st |}
              | None => {| text := text st; lastPayload := Some parsed;
                           eventDataLines := eventDataLines st |}
              end = Some (p ++ q)) as Hgrow.
  { destruct (extract parsed) as [extracted|]; [|exact Hsame].
    destruct (_ && _); [|exact Hsame]. simpl. rewrite Hp.
    destruct (mergeStreamText_extends p extracted) as [q ->]. by exists q. }
  destruct parsed; first [exact Hsame | exact Hgrow].
Qed.

Lemma flushEvent_grows st (p : jstr) :
  text st = Some p ->
  exists q, text (flushEvent JSON_parse extract st) = Some (p ++ q).
Proof.
  intros Hp. unfold flushEvent. destruct (eventDataLines st) as [|l ls].
  - exists []. by rewrite app_nil_r.
  - simpl. by apply handlePayload_grows.
Qed.

Lemma handleLine_grows st (rawLine p : jstr) :
  text st = Some p ->
  exists q, text (handleLine JSON_parse extract st rawLine) = Some (p ++ q).
Proof.
  intros Hp. assert (exists q, text st = Some (p ++ q)) as Hsame
    by (exists []; by rewrite app_nil_r).
  unfold handleLine. destruct (eqb _ []); [by apply flushEvent_grows|].
  destruct (startsWith _ (lit "data:")); [exact Hsame|].
  destruct (_ || _); [exact Hsame|].
  destruct (_ || _); [|exact Hsame].
  destruct (flushEvent_grows st p Hp) as [q1 H1].
  destruct (handlePayload_grows (flushEvent JSON_parse extract st)
              (trim (strip_cr rawLine)) (p ++ q1) H1) as [q2 H2].
  exists (q1 ++ q2). by rewrite app_assoc.
Qed.

Lemma handleLines_grow (lines : list jstr) st (p : jstr) :
  text st = Some p ->
  exists q,
    text (fold_left (handleLine JSON_parse extract) lines st) = Some (p ++ q).
Proof.
  revert st p. induction lines as [|l lines IH]; intros st p Hp.
  - exists []. by rewrite app_nil_r.
  - simpl. destruct (handleLine_grows st l p Hp) as [q1 H1].
    destruct (IH _ _ H1) as [q2 H2]. exists (q1 ++ q2). by rewrite app_assoc.
Qed.

End StreamGrowth.

(** X11. The stream parser never loses text: once its state holds the
    text [p], whatever lines follow, well formed or not, the text it
    holds afterwards, and the text it returns at the end of the stream,
    begin with [p]. *)
Theorem accumulated_text_only_grows
    (JSON_parse : jstr -> option json) (extractGeminiText : json -> option jstr)
    (st : ParserState) (lines : list jstr) (p : jstr) :
  text st = Some p ->
  (exists q,
     text (fold_left (handleLine JSON_parse extractGeminiText) lines st)
     = Some (p ++ q))
  /\ (exists q,
        text (flushEvent JSON_parse extractGeminiText
                (fold_left (handleLine JSON_parse extractGeminiText) lines st))
        = Some (p ++ q)).
Proof.
  intros Hp.
  destruct (handleLines_grow JSON_parse extractGeminiText lines st p Hp)
    as [q1 H1].
  split; [by exists q1|].
  destruct (flushEvent_grows JSON_parse extractGeminiText _ _ H1) as [q2 H2].
  exists (q1 ++ q2). by rewrite app_assoc.
Qed.

Lemma accumulated_text_only_grows_witness :
  exists q,
    text (fold_left (handleLine Samples.parse GeminiAction.extractGeminiText)
            [lit "data: " ++ Samples.event2; []; lit "garbage"; lit "data: {"; []]
            {| text := Some (lit "4"); lastPayload := None; eventDataLines := [] |})
    = Some (lit "4" ++ q).
Proof.
  apply (accumulated_text_only_grows Samples.parse GeminiAction.extractGeminiText
           {| text := Some (lit "4"); lastPayload := None; eventDataLines := [] |}
           [lit "data: " ++ Samples.event2; []; lit "garbage"; lit "data: {"; []]
           (lit "4")).
  reflexivity.
Defined.

(** ** Texts and replies of the Gemini adapter *)

Lemma scan_app (items : list json) (item : json) :
  GeminiAction.extractGeminiText (JArr (items ++ [item]))
  = match GeminiAction.extractGeminiText item with
    | Some t => Some t
    | None => GeminiAction.extractGeminiText (JArr items)
    end.
Proof.
  induction items as [|first items IH].
  - simpl. destruct (GeminiAction.extractGeminiText item) as [t|] eqn:E;
      [|reflexivity].
    apply extractGeminiText_usable in E as Hu.
    assert (truthy t = true) as Ht by (apply truthy_true; by intros ->).
    apply truthy_true in Hu. by rewrite Ht, Hu.
  - change ((first :: items) ++ [item]) with (first :: (items ++ [item])).
    change (GeminiAction.extractGeminiText (JArr (first :: items ++ [item])))
      with (match GeminiAction.extractGeminiText (JArr (items ++ [item])) with
            | Some t => Some t
            | None =>
                match GeminiAction.extractGeminiText first with
                | Some extracted =>
                    if truthy extracted && truthy (trim extracted)
                    then Some extracted else None
                | None => None
                end
            end).
    rewrite IH. destruct (GeminiAction.extractGeminiText item); reflexivity.
Qed.

(** X12. A text extracted from a payload is never blank, in both
    revisions of the adapter.  In the action-aware revision the text of
    an array payload is the text of its last item that yields one; the
    earlier revision extracts nothing from an array. *)
Theorem extracted_text_is_usable :
  (forall payload t,
     GeminiNative.extractGeminiText payload = Some t -> trim t <> [])
  /\ (forall payload t,
        GeminiAction.extractGeminiText payload = Some t -> trim t <> [])
  /\ (forall before item after t,
        GeminiAction.extractGeminiText item = Some t ->
        Forall (fun later => GeminiAction.extractGeminiText later = None) after ->
        GeminiAction.extractGeminiText (JArr (before ++ item :: after)) = Some t)
  /\ (forall items,
        Forall (fun item => GeminiAction.extractGeminiText item = None) items ->
        GeminiAction.extractGeminiText (JArr items) = None)
  /\ (forall items, GeminiNative.extractGeminiText (JArr items) = None).
Proof.
  assert (forall items,
            Forall (fun item => GeminiAction.extractGeminiText item = None) items ->
            forall front,
              GeminiAction.extractGeminiText (JArr (front ++ items))
              = GeminiAction.extractGeminiText (JArr front)) as Hnone.
  { intros items. induction items as [|item items IH] using rev_ind;
      intros Hall front.
    - by rewrite app_nil_r.
    - apply Forall_app in Hall as [Hitems Hitem]. inversion Hitem as [|? ? Hi _].
      rewrite app_assoc, scan_app, Hi. by apply IH. }
  split; [apply extractFromCandidates_usable|].
  split; [apply extractGeminiText_usable|].
  split; [|split; [|reflexivity]].
  - intros before item after t Hitem Hafter.
    change (before ++ item :: after) with (before ++ [item] ++ after).
    rewrite app_assoc, (Hnone after Hafter), scan_app. by rewrite Hitem.
  - intros items Hall. by rewrite <- (app_nil_l items), (Hnone items Hall).
Qed.

Lemma extracted_text_is_usable_witness :
  GeminiAction.extractGeminiText
    (JArr [Samples.reply (lit "4"); Samples.reply (lit "42"); JObj []; JNull])
  = Some (lit "42").
Proof.
  destruct extracted_text_is_usable as (_ & _ & H & _).
  apply (H [Samples.reply (lit "4")] (Samples.reply (lit "42")) [JObj []; JNull]).
  - reflexivity.
  - repeat constructor.
Defined.

Lemma readResponse_native_text (JSON_parse : jstr -> option json)
    (response : Response) (t : jstr) :
  GeminiNative.readResponse JSON_parse response = inl t ->
  t = [] \/ trim t <> [].
Proof.
  unfold GeminiNative.readResponse. destruct (negb (ok response)); [discriminate|].
  destruct (includes _ _).
  - destruct (GeminiCommon.stream response) as [b|]; [|discriminate].
    destruct (failure b); [discriminate|].
    destruct (fst _) as [text|]; [|intros [= <-]; by left].
    destruct (truthy text && truthy (trim text)) eqn:E; intros [= <-]; [|by left].
    right. apply andb_true_iff in E as [_ E]. by apply truthy_true.
  - destruct (_ || _); [intros [= <-]; by left|].
    destruct (_ ≫= _) as [text|]; [|intros [= <-]; by left].
    destruct (truthy (trim text)) eqn:E; intros [= <-]; [|by left].
    right. by apply truthy_true.
Qed.

Lemma readResponse_action_text (JSON_parse : jstr -> option json)
    (response : Response) (t : jstr) :
  GeminiAction.readResponse JSON_parse response = inl t ->
  t = [] \/ trim t <> [].
Proof.
  assert (forall payload : option json,
            match payload ≫= GeminiAction.extractGeminiText with
            | Some text => if truthy (trim text) then inl text else inl []
            | None => inl []
            end = (inl t : jstr + thrown) ->
            t = [] \/ trim t <> []) as Hpayload.
  { intros payload. destruct (_ ≫= _) as [text|]; [|intros [= <-]; by left].
    destruct (truthy (trim text)) eqn:E; intros [= <-]; [|by left].
    right. by apply truthy_true. }
  unfold GeminiAction.readResponse. destruct (negb (ok response)); [discriminate|].
  destruct (includes _ _).
  - destruct (GeminiCommon.stream response) as [b|]; [|discriminate].
    destruct (failure b); [discriminate|].
    destruct (fst _) as [text|]; [|intros [= <-]; by left].
    destruct (truthy text && truthy (trim text)) eqn:E; intros [= <-]; [|by left].
    right. apply andb_true_iff in E as [_ E]. by apply truthy_true.
  - destruct (_ || _); [intros [= <-]; by left|].
    destruct (JSON_parse _) as [payload|]; [apply (Hpayload (Some payload))|].
    destruct (fst _) as [text|]; [|apply Hpayload].
    destruct (truthy text && truthy (trim text)) eqn:E; [|apply Hpayload].
    intros [= <-]. right. apply andb_true_iff in E as [_ E]. by apply truthy_true.
Qed.

Lemma requestPhase_native_text (JSON_parse : jstr -> option json)
    (refusalMessage : jstr -> jstr -> jstr)
    (default_gemini : jstr) (config : ProviderConfig.t) (run : GeminiCommon.Run)
    (t : jstr) :
  fst (GeminiNative.requestPhase JSON_parse refusalMessage default_gemini
         config run) = inl t ->
  t = [] \/ trim t <> [].
Proof.
  unfold GeminiNative.requestPhase, GeminiNative.requestGeminiNative.
  destruct (GeminiNative.requestOf _) as [request | [key value]];
    [|discriminate].
  cbn [fst]. destruct (fetch run 0%nat request) as [response | e]; [|discriminate].
  apply readResponse_native_text.
Qed.

Lemma requestPhase_action_text (JSON_parse : jstr -> option json)
    (refusalMessage : jstr -> jstr -> jstr)
    (default_gemini : jstr) (config : ProviderConfig.t) (run : GeminiCommon.Run)
    (t : jstr) :
  fst (GeminiAction.requestPhase JSON_parse refusalMessage default_gemini
         config run) = inl t ->
  t = [] \/ trim t <> [].
Proof.
  unfold GeminiAction.requestPhase, GeminiAction.requestGeminiNative.
  destruct (GeminiAction.requestOf _) as [request | [key value]];
    [|discriminate].
  destruct (fetch run 0%nat request) as [response | e]; [|discriminate].
  destruct (GeminiAction.readResponse JSON_parse response) as [text | e] eqn:E1;
    [|discriminate].
  destruct (truthy (trim text)) eqn:Ht; cbn [negb].
  - intros [= <-]. right. by apply truthy_true.
  - destruct (GeminiAction.requestOf _) as [retry | [key value]];
      [|discriminate].
    destruct (fetch run 1%nat retry) as [second | e]; [|discriminate].
    apply readResponse_action_text.
Qed.

(** The grading of a reply, as both revisions of the Gemini check do it. *)
Lemma gemini_failed_iff (threshold : Z) (validateResponse : jstr -> jstr -> Validation)
    (toResult : Status -> option Z -> jstr -> CheckResult.t)
    (latencyMs : Z) (expected t : jstr) :
  (forall s l m, CheckResult.status (toResult s l m) = s) ->
  t = [] \/ trim t <> [] ->
  CheckResult.status
    (if negb (truthy (trim t)) then
       toResult failed (Some latencyMs) (lit "回复为空")
     else
       let v := validateResponse t expected in
       if negb (valid v) then
         toResult validation_failed (Some latencyMs)
           (lit "回复验证失败: 期望 " ++ expected
            ++ lit ", 实际: " ++ showExtracted (extractedNumbers v))
       else
         let status :=
           if (latencyMs <=? threshold)%Z then operational else degraded in
         let message :=
           match status with
           | degraded => lit "响应成功但耗时 " ++ of_Z latencyMs ++ lit "ms"
           | _ => lit "验证通过 (" ++ of_Z latencyMs ++ lit "ms)"
           end in
         toResult status (Some latencyMs) message) = failed
  <-> t = [].
Proof.
  intros Hstatus [-> | Ht].
  - simpl. by rewrite Hstatus.
  - pose proof Ht as Htruthy. apply truthy_true in Htruthy. rewrite Htruthy.
    simpl negb. cbv iota zeta. split.
    + destruct (negb _); rewrite Hstatus; [discriminate|].
      by destruct (_ <=? _)%Z.
    + intros ->. by destruct Ht.
Qed.

(** X13. The action-aware adapter reads an event stream alike under
    any content type: when the body of an ok response is not JSON as a
    whole and the stream reader finds a text in it that is not blank,
    [requestGeminiNative] returns that text whether or not the response
    is labelled [text/event-stream]. *)
Theorem event_stream_is_read_under_any_content_type
    (JSON_parse : jstr -> option json) (response : Response) (b : Body)
    (t : jstr) :
  ok response = true ->
  GeminiCommon.stream response = Some b ->
  failure b = None ->
  fst (readEventStreamText JSON_parse GeminiAction.extractGeminiText (chunks b))
  = Some t ->
  trim t <> [] ->
  JSON_parse (concat (chunks b)) = None ->
  trim (concat (chunks b)) <> [] ->
  trim (concat (chunks b)) <> lit "null" ->
  GeminiAction.readResponse JSON_parse response = inl t.
Proof.
  intros Hok Hs Hf Htext Ht Hjson Hblank Hnull.
  assert (truthy t && truthy (trim t) = true) as Husable.
  { apply andb_true_iff. split; apply truthy_true; [|exact Ht].
    intros ->. by apply Ht. }
  assert (responseText response = concat (chunks b)) as Hraw
    by (unfold responseText; by rewrite Hs, Hf).
  unfold GeminiAction.readResponse. rewrite Hok. simpl negb. cbv iota zeta.
  destruct (includes _ (lit "text/event-stream")).
  - by rewrite Hs, Hf, Htext, Husable.
  - rewrite Hraw. apply truthy_true in Hblank. apply eqb_neq in Hnull.
    rewrite Hblank, Hnull, Hjson. cbn [negb orb].
    rewrite <- readEventStreamText_chunks, Htext. by rewrite Husable.
Qed.

Lemma event_stream_is_read_under_any_content_type_witness :
  GeminiAction.readResponse Samples.parse
    (Cases.twoEventsAs (Some (lit "application/json"))) = inl (lit "42")
  /\ GeminiAction.readResponse Samples.parse
       (Cases.twoEventsAs (Some (lit "text/event-stream"))) = inl (lit "42")
  /\ GeminiAction.readResponse Samples.parse (Cases.twoEventsAs None)
     = inl (lit "42").
Proof.
  assert (forall contentType,
            GeminiAction.readResponse Samples.parse
              (Cases.twoEventsAs contentType) = inl (lit "42")) as H.
  { intros contentType.
    apply (event_stream_is_read_under_any_content_type Samples.parse
             (Cases.twoEventsAs contentType)
             {| chunks := Samples.twoEvents; failure := None |} (lit "42"));
      first [reflexivity | by vm_compute]. }
  split; [apply H | split; apply H].
Defined.

(** X14. The earlier revision does not read such a body as a stream:
    when the body of an ok response that is not labelled
    [text/event-stream] is not JSON as a whole, the text returned is
    extracted from the last line that parses alone, so the texts of the
    events before it are not merged in.  Here the last [data:] line is
    followed by blank lines only. *)
Theorem unlabelled_stream_yields_its_last_line
    (JSON_parse : jstr -> option json) (response : Response)
    (before after : list jstr) (x t : jstr) (parsed : json) :
  ok response = true ->
  includes (default [] (contentType response)) (lit "text/event-stream") = false ->
  trim (responseText response) <> [] ->
  trim (responseText response) <> lit "null" ->
  JSON_parse (responseText response) = None ->
  split_lines (responseText response) = before ++ (lit "data: " ++ x) :: after ->
  Forall (fun line => trim line = []) after ->
  trim x <> [] -> trim x <> lit "[DONE]" -> trim x <> lit "null" ->
  JSON_parse (trim x) = Some parsed ->
  GeminiNative.extractGeminiText parsed = Some t ->
  GeminiNative.readResponse JSON_parse response = inl t.
Proof.
  intros Hok Hct Hbody Hbodynull Hjson Hlines Hafter Hne Hdone Hnull Hparse Ht.
  unfold GeminiNative.readResponse. rewrite Hok, Hct. simpl negb. cbv iota zeta.
  apply truthy_true in Hbody. apply eqb_neq in Hbodynull.
  rewrite Hbody, Hbodynull, Hjson. cbn [negb orb].
  unfold GeminiNative.lastParsedLine. rewrite Hlines, fold_left_app.
  cbn [fold_left].
  rewrite trim_data_line, startsWith_app.
  change (slice_from 5 (lit "data:" ++ trimEnd (32 :: x)))
    with (trimEnd (32 :: x)).
  rewrite trimEnd_trim, trim_ws_cons by reflexivity.
  change (truthy (lit "data:" ++ trimEnd (32 :: x))) with true.
  assert (eqb (lit "data:" ++ trimEnd (32 :: x)) (lit "[DONE]") = false) as ->
    by (by apply eqb_neq).
  apply truthy_true in Hne. apply eqb_neq in Hdone, Hnull.
  rewrite Hne, Hdone, Hnull, Hparse. cbn [negb orb].
  match goal with
  | |- context [fold_left ?h after (Some parsed)] =>
      assert (fold_left h after (Some parsed) = Some parsed) as ->
  end.
  { clear -Hafter. induction Hafter as [|line after Hline _ IH]; [reflexivity|].
    cbn [fold_left]. rewrite Hline. exact IH. }
  simpl. rewrite Ht.
  pose proof (extractFromCandidates_usable parsed t Ht) as Hu.
  apply truthy_true in Hu. by rewrite Hu.
Qed.

Lemma unlabelled_stream_yields_its_last_line_witness :
  GeminiNative.readResponse Samples.parse Cases.mislabelled = inl (lit "4")
  /\ GeminiAction.readResponse Samples.parse Cases.mislabelled = inl (lit "42").
Proof.
  split; [|by vm_compute].
  apply (unlabelled_stream_yields_its_last_line Samples.parse Cases.mislabelled
           [lit "data: " ++ Samples.event2; []] [[]; []] Samples.event1
           (lit "4") (Samples.reply (lit "4")));
    first [reflexivity | by vm_compute | idtac].
  repeat constructor.
Defined.

(** X15. Both revisions of the Gemini check report failed exactly when
    the request phase returned the empty text.  A reply of blanks only
    is never handed on as it is: reading the response turns it into the
    empty text, so the text a check grades is empty or not blank. *)
Theorem gemini_failed_means_no_text :
  (forall JSON_parse refusalMessage default_gemini validateResponse
          getErrorMessage config run,
     let outcome :=
       fst (GeminiNative.requestPhase JSON_parse refusalMessage
              default_gemini config run) in
     let r :=
       fst (GeminiNative.checkWithGeminiNative JSON_parse refusalMessage
              default_gemini validateResponse getErrorMessage config run) in
     (forall t, outcome = inl t -> t = [] \/ trim t <> [])
     /\ (CheckResult.status r = failed <-> outcome = inl []))
  /\ (forall JSON_parse refusalMessage default_gemini validateResponse
             getErrorMessage configured config run,
        let outcome :=
          fst (GeminiAction.requestPhase JSON_parse refusalMessage
                 default_gemini config run) in
        let r :=
          fst (GeminiAction.checkWithGeminiNative JSON_parse refusalMessage
                 default_gemini
                 validateResponse getErrorMessage configured config run) in
        (forall t, outcome = inl t -> t = [] \/ trim t <> [])
        /\ (CheckResult.status r = failed <-> outcome = inl [])).
Proof.
  split.
  - intros J R D v g config run outcome r.
    split; [apply requestPhase_native_text|]. subst outcome r.
    pose proof (requestPhase_native_text J R D config run) as Htext.
    unfold GeminiNative.checkWithGeminiNative.
    destruct (GeminiNative.requestPhase J R D config run) as [[t | e] requests];
      simpl fst in *.
    + rewrite gemini_failed_iff; [| reflexivity | by apply Htext].
      split; [by intros -> | by intros [= ->]].
    + simpl. split; discriminate.
  - intros J R D v g configured config run outcome r.
    split; [apply requestPhase_action_text|]. subst outcome r.
    pose proof (requestPhase_action_text J R D config run) as Htext.
    unfold GeminiAction.checkWithGeminiNative.
    destruct (GeminiAction.requestPhase J R D config run) as [[t | e] requests];
      simpl fst in *.
    + rewrite gemini_failed_iff; [| reflexivity | by apply Htext].
      split; [by intros -> | by intros [= ->]].
    + simpl. split; discriminate.
Qed.

Lemma gemini_failed_means_no_text_witness :
  fst (GeminiNative.requestPhase Samples.parse Samples.refusal
         (Samples.defaults gemini)
         (Samples.provider gemini None) Cases.blankText) = inl []
  /\ CheckResult.status
       (fst (GeminiNative.checkWithGeminiNative Samples.parse Samples.refusal
               (Samples.defaults gemini) Samples.validate Samples.describe
               (Samples.provider gemini None)
               Cases.blankText)) = failed.
Proof.
  destruct gemini_failed_means_no_text as [H _].
  destruct (H Samples.parse Samples.refusal (Samples.defaults gemini) Samples.validate
              Samples.describe (Samples.provider gemini None) Cases.blankText)
    as [_ Hfailed].
  assert (fst (GeminiNative.requestPhase Samples.parse Samples.refusal
                 (Samples.defaults gemini)
                 (Samples.provider gemini None) Cases.blankText) = inl [])
    as Hout by (by vm_compute).
  split; [exact Hout|]. by apply Hfailed.
Defined.

(** X16. A response that is not ok makes both revisions of the Gemini
    check report error, with the elapsed time as latency and the message
    for an API error that carries the status of the response and the
    text of its body.  One request went out: the action-aware revision
    does not try again after an HTTP error. *)
Theorem http_error_is_reported_not_retried :
  (forall JSON_parse refusalMessage default_gemini validateResponse
          getErrorMessage config run request response,
     GeminiNative.requestOf
       {| GeminiNative.endpoint :=
            GeminiCommon.displayEndpoint default_gemini config;
          GeminiNative.apiKey := ProviderConfig.apiKey config;
          GeminiNative.model := ProviderConfig.model config;
          GeminiNative.prompt := Challenge.prompt (GeminiCommon.challenge run);
          GeminiNative.timeoutMs := Some GeminiCommon.DEFAULT_TIMEOUT_MS;
          GeminiNative.requestHeaders :=
            ProviderConfig.requestHeaders config |}
     = inl request ->
     fetch run 0%nat request = inl response ->
     ok response = false ->
     GeminiNative.checkWithGeminiNative JSON_parse refusalMessage default_gemini
       validateResponse getErrorMessage config run
     = (GeminiCommon.buildCheckResult (GeminiCommon.checkedAt run) config
          (GeminiCommon.displayEndpoint default_gemini config)
          (GeminiCommon.ping run) error
          (Some (GeminiCommon.finishedAt run - GeminiCommon.startedAt run)%Z)
          (getErrorMessage
             (Some (createGeminiApiError (status response)
                      (responseText response) None))),
        [request]))
  /\ (forall JSON_parse refusalMessage default_gemini validateResponse
             getErrorMessage configured config run request response,
        GeminiAction.requestOf
          (GeminiAction.paramsFor default_gemini config run
             GeminiAction.streamGenerateContent)
        = inl request ->
        fetch run 0%nat request = inl response ->
        ok response = false ->
        GeminiAction.checkWithGeminiNative JSON_parse refusalMessage
          default_gemini validateResponse getErrorMessage configured config run
        = (GeminiCommon.buildCheckResult (GeminiCommon.checkedAt run) config
             (GeminiCommon.displayEndpoint default_gemini config)
             (GeminiCommon.ping run) error
             (Some (GeminiCommon.finishedAt run - GeminiCommon.startedAt run)%Z)
             (getErrorMessage
                (Some (createGeminiApiError (status response)
                         (responseText response) None))),
           [request])).
Proof.
  split.
  - intros J R D v g config run request response Hrequest Hfetch Hok.
    unfold GeminiNative.checkWithGeminiNative, GeminiNative.requestPhase,
      GeminiNative.requestGeminiNative.
    rewrite Hrequest, Hfetch.
    unfold GeminiNative.readResponse. rewrite Hok. reflexivity.
  - intros J R D v g configured config run request response Hrequest Hfetch Hok.
    unfold GeminiAction.checkWithGeminiNative, GeminiAction.requestPhase,
      GeminiAction.requestGeminiNative.
    rewrite Hrequest, Hfetch.
    unfold GeminiAction.readResponse. rewrite Hok. reflexivity.
Qed.

Lemma http_error_is_reported_not_retried_witness :
  CheckResult.message
    (fst (GeminiAction.checkWithGeminiNative Samples.parse Samples.refusal
            (Samples.defaults gemini) Samples.validate
            (fun err =>
               match err with
               | Some e => of_Z (default 0%Z (statusCode e)) ++ lit ": "
                           ++ default [] (responseBody e)
               | None => []
               end)
            None (Samples.provider gemini None) Cases.throttled))
  = lit "429: quota exceeded"
  /\ length
       (snd (GeminiAction.checkWithGeminiNative Samples.parse Samples.refusal
               (Samples.defaults gemini) Samples.validate Samples.describe None
               (Samples.provider gemini None) Cases.throttled)) = 1%nat.
Proof.
  destruct http_error_is_reported_not_retried as [_ H].
  destruct (GeminiAction.requestOf
              (GeminiAction.paramsFor (Samples.defaults gemini)
                 (Samples.provider gemini None) Cases.throttled
                 GeminiAction.streamGenerateContent))
    as [request | refused] eqn:Hrequest; [|vm_compute in Hrequest; discriminate].
  split.
  - rewrite (H Samples.parse Samples.refusal (Samples.defaults gemini)
               Samples.validate _ None (Samples.provider gemini None)
               Cases.throttled request Cases.tooMany Hrequest eq_refl eq_refl).
    by vm_compute.
  - by rewrite (H Samples.parse Samples.refusal (Samples.defaults gemini)
                  Samples.validate Samples.describe None
                  (Samples.provider gemini None) Cases.throttled request
                  Cases.tooMany Hrequest eq_refl eq_refl).
Defined.

(** ** The check through the OpenAI-compatible interface *)

Lemma startsWith_take (n : nat) (s pat : jstr) :
  startsWith (take n s) pat = true -> startsWith s pat = true.
Proof.
  rewrite !startsWith_prefix. intros H. etrans; [exact H|]. apply prefix_take.
Qed.

Lemma includes_take (n : nat) (s pat : jstr) :
  includes (take n s) pat = true -> includes s pat = true.
Proof.
  rewrite !includes_spec. intros (pre & post & H).
  exists pre, (post ++ drop n s).
  rewrite <- (take_drop n s) at 1. rewrite H. by rewrite <- !app_assoc.
Qed.

Lemma indexOf_None (s pat : jstr) :
  GeminiCompat.indexOf s pat = None <-> includes s pat = false.
Proof.
  induction s as [|c s IH]; simpl.
  - destruct (startsWith [] pat); simpl; split; congruence.
  - destruct (startsWith (c :: s) pat); simpl; [split; congruence|].
    rewrite <- IH. destruct (GeminiCompat.indexOf s pat); simpl; split; congruence.
Qed.

Lemma indexOf_Some (s pat : jstr) (i : nat) :
  GeminiCompat.indexOf s pat = Some i ->
  take (i + length pat) s = take i s ++ pat
  /\ (pat <> [] -> includes (take i s) pat = false).
Proof.
  revert i. induction s as [|c s IH]; intros i.
  - simpl. destruct (startsWith [] pat) eqn:E; [|discriminate].
    intros [= <-]. destruct pat; [|discriminate]. split; [reflexivity | congruence].
  - cbn [GeminiCompat.indexOf]. destruct (startsWith (c :: s) pat) eqn:E.
    + intros [= <-]. apply startsWith_prefix in E as [rest E]. split.
      * rewrite E. simpl. by rewrite take_app_length.
      * intros Hne. simpl. destruct pat; [congruence | reflexivity].
    + destruct (GeminiCompat.indexOf s pat) as [j|] eqn:Ej; [|discriminate].
      intros [= <-]. destruct (IH j eq_refl) as [Htake Hnone]. split.
      * simpl. by rewrite Htake.
      * intros Hne. cbn [take includes]. rewrite (Hnone Hne), orb_false_r.
        destruct (startsWith (c :: take j s) pat) eqn:E'; [|reflexivity].
        apply (startsWith_take (S j) (c :: s)) in E'. congruence.
Qed.

(** X17. The base URL the compatible client is built with is an initial
    part of the endpoint (of the default one when none is configured),
    holds no question mark and no [/chat/completions], and either ends
    with its only [/v1] or holds none: whatever follows the first [/v1]
    of the endpoint is dropped. *)
Theorem compatible_base_url_shape (default_gemini : jstr)
    (endpoint : option jstr) :
  let raw :=
    match endpoint with
    | Some e => if truthy e then e else default_gemini
    | None => default_gemini
    end in
  let base := GeminiCompat.deriveGeminiBaseURL default_gemini endpoint in
  base `prefix_of` raw
  /\ Forall (fun c => c <> 63) base
  /\ includes base (lit "/chat/completions") = false
  /\ (endsWith base (lit "/v1") = true \/ includes base (lit "/v1") = false).
Proof.
  intros raw base. subst base. unfold GeminiCompat.deriveGeminiBaseURL.
  fold raw. generalize raw. clear raw. intros raw.
  destruct (withoutQuery_cut raw) as [Hplain Hcut].
  unfold AiSdkSetup.withoutQuery in Hplain, Hcut.
  set (w := default [] (split_char 63 raw !! 0%nat)) in *.
  assert (w `prefix_of` raw) as Hw.
  { destruct Hcut as [<- | [q Hq]]; [done|]. rewrite Hq. by apply prefix_app_r. }
  set (cut := match GeminiCompat.indexOf w (lit "/chat/completions") with
              | Some chatIndex => take chatIndex w
              | None => w
              end).
  assert (cut `prefix_of` w /\ includes cut (lit "/chat/completions") = false)
    as [Hcutw Hnochat].
  { subst cut. destruct (GeminiCompat.indexOf w _) as [j|] eqn:E.
    - split; [apply prefix_take|]. by apply (indexOf_Some _ _ _ E).
    - split; [done | by apply indexOf_None]. }
  set (r := match GeminiCompat.indexOf cut (lit "/v1") with
            | Some v1Index => take (v1Index + 3) cut
            | None => cut
            end).
  assert (r `prefix_of` cut
          /\ (endsWith r (lit "/v1") = true \/ includes r (lit "/v1") = false))
    as [Hrcut Hv1].
  { subst r. destruct (GeminiCompat.indexOf cut _) as [i|] eqn:E.
    - split; [apply prefix_take|]. left.
      apply indexOf_Some in E as [E _]. change (length (lit "/v1")) with 3%nat in E.
      rewrite E. apply endsWith_suffix. by exists (take i cut).
    - split; [done|]. right. by apply indexOf_None. }
  assert (r `prefix_of` w) as Hrw by (etrans; eassumption).
  split; [by etrans|]. split; [|split; [|exact Hv1]].
  - destruct Hrw as [rest Hrest]. rewrite Hrest in Hplain.
    by apply Forall_app in Hplain as [? _].
  - destruct (includes r (lit "/chat/completions")) eqn:E; [|reflexivity].
    destruct Hrcut as [rest Hrest].
    assert (includes cut (lit "/chat/completions") = true); [|congruence].
    apply includes_spec in E as (pre & post & E). apply includes_spec.
    exists pre, (post ++ rest). rewrite Hrest, E. by rewrite <- !app_assoc.
Qed.

(** X18. The check through the compatible interface grades by time
    alone: a stream that completes is operational up to 6000 ms and
    degraded beyond, with the elapsed time as latency, whatever was
    received; a stream that throws is failed without a latency, with the
    fixed message for a timeout when the error is named [AbortError] and
    the message of the error, or the fixed message for an unknown error,
    otherwise.  The result is never validation_failed or error. *)
Theorem compatible_check_grades_by_time_only (default_gemini : jstr)
    (config : ProviderConfig.t) (run : GeminiCompat.Run) :
  let r := GeminiCompat.checkGemini default_gemini config run in
  let elapsed := (GeminiCompat.finishedAt run - GeminiCompat.startedAt run)%Z in
  (GeminiCompat.stream run = None ->
   CheckResult.latencyMs r = Some elapsed
   /\ ((elapsed <= 6000)%Z -> CheckResult.status r = operational)
   /\ ((6000 < elapsed)%Z -> CheckResult.status r = degraded))
  /\ (forall err,
        GeminiCompat.stream run = Some err ->
        CheckResult.status r = failed /\ CheckResult.latencyMs r = None
        /\ CheckResult.message r <> []
        /\ (forall e,
              err = Some e -> err_name e = Some (lit "AbortError") ->
              CheckResult.message r = lit "请求超时")
        /\ (forall e m,
              err = Some e -> err_name e <> Some (lit "AbortError") ->
              err_message e = Some m -> m <> [] ->
              CheckResult.message r = m))
  /\ CheckResult.status r <> validation_failed
  /\ CheckResult.status r <> error.
Proof.
  intros r elapsed. subst r elapsed. unfold GeminiCompat.checkGemini.
  destruct (GeminiCompat.stream run) as [err|]; simpl.
  - split; [discriminate|]. split; [|split; discriminate].
    intros err' [= <-]. split; [reflexivity|]. split; [reflexivity|].
    split; [|split].
    + destruct err as [e|]; [|discriminate].
      destruct (bool_decide _); [discriminate|].
      destruct (truthy _) eqn:Hm; [by apply truthy_true in Hm | discriminate].
    + intros e [= ->] Hname. by rewrite bool_decide_eq_true_2.
    + intros e m [= ->] Hname Hm Hne. rewrite bool_decide_eq_false_2 by exact Hname.
      rewrite Hm. simpl. apply truthy_true in Hne. by rewrite Hne.
  - unfold GeminiCompat.DEGRADED_THRESHOLD_MS.
    destruct (Z.leb_spec (GeminiCompat.finishedAt run - GeminiCompat.startedAt run)
                6000); simpl.
    + repeat split; try discriminate; intros; lia.
    + repeat split; try discriminate; intros; lia.
Qed.

Lemma compatible_check_grades_by_time_only_witness :
  CheckResult.status
    (GeminiCompat.checkGemini (Samples.defaults gemini)
       (Samples.provider gemini None) Cases.compatSlow) = degraded
  /\ CheckResult.message
       (GeminiCompat.checkGemini (Samples.defaults gemini)
          (Samples.provider gemini None) Cases.compatAborted) = lit "请求超时".
Proof.
  destruct (compatible_check_grades_by_time_only (Samples.defaults gemini)
              (Samples.provider gemini None) Cases.compatSlow)
    as (Hdone & _).
  destruct (Hdone eq_refl) as (_ & _ & Hslow).
  destruct (compatible_check_grades_by_time_only (Samples.defaults gemini)
              (Samples.provider gemini None) Cases.compatAborted)
    as (_ & Hthrown & _).
  destruct (Hthrown (Some Samples.abortError) eq_refl) as (_ & _ & _ & Habort & _).
  split.
  - apply Hslow. vm_compute. reflexivity.
  - by apply (Habort Samples.abortError).
Defined.

Lemma cut_at_first (c : N) (a b x y : jstr) :
  Forall (fun k => k <> c) a -> Forall (fun k => k <> c) b ->
  a ++ c :: x = b ++ c :: y -> a = b /\ x = y.
Proof.
  intros Ha. revert b. induction Ha as [|k a Hk _ IH]; intros b Hb E.
  - destruct b as [|k b]; simpl in E; [by injection E as ->|].
    injection E as <- _. by inversion Hb.
  - destruct b as [|k' b]; simpl in E; injection E as -> E; [done|].
    inversion Hb; subst. destruct (IH b) as [-> ->]; auto.
Qed.

Lemma cache_key_injective (base1 key1 base2 key2 : jstr) :
  Forall (fun k => k <> 58) key1 -> Forall (fun k => k <> 58) key2 ->
  base1 ++ lit "::" ++ key1 = base2 ++ lit "::" ++ key2 ->
  base1 = base2 /\ key1 = key2.
Proof.
  intros H1 H2 E. apply (f_equal (@rev N)) in E.
  rewrite !rev_app_distr in E. change (rev (lit "::")) with [58; 58] in E.
  rewrite <- !app_assoc in E. simpl in E.
  apply cut_at_first in E as [Ek E]; [| by apply Forall_rev | by apply Forall_rev].
  injection E as E. split.
  - by rewrite <- (rev_involutive base1), E, rev_involutive.
  - by rewrite <- (rev_involutive key1), Ek, rev_involutive.
Qed.

(** Every client of the cache sits under the key of its own options. *)
Lemma getGeminiClients_own (default_gemini : jstr)
    (configs : list ProviderConfig.t) (cache : gmap jstr GeminiCompat.Client) :
  Forall (fun config => Forall (fun k => k <> 58) (ProviderConfig.apiKey config))
    configs ->
  (forall key client,
     cache !! key = Some client ->
     key = GeminiCompat.clientBaseURL client ++ lit "::"
           ++ GeminiCompat.clientApiKey client
     /\ Forall (fun k => k <> 58) (GeminiCompat.clientApiKey client)) ->
  Forall2
    (fun config client =>
       GeminiCompat.clientApiKey client = ProviderConfig.apiKey config
       /\ GeminiCompat.clientBaseURL client
          = GeminiCompat.deriveGeminiBaseURL default_gemini
              (ProviderConfig.endpoint config))
    configs (fst (GeminiCompat.getGeminiClients default_gemini cache configs)).
Proof.
  intros Hkeys. revert cache.
  induction Hkeys as [|config rest Hkey _ IH]; intros cache Hown; [constructor|].
  cbn [GeminiCompat.getGeminiClients]. unfold GeminiCompat.getGeminiClient.
  set (baseURL := GeminiCompat.deriveGeminiBaseURL default_gemini
                    (ProviderConfig.endpoint config)).
  destruct (cache !! (baseURL ++ lit "::" ++ ProviderConfig.apiKey config))
    as [cached|] eqn:E.
  - specialize (IH cache Hown).
    destruct (GeminiCompat.getGeminiClients default_gemini cache rest)
      as [clients final]. simpl. constructor; [|exact IH].
    destruct (Hown _ _ E) as [Hk Hfree].
    destruct (cache_key_injective _ _ _ _ Hkey Hfree Hk) as [Hb Ha].
    by split.
  - match goal with
    | |- context [GeminiCompat.getGeminiClients _ ?c rest] =>
        specialize (IH c); destruct (GeminiCompat.getGeminiClients _ c rest)
          as [clients final]
    end.
    simpl. constructor; [by split|]. apply IH.
    intros key client Hlook. rewrite lookup_insert in Hlook.
    destruct (decide (_ = key)) as [<- | _]; [|by apply Hown].
    injection Hlook as <-. by split.
Qed.

(** X19. The cache of compatible clients never hands a client to a
    provider it was not made for, as long as no API key holds a colon:
    through any sequence of calls on one cache that starts empty, each
    call returns a client built with the API key of its own
    configuration and the base URL derived from its own endpoint. *)
Theorem cached_client_matches_its_provider (default_gemini : jstr)
    (configs : list ProviderConfig.t) :
  Forall (fun config => Forall (fun k => k <> 58) (ProviderConfig.apiKey config))
    configs ->
  Forall2
    (fun config client =>
       GeminiCompat.clientApiKey client = ProviderConfig.apiKey config
       /\ GeminiCompat.clientBaseURL client
          = GeminiCompat.deriveGeminiBaseURL default_gemini
              (ProviderConfig.endpoint config))
    configs (fst (GeminiCompat.getGeminiClients default_gemini ∅ configs)).
Proof.
  intros Hkeys. apply getGeminiClients_own; [exact Hkeys|].
  intros key client H. by rewrite lookup_empty in H.
Qed.

Lemma cached_client_matches_its_provider_witness :
  Forall2
    (fun config client =>
       GeminiCompat.clientApiKey client = ProviderConfig.apiKey config
       /\ GeminiCompat.clientBaseURL client
          = GeminiCompat.deriveGeminiBaseURL (Samples.defaults gemini)
              (ProviderConfig.endpoint config))
    [Samples.provider gemini None; Cases.directed gemini;
     Samples.provider gemini None]
    (fst (GeminiCompat.getGeminiClients (Samples.defaults gemini) ∅
            [Samples.provider gemini None; Cases.directed gemini;
             Samples.provider gemini None])).
Proof.
  apply (cached_client_matches_its_provider (Samples.defaults gemini)
           [Samples.provider gemini None; Cases.directed gemini;
            Samples.provider gemini None]).
  repeat constructor; discriminate.
Defined.

(** ** The official status of Gemini *)

Section OfficialStatusFacts.

Variable Date_parse : jstr -> option Z.
Variable toUpperCase : jstr -> jstr.
Variable toLowerCase : jstr -> jstr.

Lemma filterActive_steady (clock : nat -> Z) (t : Z) (n : nat)
    (incidents : list OfficialStatus.GoogleCloudIncident) :
  (forall k, clock k = t) ->
  OfficialStatus.filterActive Date_parse clock n incidents
  = List.filter (OfficialStatus.isActiveIncident Date_parse t) incidents.
Proof.
  intros Hclock. revert n. induction incidents as [|i rest IH]; intros n;
    [reflexivity|].
  simpl. rewrite Hclock, IH. reflexivity.
Qed.

Lemma filter_nil_iff {A} (p : A -> bool) (l : list A) :
  List.filter p l = [] <-> Forall (fun x => p x = false) l.
Proof.
  induction l as [|x l IH]; simpl; [split; [constructor | reflexivity]|].
  destruct (p x) eqn:E.
  - split; [discriminate|]. intros H. inversion H; congruence.
  - rewrite IH. split; [by constructor | intros H; by inversion H].
Qed.

Lemma formatMessage_nonempty (incidents : list OfficialStatus.GoogleCloudIncident) :
  OfficialStatus.formatMessage incidents <> [].
Proof.
  unfold OfficialStatus.formatMessage. destruct incidents; [discriminate|].
  destruct (_ <? _)%nat; discriminate.
Qed.

End OfficialStatusFacts.

Lemma toStatus_degraded_or_down (toUpperCase toLowerCase : jstr -> jstr)
    (incidents : list OfficialStatus.GoogleCloudIncident) :
  OfficialStatus.toStatus toUpperCase toLowerCase incidents
  = OfficialStatus.degraded
  \/ OfficialStatus.toStatus toUpperCase toLowerCase incidents
     = OfficialStatus.down.
Proof.
  unfold OfficialStatus.toStatus.
  induction incidents as [|incident rest IH]; [by left|].
  cbn [OfficialStatus.toStatus_from].
  destruct (includes _ (lit "OUTAGE")); [by right|].
  destruct (includes _ (lit "DISRUPTION")); [exact IH|].
  destruct (eqb _ (lit "high")); [by right|].
  destruct (_ || _); exact IH.
Qed.

Ltac by_steady_clock Hsteady :=
  match goal with
  | Hc : forall n, _ = ?t |- _ =>
      first [apply (proj1 (Hsteady t _ Hc)) | apply (proj2 (Hsteady t _ Hc))]
  end.

(** X20. The status drawn from the active incidents is down when one of
    them reports an outage in its impact, or names no disruption there
    and has the severity high; it is degraded otherwise, whatever the
    severities are.  It is never operational or unknown. *)
Theorem status_of_active_incidents
    (toUpperCase toLowerCase : jstr -> jstr)
    (incidents : list OfficialStatus.GoogleCloudIncident) :
  let impact incident :=
    toUpperCase (default [] (OfficialStatus.status_impact incident)) in
  let serious incident :=
    includes (impact incident) (lit "OUTAGE")
    || negb (includes (impact incident) (lit "DISRUPTION"))
       && eqb (toLowerCase (default [] (OfficialStatus.severity incident)))
            (lit "high") in
  OfficialStatus.toStatus toUpperCase toLowerCase incidents
  = if existsb serious incidents
    then OfficialStatus.down else OfficialStatus.degraded.
Proof.
  intros impact serious. unfold OfficialStatus.toStatus.
  induction incidents as [|incident rest IH]; [reflexivity|].
  cbn [OfficialStatus.toStatus_from existsb]. subst serious impact. cbv beta.
  destruct (includes _ (lit "OUTAGE")); [reflexivity|].
  destruct (includes _ (lit "DISRUPTION")); [exact IH|].
  destruct (eqb _ (lit "high")); [reflexivity|]. simpl.
  destruct (_ || _); exact IH.
Qed.

(** X21. The status check reports operational exactly when the feed was
    fetched and holds no incident that both names the Gemini product and
    is still active, which includes a feed that is not a list; it reports
    unknown exactly when the feed could not be fetched or read; in the
    one remaining case it reports degraded or down and names the product
    as the affected component.  With a steady clock an incident is left
    out exactly when it does not name the product, or has an end that
    does not parse or is not after the clock. *)
Theorem official_status_cases
    (Date_parse : jstr -> option Z) (toUpperCase toLowerCase : jstr -> jstr)
    (run : OfficialStatus.Run) (result : OfficialStatus.OfficialStatusResult) :
  OfficialStatus.checkGeminiStatus Date_parse toUpperCase toLowerCase run
  = Some result ->
  let active data :=
    OfficialStatus.filterActive Date_parse (OfficialStatus.clock run) 0
      (List.filter OfficialStatus.isGeminiRelatedIncident (default [] data)) in
  OfficialStatus.checkedAt result = OfficialStatus.now run
  /\ OfficialStatus.message result <> []
  /\ (OfficialStatus.status result = OfficialStatus.operational <->
      exists data,
        OfficialStatus.fetched run = OfficialStatus.Ok (inl data)
        /\ active data = [])
  /\ (OfficialStatus.status result = OfficialStatus.unknown <->
      forall data, OfficialStatus.fetched run <> OfficialStatus.Ok (inl data))
  /\ (OfficialStatus.affectedComponents result
      = Some [OfficialStatus.GEMINI_PRODUCT_TITLE] <->
      OfficialStatus.status result = OfficialStatus.degraded
      \/ OfficialStatus.status result = OfficialStatus.down)
  /\ (forall t data,
        (forall n, OfficialStatus.clock run n = t) ->
        (active data = [] <->
         Forall
           (fun incident =>
              OfficialStatus.isGeminiRelatedIncident incident = false
              \/ exists e,
                   OfficialStatus.end_ incident = Some e
                   /\ forall endMs, Date_parse e = Some endMs -> (endMs <= t)%Z)
           (default [] data))).
Proof.
  intros Hresult active.
  assert (forall t data,
            (forall n, OfficialStatus.clock run n = t) ->
            (active data = [] <->
             Forall
               (fun incident =>
                  OfficialStatus.isGeminiRelatedIncident incident = false
                  \/ exists e,
                       OfficialStatus.end_ incident = Some e
                       /\ forall endMs,
                            Date_parse e = Some endMs -> (endMs <= t)%Z)
               (default [] data))) as Hsteady.
  { intros t data Hclock. subst active. cbv beta.
    rewrite (filterActive_steady Date_parse _ t 0 _ Hclock), filter_nil_iff.
    rewrite !Forall_forall. split.
    - intros H incident Hin.
      destruct (OfficialStatus.isGeminiRelatedIncident incident) eqn:Hrel;
        [right | by left].
      assert (incident ∈ List.filter OfficialStatus.isGeminiRelatedIncident
                           (default [] data)) as Hin'.
      { apply list_elem_of_In, filter_In. split; [by apply list_elem_of_In | done]. }
      specialize (H _ Hin'). unfold OfficialStatus.isActiveIncident in H.
      destruct (OfficialStatus.end_ incident) as [e|]; [|discriminate].
      exists e. split; [reflexivity|]. intros endMs Hp. rewrite Hp in H.
      apply Z.ltb_ge in H. exact H.
    - intros H incident Hin. apply list_elem_of_In, filter_In in Hin as [Hin Hrel].
      apply list_elem_of_In in Hin.
      destruct (H _ Hin) as [Hno | (e & He & Hend)]; [congruence|].
      unfold OfficialStatus.isActiveIncident. rewrite He.
      destruct (Date_parse e) as [endMs|]; [|reflexivity].
      apply Z.ltb_ge. by apply Hend. }
  unfold OfficialStatus.checkGeminiStatus in Hresult.
  assert (forall err,
            OfficialStatus.onError (OfficialStatus.now run) err = Some result ->
            OfficialStatus.checkedAt result = OfficialStatus.now run
            /\ OfficialStatus.message result <> []
            /\ OfficialStatus.status result = OfficialStatus.unknown
            /\ OfficialStatus.affectedComponents result = None) as Herr.
  { intros [e|]; [|discriminate]. simpl. intros [= <-]. simpl.
    repeat split. by destruct (bool_decide _). }
  destruct (OfficialStatus.fetched run) as [err | httpStatus | [data | err]].
  - destruct (Herr err Hresult) as (Hc & Hm & Hs & Ha).
    rewrite Hs, Ha.
    repeat split; try discriminate; try assumption; try by_steady_clock Hsteady.
    + intros (data & H & _). discriminate.
    + intros [H | H]; discriminate.
  - injection Hresult as <-. simpl.
    repeat split; try discriminate; try assumption; try by_steady_clock Hsteady.
    + intros (data & H & _). discriminate.
    + intros [H | H]; discriminate.
  - fold (active data) in Hresult.
    destruct (active data) as [|first others] eqn:Hactive.
    + injection Hresult as <-. simpl.
      repeat split; try discriminate; try assumption;
        try by_steady_clock Hsteady.
      * intros _. by exists data.
      * intros H. by destruct (H data).
      * intros [H | H]; discriminate.
    + clear Herr. apply (inj Some) in Hresult. subst result.
      cbn [OfficialStatus.status OfficialStatus.message OfficialStatus.checkedAt
           OfficialStatus.affectedComponents].
      destruct (toStatus_degraded_or_down toUpperCase toLowerCase
                  (first :: others)) as [-> | ->];
        repeat split; try assumption; try discriminate;
        try by_steady_clock Hsteady; try apply formatMessage_nonempty;
        try (intros (data' & [= <-] & H); rewrite Hactive in H; discriminate);
        try (intros H; by destruct (H data));
        try (intros _; auto).
  - destruct (Herr err Hresult) as (Hc & Hm & Hs & Ha).
    rewrite Hs, Ha.
    repeat split; try discriminate; try assumption; try by_steady_clock Hsteady.
    + intros (data & H & _). discriminate.
    + intros [H | H]; discriminate.
Qed.

Lemma official_status_cases_witness :
  exists result,
    OfficialStatus.checkGeminiStatus Cases.parseDate Cases.asciiUpper
      Cases.asciiLower
      (Cases.statusRun
         (OfficialStatus.Ok
            (inl (Some [Cases.storageOutage; Cases.geminiDisruption]))))
    = Some result
    /\ OfficialStatus.status result = OfficialStatus.degraded
    /\ OfficialStatus.affectedComponents result
       = Some [OfficialStatus.GEMINI_PRODUCT_TITLE].
Proof.
  eexists. split; [reflexivity|]. split; [reflexivity|].
  match goal with
  | |- OfficialStatus.affectedComponents ?r = _ =>
      destruct (official_status_cases Cases.parseDate Cases.asciiUpper
                  Cases.asciiLower
                  (Cases.statusRun
                     (OfficialStatus.Ok
                        (inl (Some [Cases.storageOutage; Cases.geminiDisruption]))))
                  r eq_refl) as (_ & _ & _ & _ & Haffected & _)
  end.
  apply Haffected. by left.
Defined.

(** ** What the poller does over time *)

Lemma count_app {A} (p : A -> bool) (a b : list A) :
  PollerTrace.count p (a ++ b) = (PollerTrace.count p a + PollerTrace.count p b)%nat.
Proof. unfold PollerTrace.count. by rewrite List.filter_app, length_app. Qed.

Lemma count_delete_le {A} (p : A -> bool) (l : list A) (i : nat) :
  (PollerTrace.count p (delete i l) <= PollerTrace.count p l)%nat.
Proof.
  revert i. induction l as [|x l IH]; intros i; [by destruct i|].
  destruct i as [|i]; unfold PollerTrace.count in *; simpl.
  - destruct (p x); simpl; lia.
  - specialize (IH i). destruct (p x); simpl; lia.
Qed.

Lemma count_replace {A} (p : A -> bool) (l : list A) (i : nat) (x y : A) :
  l !! i = Some x -> p x = true -> p y = false ->
  (PollerTrace.count p (<[i := y]> l) + 1 = PollerTrace.count p l)%nat.
Proof.
  revert i. induction l as [|z l IH]; intros i Hi Hx Hy; [by destruct i|].
  destruct i as [|i]; unfold PollerTrace.count in *; simpl in *.
  - injection Hi as ->. rewrite Hx, Hy. simpl. lia.
  - specialize (IH i Hi Hx Hy). destruct (p z); simpl; lia.
Qed.

Section PollerAccounts.

Variable POLL_INTERVAL_MS : Z.

Lemma step_accounts (st : State) (ev : Event) :
  let '(st', out) := step POLL_INTERVAL_MS st ev in
  (if PollerTrace.is_fire ev then 1 else 0)%nat
  = (PollerTrace.count PollerTrace.is_start out
     + PollerTrace.count PollerTrace.is_skip out)%nat
  /\ (PollerTrace.count PollerTrace.is_append out
      + PollerTrace.count PollerTrace.awaits_checks (inflight st')
      <= PollerTrace.count PollerTrace.is_start out
         + PollerTrace.count PollerTrace.awaits_checks (inflight st))%nat
  /\ Forall PollerTrace.writes_results out.
Proof.
  destruct ev as [now | i outcome | i outcome now]; simpl.
  - unfold tick. destruct (__checkCxPollerRunning (globals st)); simpl.
    + split; [reflexivity|]. split; [|repeat constructor].
      unfold PollerTrace.count; simpl; lia.
    + rewrite count_app. split; [reflexivity|]. split; [|repeat constructor].
      unfold PollerTrace.count; simpl; lia.
  - destruct (inflight st !! i) as [[startedAt | startedAt results]|] eqn:E;
      try (split; [reflexivity|]; split; [|constructor];
           unfold PollerTrace.count; simpl; lia).
    unfold afterChecks. destruct outcome as [[|r results] | err]; simpl.
    + pose proof (count_delete_le PollerTrace.awaits_checks (inflight st) i).
      split; [reflexivity|]. split; [|repeat constructor].
      unfold PollerTrace.count in *; simpl; lia.
    + pose proof (count_replace PollerTrace.awaits_checks (inflight st) i
                    (AwaitingChecks startedAt)
                    (AwaitingAppend startedAt (r :: results)) E eq_refl eq_refl).
      split; [reflexivity|]. split; [unfold PollerTrace.count in *; simpl; lia|].
      repeat constructor. discriminate.
    + pose proof (count_delete_le PollerTrace.awaits_checks (inflight st) i).
      split; [reflexivity|]. split; [|repeat constructor].
      unfold PollerTrace.count in *; simpl; lia.
  - destruct (inflight st !! i) as [[startedAt | startedAt results]|] eqn:E;
      try (split; [reflexivity|]; split; [|constructor];
           unfold PollerTrace.count; simpl; lia).
    unfold afterAppend.
    pose proof (count_delete_le PollerTrace.awaits_checks (inflight st) i).
    destruct outcome; simpl;
      (split; [reflexivity|]; split; [|repeat constructor];
       unfold PollerTrace.count in *; simpl; lia).
Qed.

Lemma run_snoc (evs : list Event) (ev : Event) :
  run POLL_INTERVAL_MS (evs ++ [ev])
  = let '(st', out) := step POLL_INTERVAL_MS (fst (run POLL_INTERVAL_MS evs)) ev in
    (st', snd (run POLL_INTERVAL_MS evs) ++ out).
Proof. unfold run. by rewrite fold_left_app. Qed.

Lemma run_accounts (evs : list Event) :
  let st := fst (run POLL_INTERVAL_MS evs) in
  let out := snd (run POLL_INTERVAL_MS evs) in
  PollerTrace.count PollerTrace.is_fire evs
  = (PollerTrace.count PollerTrace.is_start out
     + PollerTrace.count PollerTrace.is_skip out)%nat
  /\ (PollerTrace.count PollerTrace.is_append out
      + PollerTrace.count PollerTrace.awaits_checks (inflight st)
      <= PollerTrace.count PollerTrace.is_start out)%nat
  /\ Forall PollerTrace.writes_results out.
Proof.
  induction evs as [|ev evs IH] using rev_ind.
  - simpl. split; [reflexivity|]. split; [|constructor].
    unfold PollerTrace.count; simpl; lia.
  - rewrite run_snoc. simpl in IH. destruct IH as (Hfire & Happend & Hall).
    pose proof (step_accounts (fst (run POLL_INTERVAL_MS evs)) ev) as Hstep.
    destruct (step POLL_INTERVAL_MS (fst (run POLL_INTERVAL_MS evs)) ev)
      as [st' out]. destruct Hstep as (Hf & Ha & Hw). simpl.
    rewrite !count_app. repeat split.
    + unfold PollerTrace.count at 2. simpl.
      destruct (PollerTrace.is_fire ev); simpl in *; lia.
    + lia.
    + apply Forall_app. by split.
Qed.

End PollerAccounts.

(** X22. Over any sequence of timer firings and settled awaits, every
    firing is accounted for: it either starts a round of checks or
    writes the skip line, never both and never neither.  The history is
    written at most once per started round, and never with an empty
    batch of results. *)
Theorem every_firing_is_accounted_for (POLL_INTERVAL_MS : Z)
    (evs : list Event) :
  let out := snd (run POLL_INTERVAL_MS evs) in
  PollerTrace.count PollerTrace.is_fire evs
  = (PollerTrace.count PollerTrace.is_start out
     + PollerTrace.count PollerTrace.is_skip out)%nat
  /\ (PollerTrace.count PollerTrace.is_append out
      <= PollerTrace.count PollerTrace.is_start out)%nat
  /\ Forall PollerTrace.writes_results out.
Proof.
  intros out. destruct (run_accounts POLL_INTERVAL_MS evs) as (Hf & Ha & Hw).
  fold out in Hf, Ha, Hw. split; [exact Hf|]. split; [lia | exact Hw].
Qed.




(** ** The call URL of the action-aware adapter *)

Lemma split_single_query (trimmed base query : jstr) :
  Forall (fun c => c <> 63) base -> Forall (fun c => c <> 63) query ->
  trimmed = base ++ (if truthy query then lit "?" ++ query else []) ->
  default [] (split_char 63 trimmed !! 0%nat) = base
  /\ default [] (split_char 63 trimmed !! 1%nat) = query.
Proof.
  intros Hb Hq ->. destruct query as [|q0 query]; simpl truthy; cbv iota.
  - by rewrite app_nil_r, (split_char_none 63 base Hb).
  - change (lit "?" ++ q0 :: query) with (63 :: q0 :: query).
    by rewrite (split_char_first 63 base _ Hb), (split_char_none 63 _ Hq).
Qed.

(** X24. On an endpoint that names no action and whose part in front of
    the query is the models base, closing slashes apart, the
    action-aware adapter calls the base completed with the model and the
    action asked for, in front of the query.  An empty [query] stands for
    an endpoint without one. *)
Theorem action_url_on_models_base (endpoint model base query : jstr)
    (action : GeminiAction.GeminiAction) :
  Forall (fun c => c <> 63) base -> Forall (fun c => c <> 63) query ->
  let tail := if truthy query then lit "?" ++ query else [] in
  let normalizedBase := dropWhileEnd is_slash base in
  trim endpoint = base ++ tail ->
  includes (trim endpoint) (lit ":generateContent") = false ->
  includes (trim endpoint) (lit ":streamGenerateContent") = false ->
  endsWith normalizedBase (lit "/v1beta/models") = true ->
  GeminiAction.resolveGeminiUrlForAction endpoint model action
  = normalizedBase ++ lit "/" ++ model ++ lit ":"
    ++ GeminiAction.action_name action ++ tail.
Proof.
  intros Hb Hq tail normalizedBase Ht Hg Hs Hmodels.
  destruct (split_single_query (trim endpoint) base query Hb Hq Ht) as [H0 H1].
  unfold GeminiAction.resolveGeminiUrlForAction. cbv zeta.
  rewrite H0, H1, Hg, Hs. fold normalizedBase. rewrite Hmodels.
  subst tail. destruct action; destruct (truthy query);
    rewrite <- ?app_assoc, ?app_nil_r; reflexivity.
Qed.

Lemma action_url_on_models_base_witness :
  GeminiAction.resolveGeminiUrlForAction (lit " https://h/v1beta/models//?key=k ")
    (lit "gemini-pro") GeminiAction.generateContent
  = lit "https://h/v1beta/models/gemini-pro:generateContent?key=k".
Proof.
  assert (forall s : jstr, forallb (fun c => negb (c =? 63)) s = true ->
                           Forall (fun c => c <> 63) s) as Hplain.
  { intros s H. apply Forall_forall. intros x Hx. apply list_elem_of_In in Hx.
    rewrite forallb_forall in H. specialize (H x Hx).
    apply negb_true_iff, N.eqb_neq in H. exact H. }
  rewrite (action_url_on_models_base (lit " https://h/v1beta/models//?key=k ")
             (lit "gemini-pro") (lit "https://h/v1beta/models//") (lit "key=k")
             GeminiAction.generateContent).
  - vm_compute. reflexivity.
  - apply Hplain. vm_compute. reflexivity.
  - apply Hplain. vm_compute. reflexivity.
  - vm_compute. reflexivity.
  - vm_compute. reflexivity.
  - vm_compute. reflexivity.
  - vm_compute. reflexivity.
Defined.





(** ** The first revision of the Gemini adapter *)

Section FirstRevision.

Variable JSON_parse : jstr -> option json.
Variable JSON_stringify : json -> jstr.
Variable syntaxError : jstr -> thrown.

Lemma first_readResponse_text (response : Response) (t : jstr) :
  GeminiFirst.readResponse JSON_parse JSON_stringify syntaxError response = inl t ->
  trim t <> [].
Proof.
  unfold GeminiFirst.readResponse. destruct (negb (ok response)); [discriminate|].
  cbv zeta. destruct (if includes _ _ then _ else _) as [payload | e];
    [|discriminate].
  destruct (GeminiFirst.extractGeminiText payload) as [text|]; [|discriminate].
  destruct (truthy text); simpl; [|discriminate].
  destruct (truthy (trim text)) eqn:E; simpl; [|discriminate].
  intros [= <-]. by apply truthy_true.
Qed.

Lemma first_readChunks_lines (chunks : list jstr) (buffer : jstr) (lastJson : json) :
  fold_left (GeminiFirst.dataLine JSON_parse)
    (split_lines
       (fst (fold_left (GeminiFirst.readChunk JSON_parse) chunks (buffer, lastJson))))
    (snd (fold_left (GeminiFirst.readChunk JSON_parse) chunks (buffer, lastJson)))
  = fold_left (GeminiFirst.dataLine JSON_parse)
      (split_lines (buffer ++ concat chunks)) lastJson.
Proof.
  revert buffer lastJson.
  induction chunks as [|chunk rest IH]; intros buffer lastJson.
  - simpl. by rewrite app_nil_r.
  - change (fold_left (GeminiFirst.readChunk JSON_parse) (chunk :: rest)
              (buffer, lastJson))
      with (fold_left (GeminiFirst.readChunk JSON_parse) rest
              (GeminiFirst.readChunk JSON_parse (buffer, lastJson) chunk)).
    destruct (GeminiFirst.readChunk JSON_parse (buffer, lastJson) chunk)
      as [buffer' lastJson'] eqn:E.
    rewrite IH. unfold GeminiFirst.readChunk in E. simpl in E.
    injection E as <- <-. simpl concat. rewrite app_assoc.
    rewrite (split_lines_app (buffer ++ chunk)), fold_left_app. reflexivity.
Qed.

Lemma dataLine_event (lastJson : json) (x : jstr) (parsed : json) :
  trim x <> [] -> trim x <> lit "[DONE]" ->
  JSON_parse (trim x) = Some parsed ->
  GeminiFirst.dataLine JSON_parse lastJson (lit "data: " ++ x) = parsed.
Proof.
  intros Hne Hdone Hparse. unfold GeminiFirst.dataLine.
  rewrite trim_data_line, startsWith_app. simpl negb. cbv iota.
  change (slice_from 5 (lit "data:" ++ trimEnd (32 :: x)))
    with (trimEnd (32 :: x)).
  rewrite trimEnd_trim, trim_ws_cons by reflexivity.
  apply truthy_true in Hne. apply eqb_neq in Hdone.
  by rewrite Hne, Hdone, Hparse.
Qed.

Lemma dataLine_others (lastJson : json) (lines : list jstr) :
  Forall (fun line => startsWith (trim line) (lit "data:") = false) lines ->
  fold_left (GeminiFirst.dataLine JSON_parse) lines lastJson = lastJson.
Proof.
  induction 1 as [|line lines Hline _ IH]; [reflexivity|].
  simpl. unfold GeminiFirst.dataLine at 2. by rewrite Hline.
Qed.

End FirstRevision.

(** X26. The first revision of the native Gemini check never reports
    failed: a reply without a text that is not blank is thrown as an
    error by the request, so the text a check grades is never blank.
    The result is error exactly when the request threw, and exactly then
    it has no latency; its message is the wording of the value thrown. *)
Theorem first_revision_never_reports_failed
    (JSON_parse : jstr -> option json) (JSON_stringify : json -> jstr)
    (syntaxError : jstr -> thrown) (refusalMessage : jstr -> jstr -> jstr)
    (default_gemini : jstr)
    (validateResponse : jstr -> jstr -> Validation)
    (getErrorMessage : thrown -> jstr)
    (config : ProviderConfig.t) (run : GeminiCommon.Run) :
  let outcome :=
    fst (GeminiFirst.requestPhase JSON_parse JSON_stringify syntaxError
           refusalMessage default_gemini config run) in
  let r :=
    fst (GeminiFirst.checkWithGeminiNative JSON_parse JSON_stringify syntaxError
           refusalMessage default_gemini validateResponse getErrorMessage
           config run) in
  (forall t, outcome = inl t -> trim t <> [])
  /\ CheckResult.status r <> failed
  /\ (CheckResult.status r = error <-> exists e, outcome = inr e)
  /\ (CheckResult.latencyMs r = None <-> CheckResult.status r = error)
  /\ (forall e, outcome = inr e -> CheckResult.message r = getErrorMessage e).
Proof.
  intros outcome r.
  assert (forall t, outcome = inl t -> trim t <> []) as Htext.
  { subst outcome. unfold GeminiFirst.requestPhase, GeminiFirst.requestGeminiNative.
    intros t.
    destruct (GeminiNative.requestOf _) as [request | [key value]];
      [|discriminate].
    cbn [fst]. destruct (fetch run 0%nat request) as [response | e];
      [|discriminate].
    apply first_readResponse_text. }
  split; [exact Htext|]. subst r. unfold GeminiFirst.checkWithGeminiNative.
  fold outcome in Htext |- *.
  destruct (GeminiFirst.requestPhase _ _ _ _ _ _ _) as [[t | e] requests];
    simpl in outcome; subst outcome; simpl fst.
  - specialize (Htext t eq_refl). apply truthy_true in Htext. rewrite Htext.
    simpl negb. cbv iota zeta.
    destruct (negb (valid _)); simpl.
    + repeat split; try discriminate. intros [e He]. discriminate.
    + assert (forall s : Status,
                (if (GeminiCommon.finishedAt run - GeminiCommon.startedAt run
                     <=? GeminiFirst.DEGRADED_THRESHOLD_MS)%Z
                 then operational else degraded) = s ->
                s = operational \/ s = degraded) as Hgrade
        by (intros s <-; destruct (_ <=? _)%Z; auto).
      repeat split; try discriminate.
      * intros H. apply Hgrade in H as [H | H]; discriminate.
      * intros H. apply Hgrade in H as [H | H]; discriminate.
      * intros [e He]. discriminate.
      * intros H. apply Hgrade in H as [H | H]; discriminate.
  - simpl. repeat split; try discriminate; eauto.
    by intros e' [= <-].
Qed.

Lemma first_revision_never_reports_failed_witness :
  CheckResult.status
    (fst (GeminiFirst.checkWithGeminiNative Samples.parse Cases.stringify
            Cases.syntaxError Samples.refusal (Samples.defaults gemini)
            Samples.validate
            Samples.describe (Samples.provider gemini None) Cases.blankText))
  = error
  /\ CheckResult.latencyMs
       (fst (GeminiFirst.checkWithGeminiNative Samples.parse Cases.stringify
               Cases.syntaxError Samples.refusal (Samples.defaults gemini)
            Samples.validate
               Samples.describe (Samples.provider gemini None) Cases.blankText))
     = None.
Proof.
  destruct (first_revision_never_reports_failed Samples.parse Cases.stringify
              Cases.syntaxError Samples.refusal (Samples.defaults gemini)
              Samples.validate
              Samples.describe (Samples.provider gemini None) Cases.blankText)
    as (_ & _ & Herror & Hlatency & _).
  assert (CheckResult.status
            (fst (GeminiFirst.checkWithGeminiNative Samples.parse Cases.stringify
                    Cases.syntaxError Samples.refusal (Samples.defaults gemini)
            Samples.validate
                    Samples.describe (Samples.provider gemini None)
                    Cases.blankText)) = error) as Hs.
  { apply Herror. eexists. by vm_compute. }
  split; [exact Hs | by apply Hlatency].
Defined.

(** X27. The stream reader of the first revision keeps one value, the
    one of the last [data:] line that parses, and merges nothing: when
    the lines of the body, however the body is cut into chunks, hold a
    [data:] line with a payload that parses to a value other than
    [null], and no [data:] line after it, the reader returns that value,
    whatever the events before it were. *)
Theorem first_reader_keeps_the_last_event
    (JSON_parse : jstr -> option json) (response : Response) (b : Body)
    (before after : list jstr) (x : jstr) (parsed : json) :
  GeminiCommon.stream response = Some b ->
  failure b = None ->
  split_lines (concat (chunks b)) = before ++ (lit "data: " ++ x) :: after ->
  Forall (fun line => startsWith (trim line) (lit "data:") = false) after ->
  trim x <> [] -> trim x <> lit "[DONE]" ->
  JSON_parse (trim x) = Some parsed -> parsed <> JNull ->
  GeminiFirst.readEventStreamJson JSON_parse response = inl parsed.
Proof.
  intros Hs Hf Hlines Hafter Hne Hdone Hparse Hnull.
  unfold GeminiFirst.readEventStreamJson. rewrite Hs, Hf.
  pose proof (first_readChunks_lines JSON_parse (chunks b) [] JNull) as H.
  destruct (fold_left _ (chunks b) _) as [buffer lastJson]. simpl in H.
  rewrite H, Hlines, fold_left_app. cbn [fold_left].
  rewrite (dataLine_event JSON_parse _ x parsed Hne Hdone Hparse).
  rewrite (dataLine_others JSON_parse parsed after Hafter).
  by destruct parsed.
Qed.

Lemma first_reader_keeps_the_last_event_witness :
  GeminiFirst.readEventStreamJson Samples.parse Cases.streamed
  = inl (Samples.reply (lit "4")).
Proof.
  apply (first_reader_keeps_the_last_event Samples.parse Cases.streamed
           {| chunks := [ lit "data: " ++ Samples.event2 ++ [13];
                          [10; 13; 10] ++ lit "da";
                          lit "ta: " ++ Samples.event1 ++ [10; 10] ];
              failure := None |}
           [lit "data: " ++ Samples.event2; []] [[]; []] Samples.event1
           (Samples.reply (lit "4")));
    try reflexivity; try (vm_compute; discriminate).
  repeat constructor.
Defined.
